(** * Blackjack engine of [final_project.py]: shoe, hands, account, round play.

    The Python classes [Card], [Deck], [Hand] and [Account] and the game-flow
    functions [play_game] .. [calculate_payoff] are embedded as Rocq
    definitions; the properties of the engine are proved about them. *)

From Stdlib Require Import String Ascii.
From Stdlib Require Import ZArith QArith List Bool Lia Permutation DecimalString.
Import ListNotations.
Local Open Scope string_scope.
Local Open Scope list_scope.
Local Open Scope Z_scope.

Set Implicit Arguments.

(** ** Python scaffolding: exceptions, list [pop], the random source *)

(** The exceptions the embedded code can raise. *)
Inductive exn : Type :=
| EOFError
| IndexError
| TypeError
| UnboundLocalError.

Inductive result (A : Type) : Type :=
| Ok (a : A)
| Raise (e : exn).
Arguments Ok {A} a.
Arguments Raise {A} e.

(** [l.pop()]: removes and returns the last element, [None] standing for the
    [IndexError] of an empty list. *)
Fixpoint pop {A : Type} (l : list A) : option (list A * A) :=
  match l with
  | [] => None
  | x :: r =>
      match pop r with
      | None => Some ([], x)
      | Some (r', y) => Some (x :: r', y)
      end
  end.

(** [iter n f x] applies [f] n times: [for _ in range(n): x = f(x)]. *)
Fixpoint iter {A : Type} (n : nat) (f : A -> A) (x : A) : A :=
  match n with
  | O => x
  | S k => iter k f (f x)
  end.

(** The process-wide generator of module [random], as the tape of raw words
    it will produce (zeros after the tape ends).  Each primitive consumes one
    word and reduces it to its range, so every tape is a legal run of the
    generator and every finite run of the generator is some tape. *)
Module Rng.

Definition t := list Z.

Definition next (g : t) : Z * t :=
  match g with
  | [] => (0, [])
  | x :: g' => (x, g')
  end.

(** [random.randint(a, b)]: an integer of [a..b]. *)
Definition randint (a b : Z) (g : t) : Z * t :=
  let (x, g') := next g in (a + x mod (b - a + 1), g').

(** [random.random()]: a double [k / 2^53] with [0 <= k < 2^53]; the
    result is the numerator [k]. *)
Definition random (g : t) : Z * t :=
  let (x, g') := next g in (x mod 2 ^ 53, g').

(** [round(random.uniform(0.6, 0.85), 2)]: one of 0.60, 0.61, .., 0.85; the
    result is the number of hundredths. *)
Definition uniform_060_085_round2 (g : t) : Z * t :=
  let (x, g') := next g in (60 + x mod 26, g').

End Rng.

(** The doubles 0.6, 0.4 and 0.5 as numerators over [2^53]
    ([0x1.3333333333333p-1], [0x1.999999999999ap-2], [0x1p-1]), so that
    [random.random() < p] is a comparison of numerators. *)
Definition prob_0_6 : Z := 5404319552844595.
Definition prob_0_4 : Z := 3602879701896397.
Definition prob_0_5 : Z := 4503599627370496.

(** ** class Card *)

Inductive Suit : Type := Spades | Hearts | Diamonds | Clubs.

(** The rank strings "A", "2", .., "10", "J", "Q", "K". *)
Inductive Rank : Type :=
| RA | R2 | R3 | R4 | R5 | R6 | R7 | R8 | R9 | R10 | RJ | RQ | RK.

Module Card.

Record t : Type := new { suit : Suit; rank : Rank }.

Definition is_ace (r : Rank) : bool :=
  match r with RA => true | _ => false end.

(** [Card.get_value] *)
Definition get_value (r : Rank) : Z :=
  match r with
  | RJ | RQ | RK => 10
  | RA => 11
  | R2 => 2 | R3 => 3 | R4 => 4 | R5 => 5 | R6 => 6
  | R7 => 7 | R8 => 8 | R9 => 9 | R10 => 10
  end.

(** The attribute [value], set once by [__init__] to [get_value()]. *)
Definition value (c : t) : Z := get_value (rank c).

End Card.

(** ** class Deck *)

Module Deck.

(** [num_decks] is assigned the literal 6 in [__init__] and never again. *)
Definition num_decks : Z := 6.

(** [shuffle_point] is a double with two decimals; the field holds its
    hundredths (1 is 100).  *)
Record t : Type := mk { cards : list Card.t; shuffle_point : Z }.

Definition suits : list Suit := [Spades; Hearts; Diamonds; Clubs].
Definition ranks : list Rank :=
  [RA; R2; R3; R4; R5; R6; R7; R8; R9; R10; RJ; RQ; RK].

(** The three nested [for] loops of [reset_deck], as the cards they
    append. *)
Definition ordered_decks : list Card.t :=
  concat (repeat
            (flat_map (fun s => map (fun r => Card.new s r) ranks) suits)
            (Z.to_nat num_decks)).

(** The [while left and right] loop of [shuffle_deck]; [acc] is
    [shuffled_cards].  After the loop the two remainders are appended. *)
Fixpoint interleave (left : list Card.t)
  : list Card.t -> list Card.t -> Rng.t -> list Card.t * Rng.t :=
  fix from_right (right acc : list Card.t) (g : Rng.t) {struct right} :=
    match left, right with
    | l :: left', r :: right' =>
        let prob_left :=
          if (length right <? length left)%nat then prob_0_6
          else if (length left <? length right)%nat then prob_0_4
          else prob_0_5 in
        let (u, g') := Rng.random g in
        if u <? prob_left
        then interleave left' right (acc ++ [l]) g'
        else from_right right' (acc ++ [r]) g'
    | _, _ => (acc ++ left ++ right, g)
    end.

Definition shuffle_deck (dg : t * Rng.t) : t * Rng.t :=
  let (d, g) := dg in
  let (r, g1) := Rng.randint (-1) 3 g in
  let cut := Z.to_nat (Z.of_nat (length (cards d)) / (2 + r)) in
  let left := firstn cut (cards d) in
  let right := skipn cut (cards d) in
  let (shuffled_cards, g2) := interleave left right [] g1 in
  (mk shuffled_cards (shuffle_point d), g2).

(** [reset_deck] appends the 312 ordered cards to [self.cards] as it is,
    shuffles 15 times and burns the top card.  The [pop] cannot raise: the
    list holds at least the 312 cards just appended. *)
Definition reset_deck (d : t) (g : Rng.t) : t * Rng.t :=
  let (sp, g1) := Rng.uniform_060_085_round2 g in
  let d1 := mk (cards d ++ ordered_decks) sp in
  let (d2, g2) := iter 15 shuffle_deck (d1, g1) in
  (mk (removelast (cards d2)) (shuffle_point d2), g2).

(** [Deck()] *)
Definition init (g : Rng.t) : t * Rng.t := reset_deck (mk [] 100) g.

(** [len(self.cards) <= self.num_decks * 52 * (1 - self.shuffle_point)].
    With [shuffle_point] a number of hundredths the comparison is the
    integer one below: the double product is exact at 0.75 and 1, and for
    every other two-decimal point it is at least 0.04 away from an
    integer. *)
Definition needs_shuffle (d : t) : bool :=
  100 * Z.of_nat (length (cards d)) <=? num_decks * 52 * (100 - shuffle_point d).

(** [draw_card]: the lines printed, the new shoe and generator, and the
    card popped or the [IndexError] of an empty list. *)
Definition draw_card (d : t) (g : Rng.t)
  : list string * (t * Rng.t) * result Card.t :=
  let '(out, (d1, g1)) :=
    if needs_shuffle d
    then (["Shuffling deck..."], reset_deck d g)
    else ([], (d, g)) in
  match pop (cards d1) with
  | None => (out, (d1, g1), Raise IndexError)
  | Some (rest, c) => (out, (mk rest (shuffle_point d1), g1), Ok c)
  end.

End Deck.

(** ** class Hand *)

Module Hand.

Record t : Type := mk { cards : list Card.t; value : Z; aces : nat }.

(** [Hand()] *)
Definition init : t := mk [] 0 0%nat.

(** [ace_adjustment]: [while self.value > 21 and self.aces]. *)
Fixpoint ace_adjustment (value : Z) (aces : nat) : Z * nat :=
  match aces with
  | O => (value, O)
  | S a => if 21 <? value then ace_adjustment (value - 10) a else (value, aces)
  end.

Definition add_card (h : t) (card : Card.t) : t :=
  let value := value h + Card.value card in
  let aces := if Card.is_ace (Card.rank card) then S (aces h) else aces h in
  let (value', aces') := ace_adjustment value aces in
  mk (cards h ++ [card]) value' aces'.

Definition is_bust (h : t) : bool := 21 <? value h.

(** The [for] loop of [is_blackjack] over the cards, from the flags
    [(has_ace, has_ten)]. *)
Definition scan (flags : bool * bool) (card : Card.t) : bool * bool :=
  let (has_ace, has_ten) := flags in
  if Card.is_ace (Card.rank card) then (true, has_ten)
  else if Card.value card =? 10 then (has_ace, true)
  else (has_ace, has_ten).

Definition is_blackjack (h : t) : bool :=
  if negb (length (cards h) =? 2)%nat then false
  else
    let (has_ace, has_ten) := fold_left scan (cards h) (false, false) in
    has_ace && has_ten.

End Hand.

(** ** Numbers and strings of the game flow *)

(** The Python numbers the account holds: [int] 0 at first, [float] after a
    deposit or a bet.  The arithmetic is left abstract, so that what is proved
    holds for IEEE doubles as for exact arithmetic; [parse_float] is
    [float(s)], [None] standing for its [ValueError]; [fround2 x] is
    [round(x, 2)]; [fint n] is the integer literal [n]; [f2_5] is the literal
    [2.5]. *)
Class Number (F : Type) : Type := {
  fadd : F -> F -> F;
  fsub : F -> F -> F;
  fmul : F -> F -> F;
  fge : F -> F -> bool;
  flt : F -> F -> bool;
  fround2 : F -> F;
  fint : Z -> F;
  f2_5 : F;
  parse_float : string -> option F
}.

Definition nl : string := String (ascii_of_nat 10) "".

(** ['=' * 40] *)
Definition bar : string := "========================================".

(** [s.upper()] on ASCII text. *)
Definition upper_ascii (c : ascii) : ascii :=
  let n := nat_of_ascii c in
  if ((97 <=? n) && (n <=? 122))%nat then ascii_of_nat (n - 32) else c.

Fixpoint upper (s : string) : string :=
  match s with
  | EmptyString => EmptyString
  | String c r => String (upper_ascii c) (upper r)
  end.

(** [sub in s] *)
Fixpoint contains (sub s : string) : bool :=
  if String.prefix sub s then true
  else match s with
       | EmptyString => false
       | String _ r => contains sub r
       end.

(** [s.split("\n")[0]] *)
Fixpoint first_line (s : string) : string :=
  match s with
  | EmptyString => EmptyString
  | String c r =>
      if Ascii.eqb c (ascii_of_nat 10) then EmptyString
      else String c (first_line r)
  end.

(** [x in l] for a list of strings. *)
Definition in_list (x : string) (l : list string) : bool :=
  existsb (String.eqb x) l.

(** ** class Account *)

Module User.
Record t : Type := mk { _username : string; _email : string }.
End User.

Module Account.
Section WithNumber.
Variable F : Type.
Context {num : Number F}.

Record t : Type := mk {
  user : User.t;
  balance : F;
  bet : F;
  net_earnings : F;
  games_played : Z;
  games_won : Z;
  deposited : F
}.

(** [Account(user)] *)
Definition init (u : User.t) : t :=
  mk u (fint 0) (fint 0) (fint 0) 0 0 (fint 0).

(** [place_bet]: the account after the call and the value returned. *)
Definition place_bet (a : t) (amount : F) : t * bool :=
  if fge (balance a) amount then
    (mk (user a) (fsub (balance a) amount) (fadd (bet a) amount)
        (fsub (net_earnings a) amount) (games_played a) (games_won a)
        (deposited a), true)
  else (a, false).

Definition game_won (a : t) (amount : F) : t :=
  mk (user a) (fadd (balance a) amount) (bet a)
     (fadd (net_earnings a) amount) (games_played a) (games_won a + 1)
     (deposited a).

End WithNumber.
End Account.

(** ** The game flow *)

Section Engine.
Variable F : Type.
Context {num : Number F}.

(** What the program writes: [print(s)]; [print(label, hand, sep="\n")],
    the hand kept as it is instead of its card art; the prompt of
    [input(s)]; the prompt of [get_bet], which formats the balance. *)
Inductive Out : Type :=
| Print (s : string)
| Show (label : string) (h : Hand.t)
| Prompt (s : string)
| BetPrompt (balance : F).

(** The objects a round works on: the shoe, the random generator, the
    account and the terminal output.  The lines still to be read from the
    terminal are threaded apart, see [IO]. *)
Record World : Type := mkWorld {
  deck : Deck.t;
  rng : Rng.t;
  account : Account.t F;
  stdout : list Out
}.

(** Code that reads no input: state and exceptions.  The state outlives an
    exception, as the mutated objects do. *)
Definition W (A : Type) : Type := World -> World * result A.

Definition retW {A : Type} (a : A) : W A := fun w => (w, Ok a).

Definition bindW {A B : Type} (m : W A) (k : A -> W B) : W B :=
  fun w =>
    match m w with
    | (w1, Ok a) => k a w1
    | (w1, Raise e) => (w1, Raise e)
    end.

(** Code that reads input: the lines not yet read come first. *)
Definition Outcome (A : Type) : Type := list string * World * result A.
Definition IO (A : Type) : Type := list string -> World -> Outcome A.

Definition ret {A : Type} (a : A) : IO A := fun ins w => (ins, w, Ok a).

Definition bind {A B : Type} (m : IO A) (k : A -> IO B) : IO B :=
  fun ins w =>
    match m ins w with
    | (ins1, w1, Ok a) => k a ins1 w1
    | (ins1, w1, Raise e) => (ins1, w1, Raise e)
    end.

Definition liftW {A : Type} (m : W A) : IO A :=
  fun ins w => let (w1, r) := m w in (ins, w1, r).

Definition raise {A : Type} (e : exn) : IO A := fun ins w => (ins, w, Raise e).

Definition emit (o : Out) (w : World) : World :=
  mkWorld (deck w) (rng w) (account w) (stdout w ++ [o]).

Definition set_account (a : Account.t F) (w : World) : World :=
  mkWorld (deck w) (rng w) a (stdout w).

Definition print (s : string) : W unit := fun w => (emit (Print s) w, Ok tt).

(** [print(label, hand, sep="\n")]: [Hand.__str__] returns [None] for a
    hand without cards, which [print] refuses with a [TypeError] after it
    has written the label. *)
Definition show (label : string) (h : Hand.t) : W unit :=
  fun w =>
    match Hand.cards h with
    | [] => (emit (Print label) w, Raise TypeError)
    | _ :: _ => (emit (Show label h) w, Ok tt)
    end.

(** [input(prompt)] *)
Definition input (prompt : string) : IO string :=
  fun ins w =>
    match ins with
    | [] => ([], emit (Prompt prompt) w, Raise EOFError)
    | line :: rest => (rest, emit (Prompt prompt) w, Ok line)
    end.

(** [deck.draw_card()] *)
Definition draw_card : W Card.t :=
  fun w =>
    let '(out, (d, g), r) := Deck.draw_card (deck w) (rng w) in
    (mkWorld d g (account w) (stdout w ++ map Print out), r).

(** A method or function that mutates the account and returns a value. *)
Definition on_account {A : Type} (f : Account.t F -> Account.t F * A) : W A :=
  fun w => let (a, x) := f (account w) in (set_account a w, Ok x).

End Engine.

Arguments Print {F} s.
Arguments Show {F} label h.
Arguments Prompt {F} s.
Arguments retW {F A} a.
Arguments ret {F A} a.
Arguments raise {F A} e.
Arguments print {F} s.
Arguments show {F} label h.
Arguments input {F} prompt.
Arguments draw_card {F}.

Declare Scope io_scope.
Delimit Scope io_scope with io.
Notation "x <- m ;; k" := (bind m (fun x => k))
  (at level 61, m at next level, right associativity) : io_scope.
Notation "m ;; k" := (bind m (fun _ => k))
  (at level 61, right associativity) : io_scope.
Notation "x <~ m ;; k" := (bindW m (fun x => k))
  (at level 61, m at next level, right associativity) : io_scope.
Notation "m ;~ k" := (bindW m (fun _ => k))
  (at level 61, right associativity) : io_scope.
Local Open Scope io_scope.

Section Play.
Variable F : Type.
Context {num : Number F}.

(** [not split] for the integer flag [split]. *)
Definition not_ (split : Z) : bool := split =? 0.

(** [calculate_payoff(bet, outcome, account, hand, split=0)]: the account
    after the call. *)
Definition calculate_payoff (bet : F) (outcome : string) (account : Account.t F)
    (hand : Hand.t) (split : Z) : Account.t F :=
  if (outcome =? "push")%string then
    Account.mk (Account.user account)
      (fadd (Account.balance account) bet)
      (Account.bet account)
      (fadd (Account.net_earnings account) bet)
      (Account.games_played account) (Account.games_won account)
      (Account.deposited account)
  else if (outcome =? "win")%string then
    if Hand.is_blackjack hand && not_ split then
      Account.mk (Account.user account)
        (fadd (Account.balance account) (fround2 (fmul f2_5 bet)))
        (Account.bet account)
        (fadd (Account.net_earnings account) (fround2 (fmul f2_5 bet)))
        (Account.games_played account) (Account.games_won account + 1)
        (Account.deposited account)
    else Account.game_won account (fmul (fint 2) bet)
  else account.

(** [check_winner(hand, d_hand, account, bet, split=0)]: the account after
    the call and the message returned.  The values are integers, so the
    third test [hand.value == d_hand.value] holds whenever it is reached. *)
Definition check_winner (hand d_hand : Hand.t) (account : Account.t F) (bet : F)
    (split : Z)   : Account.t F * string :=
  if Hand.value d_hand <? Hand.value hand then
    (calculate_payoff bet "win" account hand split,
     "You win!" ++ nl ++ "Hit Enter to return to Main Menu.")%string
  else if Hand.value hand <? Hand.value d_hand then
    (account, "Dealer wins." ++ nl ++ "Hit Enter to return to Main Menu.")%string
  else
    (calculate_payoff bet "push" account hand split,
     "Push!" ++ nl ++ "Hit Enter to return to Main Menu.")%string.

(** [action_allowed(bet, action, account)]; the [None] returned when the
    bet is refused is the falsy value [false]. *)
Definition action_allowed (bet : F) (action : string) (account : Account.t F)
  : Account.t F * bool :=
  if in_list action ["H"; "S"] then (account, true)
  else if in_list action ["D"; "L"] then Account.place_bet account bet
  else (account, false).

Definition insufficient_funds : string :=
  (bar ++ nl ++ "Insufficient funds." ++ nl ++ bar)%string.

(** [get_bet(account)]: one line is read per turn of the loop. *)
Fixpoint get_bet (ins : list string) (w : World F) {struct ins} : Outcome F F :=
  let w := emit (BetPrompt (Account.balance (account w))) w in
  match ins with
  | [] => ([], w, Raise EOFError)
  | line :: rest =>
      match parse_float line with
      | None =>
          get_bet rest (emit (Print "Bet must be dollar amount, minimum $2.") w)
      | Some x =>
          let bet := fround2 x in
          if flt bet (fint 2) then
            get_bet rest (emit (Print "Bet must be dollar amount, minimum $2.") w)
          else
            let (a, ok) := Account.place_bet (account w) bet in
            if ok then (rest, set_account a w, Ok bet)
            else get_bet rest (emit (Print insufficient_funds) (set_account a w))
      end
  end.

Definition split_prompt : string :=
  "Do you want to hit (H), stand (S), double (D) or split (L): ".
Definition no_split_prompt : string :=
  "Do you want to hit (H) or stand (S), double (D): ".

(** [split_allowed(hand)] *)
Definition split_allowed (hand : Hand.t) : result string :=
  match nth_error (Hand.cards hand) 0, nth_error (Hand.cards hand) 1 with
  | Some c0, Some c1 =>
      if Card.value c0 =? Card.value c1 then Ok split_prompt
      else Ok no_split_prompt
  | _, _ => Raise IndexError
  end.

(** [get_action(actions, bet, account)]: one line is read per turn. *)
Fixpoint get_action (actions : string) (bet : F) (ins : list string)
    (w : World F) {struct ins} : Outcome F string :=
  let w := emit (Prompt actions) w in
  match ins with
  | [] => ([], w, Raise EOFError)
  | line :: rest =>
      let action := upper line in
      let options :=
        ["H"; "S"; "D"] ++ (if contains "split" actions then ["L"] else []) in
      if negb (contains "split" actions) && (action =? "L")%string then
        get_action actions bet rest
          (emit (Print "Splitting is not allowed on this hand.") w)
      else if in_list action options then
        let (a, ok) := action_allowed bet action (account w) in
        if ok then (rest, set_account a w, Ok action)
        else get_action actions bet rest
               (emit (Print "Insufficient Funds") (set_account a w))
      else get_action actions bet rest (emit (Print "Invalid Action") w)
  end.

(** The first half of a turn of the loop of [hit]: draw, add, display. *)
Definition hit_card (hand d_hand : Hand.t) : W F Hand.t :=
  card <~ draw_card ;;
  let hand := Hand.add_card hand card in
  print bar ;~
  show "Dealer:" d_hand ;~
  show "Hand:" hand ;~
  retW hand.

(** [hit(hand, d_hand, deck)]: the value returned and the hand as mutated.
    The inner loop reads lines until one is H or S. *)
Fixpoint hit (hand d_hand : Hand.t) (ins : list string) (w : World F)
    {struct ins} : Outcome F (bool * Hand.t) :=
  match hit_card hand d_hand w with
  | (w1, Raise e) => (ins, w1, Raise e)
  | (w1, Ok hand1) =>
      if Hand.is_bust hand1 then (ins, w1, Ok (false, hand1))
      else
        (fix ask (ins : list string) (w : World F) {struct ins}
           : Outcome F (bool * Hand.t) :=
           let w := emit (Prompt "Do you want to hit (H) or stand (S): ") w in
           match ins with
           | [] => ([], w, Raise EOFError)
           | line :: rest =>
               let action := upper line in
               if in_list action ["H"; "S"] then
                 if (action =? "S")%string then (rest, w, Ok (true, hand1))
                 else hit hand1 d_hand rest w
               else ask rest (emit (Print "Invalid Action") w)
           end) ins w1
  end.

(** The first half of a turn of the loop of [dealer_play]. *)
Definition dealer_card (hand d_hand : Hand.t) : W F Hand.t :=
  card <~ draw_card ;;
  let d_hand := Hand.add_card d_hand card in
  print bar ;~
  print "Dealer hits..." ;~
  show "Dealer:" d_hand ;~
  show "Hand:" hand ;~
  retW d_hand.

(** [dealer_play(hand, d_hand, deck)]: the value returned and the dealer's
    hand as mutated.  A turn that leaves the value under 17 reads a line
    and loops; one that leaves it at 17 or more fails the loop test and
    returns [True]. *)
Fixpoint dealer_play (hand d_hand : Hand.t) (ins : list string) (w : World F)
    {struct ins} : Outcome F (bool * Hand.t) :=
  if Hand.value d_hand <? 17 then
    match dealer_card hand d_hand w with
    | (w1, Raise e) => (ins, w1, Raise e)
    | (w1, Ok d1) =>
        if Hand.is_bust d1 then (ins, w1, Ok (false, d1))
        else if Hand.value d1 <? 17 then
          let w2 := emit (Prompt "Hit enter to continue...") w1 in
          match ins with
          | [] => ([], w2, Raise EOFError)
          | _ :: rest => dealer_play hand d1 rest w2
          end
        else (ins, w1, Ok (true, d1))
    end
  else (ins, w, Ok (true, d_hand)).

(** The first half of a turn of the loop of [split_dealer_play]. *)
Definition split_dealer_card (hand1 hand2 dealer_hand : Hand.t) : W F Hand.t :=
  card <~ draw_card ;;
  let dealer_hand := Hand.add_card dealer_hand card in
  print bar ;~
  print "Dealer hits..." ;~
  show "Dealer:" dealer_hand ;~
  show "Hand 1:" hand1 ;~
  show "Hand 2:" hand2 ;~
  retW dealer_hand.

(** [split_dealer_play(hand1, hand2, dealer_hand, deck)]: the dealer's hand
    as mutated. *)
Fixpoint split_dealer_play (hand1 hand2 dealer_hand : Hand.t)
    (ins : list string) (w : World F) {struct ins} : Outcome F Hand.t :=
  if Hand.value dealer_hand <? 17 then
    match split_dealer_card hand1 hand2 dealer_hand w with
    | (w1, Raise e) => (ins, w1, Raise e)
    | (w1, Ok d1) =>
        if Hand.is_bust d1 then (ins, w1, Ok d1)
        else if Hand.value d1 <? 17 then
          let w2 := emit (Prompt "Hit enter to continue...") w1 in
          match ins with
          | [] => ([], w2, Raise EOFError)
          | _ :: rest => split_dealer_play hand1 hand2 d1 rest w2
          end
        else (ins, w1, Ok d1)
    end
  else (ins, w, Ok dealer_hand).

(** [play_split(player_hand, hand_num, deck, dealer_hand, bet, account)]:
    the value returned, [None] or "D", and the hand as mutated. *)
Definition play_split (player_hand : Hand.t) (hand_num : Z)
    (dealer_hand : Hand.t) (bet : F) : IO F (option string * Hand.t) :=
  liftW (print ("PLAYING HAND " ++ NilZero.string_of_int (Z.to_int hand_num)
                ++ ":")%string) ;;
  action <- get_action no_split_prompt bet ;;
  if (action =? "H")%string then
    r <- hit player_hand dealer_hand ;;
    let (ok, player_hand) := r : bool * Hand.t in
    if negb ok then liftW (print "Bust!") ;; ret (None, player_hand)
    else ret (None, player_hand)
  else if (action =? "S")%string then ret (None, player_hand)
  else if (action =? "D")%string then
    card <- liftW draw_card ;;
    let player_hand := Hand.add_card player_hand card in
    liftW (print bar ;~ show "Dealer:" dealer_hand ;~ show "Hand:" player_hand) ;;
    if Hand.is_bust player_hand then
      liftW (print "Bust!") ;; ret (None, player_hand)
    else ret (Some "D", player_hand)
  else ret (None, player_hand).

(** [action == "D"] for the value returned by [play_split]. *)
Definition is_D (action : option string) : bool :=
  match action with
  | Some a => (a =? "D")%string
  | None => false
  end.

(** [l[i]] *)
Definition index {A : Type} (l : list A) (i : nat) : IO F A :=
  match nth_error l i with
  | Some x => ret x
  | None => raise IndexError
  end.

Definition show3 (dealer_hand hand1 hand2 : Hand.t) : W F unit :=
  print bar ;~
  show "Dealer:" dealer_hand ;~
  show "Hand 1:" hand1 ;~
  show "Hand 2:" hand2.

(** Lines 658-687 of [split], after the dealer has played.  The locals
    [message1] and [message2] are [None] while unbound; reading an unbound
    local raises [UnboundLocalError]. *)
Definition split_settle (player_hand1 player_hand2 dealer_hand : Hand.t)
    (action1 action2 : option string) (bet : F) : IO F unit :=
  let settle (player_hand : Hand.t) (action : option string)
    : IO F (option string) :=
    if Hand.is_bust dealer_hand then
      if negb (Hand.is_bust player_hand) then
        (if is_D action then
           liftW (on_account (fun a =>
             (calculate_payoff (fmul bet (fint 2)) "win" a player_hand 1, tt)))
         else
           liftW (on_account (fun a =>
             (calculate_payoff bet "win" a player_hand 1, tt)))) ;;
        ret (Some "You win!")
      else ret None
    else
      if negb (Hand.is_bust player_hand) then
        message <-
          (if is_D action then
             liftW (on_account (fun a =>
               check_winner player_hand dealer_hand a (fmul bet (fint 2)) 1))
           else
             liftW (on_account (fun a =>
               check_winner player_hand dealer_hand a bet 1))) ;;
        ret (Some (first_line message))
      else ret None in
  message1 <- settle player_hand1 action1 ;;
  message2 <- settle player_hand2 action2 ;;
  match message1, message2 with
  | Some m1, Some m2 =>
      liftW (print ("Hand 1: " ++ m1 ++ nl ++ "Hand 2: " ++ m2)%string) ;;
      input "Hit Enter to return to Main Menu." ;;
      ret tt
  | _, _ => raise UnboundLocalError
  end.

Definition incr_games_played (a : Account.t F) : Account.t F * unit :=
  (Account.mk (Account.user a) (Account.balance a) (Account.bet a)
     (Account.net_earnings a) (Account.games_played a + 1)
     (Account.games_won a) (Account.deposited a), tt).

(** [split(hand, dealer_hand, deck, bet, account)] *)
Definition split (hand dealer_hand : Hand.t) (bet : F) : IO F unit :=
  liftW (on_account incr_games_played) ;;
  let player_hand1 := Hand.init in
  let player_hand2 := Hand.init in
  c0 <- index (Hand.cards hand) 0 ;;
  let player_hand1 := Hand.add_card player_hand1 c0 in
  c1 <- index (Hand.cards hand) 1 ;;
  let player_hand2 := Hand.add_card player_hand2 c1 in
  liftW (show3 dealer_hand player_hand1 player_hand2) ;;
  input "Hit enter to deal..." ;;
  card <- liftW draw_card ;;
  let player_hand1 := Hand.add_card player_hand1 card in
  card <- liftW draw_card ;;
  let player_hand2 := Hand.add_card player_hand2 card in
  liftW (show3 dealer_hand player_hand1 player_hand2) ;;
  r1 <- play_split player_hand1 1 dealer_hand bet ;;
  let (action1, player_hand1) := r1 : option string * Hand.t in
  input "Hit enter to play next hand" ;;
  liftW (show3 dealer_hand player_hand1 player_hand2) ;;
  r2 <- play_split player_hand2 2 dealer_hand bet ;;
  let (action2, player_hand2) := r2 : option string * Hand.t in
  if negb (Hand.is_bust player_hand2) then
    dealer_hand <- split_dealer_play player_hand1 player_hand2 dealer_hand ;;
    split_settle player_hand1 player_hand2 dealer_hand action1 action2 bet
  else if negb (Hand.is_bust player_hand1) then
    dealer_hand <- split_dealer_play player_hand1 player_hand2 dealer_hand ;;
    split_settle player_hand1 player_hand2 dealer_hand action1 action2 bet
  else
    input ("Both bust! Dealer wins." ++ nl
           ++ "Hit enter to return to Main Menu.")%string ;;
    ret tt.

(** The tail shared by the blackjack, H, S and D branches of [play_game]:
    the dealer plays, then the hand is paid with stake [bet]. *)
Definition dealer_then_settle (player_hand dealer_hand : Hand.t) (bet : F)
  : IO F unit :=
  r <- dealer_play player_hand dealer_hand ;;
  let (ok, dealer_hand) := r : bool * Hand.t in
  if negb ok then
    liftW (on_account (fun a =>
      (calculate_payoff bet "win" a player_hand 0, tt))) ;;
    input ("Dealer bust! You win." ++ nl
           ++ "Hit enter to return to Main Menu.")%string ;;
    ret tt
  else
    message <- liftW (on_account (fun a =>
      check_winner player_hand dealer_hand a bet 0)) ;;
    input message ;;
    ret tt.

(** [play_game(account, deck)] *)
Definition play_game : IO F unit :=
  liftW (on_account incr_games_played) ;;
  bet <- get_bet ;;
  let dealer_hand := Hand.init in
  let player_hand := Hand.init in
  card <- liftW draw_card ;;
  let player_hand := Hand.add_card player_hand card in
  card <- liftW draw_card ;;
  let dealer_hand := Hand.add_card dealer_hand card in
  card <- liftW draw_card ;;
  let player_hand := Hand.add_card player_hand card in
  liftW (print bar ;~ show "Dealer:" dealer_hand ;~ show "Hand:" player_hand) ;;
  if Hand.is_blackjack player_hand then
    liftW (print "Blackjack!") ;;
    dealer_then_settle player_hand dealer_hand bet
  else
    actions <- (match split_allowed player_hand with
                | Ok s => ret s
                | Raise e => raise e
                end) ;;
    action <- get_action actions bet ;;
    if (action =? "H")%string then
      r <- hit player_hand dealer_hand ;;
      let (ok, player_hand) := r : bool * Hand.t in
      if negb ok then
        input ("Bust! Dealer wins." ++ nl
               ++ "Hit enter to return to Main Menu.")%string ;;
        ret tt
      else dealer_then_settle player_hand dealer_hand bet
    else if (action =? "S")%string then
      dealer_then_settle player_hand dealer_hand bet
    else if (action =? "D")%string then
      card <- liftW draw_card ;;
      let player_hand := Hand.add_card player_hand card in
      liftW (print bar ;~ show "Dealer:" dealer_hand ;~ show "Hand:" player_hand) ;;
      if Hand.is_bust player_hand then
        input ("Bust! Dealer wins." ++ nl
               ++ "Hit enter to return to Main Menu.")%string ;;
        ret tt
      else
        input "Hit enter to continue." ;;
        dealer_then_settle player_hand dealer_hand (fmul bet (fint 2))
    else if (action =? "L")%string then
      split player_hand dealer_hand bet
    else ret tt.

End Play.

Section HitLoop.
Context {F : Type} {num : Number F}.

(** The inner loop of [hit], which asks until the line is H or S. *)
Definition hit_ask (hand1 d_hand : Hand.t)
  : list string -> World F -> Outcome F (bool * Hand.t) :=
  fix ask (ins : list string) (w : World F) {struct ins}
    : Outcome F (bool * Hand.t) :=
    let w := emit (Prompt "Do you want to hit (H) or stand (S): ") w in
    match ins with
    | [] => ([], w, Raise EOFError)
    | line :: rest =>
        let action := upper line in
        if in_list action ["H"; "S"] then
          if (action =? "S")%string then (rest, w, Ok (true, hand1))
          else hit hand1 d_hand rest w
        else ask rest (emit (Print "Invalid Action") w)
    end.

End HitLoop.

(** ** Exact arithmetic as an instance of [Number]

    The runs below are evaluated with rationals kept in lowest terms.
    [round(x, 2)] rounds to the nearest hundredth, ties to even; [float(s)] is
    given for plain decimal numerals such as "10" and "2.50", all that the
    runs below type in. *)
Module Exact.

Definition round2 (x : Q) : Q :=
  let n := Qnum x * 100 in
  let d := Z.pos (Qden x) in
  let q := n / d in
  let r := n mod d in
  let q' := if 2 * r <? d then q
            else if d <? 2 * r then q + 1
            else if Z.even q then q else q + 1 in
  Qred (q' # 100).

Definition digit (c : ascii) : option Z :=
  let n := nat_of_ascii c in
  if ((48 <=? n) && (n <=? 57))%nat then Some (Z.of_nat (n - 48)) else None.

(** The digits of [s] read after the value [acc] with [scale] decimals so
    far ([None] before the point). *)
Fixpoint numeral (s : string) (acc : Z) (scale : option positive) (seen : bool)
  : option Q :=
  match s with
  | EmptyString =>
      if seen then
        Some (Qred (acc # match scale with Some p => p | None => 1 end))
      else None
  | String c r =>
      if Ascii.eqb c "."%char then
        match scale with
        | None => numeral r acc (Some 1%positive) seen
        | Some _ => None
        end
      else
        match digit c with
        | None => None
        | Some k =>
            numeral r (10 * acc + k)
              (match scale with Some p => Some (10 * p)%positive | None => None end)
              true
        end
  end.

#[global] Instance number : Number Q := {
  fadd a b := Qred (a + b);
  fsub a b := Qred (a - b);
  fmul a b := Qred (a * b);
  fge a b := Qle_bool b a;
  flt a b := negb (Qle_bool b a);
  fround2 := round2;
  fint n := inject_Z n;
  f2_5 := 5 # 2;
  parse_float s := numeral s 0 None false
}.

End Exact.

(** ** Shoes that the program can hold, and runs used as examples *)

(** The shoe after a draw, and after [n] draws in a row. *)
Definition after_draw (dg : Deck.t * Rng.t) : Deck.t * Rng.t :=
  snd (fst (Deck.draw_card (fst dg) (snd dg))).

Definition after_draws (n : nat) (dg : Deck.t * Rng.t) : Deck.t * Rng.t :=
  iter n after_draw dg.

(** A shoe is reachable when it is [Deck()] or what a draw leaves of a
    reachable shoe, for any state of the random generator. *)
Inductive reachable : Deck.t -> Prop :=
| reach_init (g : Rng.t) : reachable (fst (Deck.init g))
| reach_draw (d : Deck.t) (g : Rng.t) :
    reachable d -> reachable (fst (after_draw (d, g))).

Definition Card_eq_dec (a b : Card.t) : {a = b} + {a <> b}.
Proof. repeat decide equality. Defined.

(** The shoe [Deck()] when the generator produces zeros: every cut is the
    whole pile, so the 312 cards stay in the order of the [for] loops and the
    last king of clubs is burned. *)
Definition shoe0 : Deck.t * Rng.t := Deck.init [].

(** [shoe0] after 187 draws: 124 cards are left, not more than
    312 * (1 - 0.60) = 124.8. *)
Definition shoe0_low : Deck.t * Rng.t := after_draws 187 shoe0.

(** ** Rounds used as examples *)

Definition ace_spades : Card.t := Card.new Spades RA.
Definition six_hearts : Card.t := Card.new Hearts R6.
Definition king_spades : Card.t := Card.new Spades RK.
Definition queen_clubs : Card.t := Card.new Clubs RQ.

(** An account with 100 dollars deposited. *)
Definition alice : User.t := User.mk "alice" "alice@example.com".
Definition acct100 : Account.t Q :=
  Account.mk alice (inject_Z 100) (inject_Z 0) (inject_Z 0) 0 0 (inject_Z 100).

(** The program about to play a round with [Deck()] from a generator that
    produces zeros. *)
Definition world0 : World Q :=
  let (d, g) := shoe0 in mkWorld d g acct100 [].

(** A generator whose first shuffle cuts the 312 ordered cards in two halves
    and takes 153 cards from the right half, then the whole left half, the
    last three cards of the right half staying on top; the other fourteen
    shuffles cut at the end and change nothing.  The shoe [Deck()] then has,
    from the top, the queen and the jack of clubs of the last deck (the king
    is burned), then the king, queen, jack, ten and nine of clubs of the third
    deck. *)
Definition tape_split : Rng.t := [0; 1] ++ repeat 9007199254740991 153.

Definition world_split : World Q :=
  let (d, g) := Deck.init tape_split in mkWorld d g acct100 [].

(** The lines typed in the round: a bet of 10, split, enter, stand on the
    first hand, enter, hit on the second hand. *)
Definition inputs_split : list string := ["10"; "l"; ""; "s"; ""; "h"].

(** A generator whose first shuffle cuts in two halves and takes 11 cards
    from the right half and then the whole left half, and whose second
    shuffle cuts in two halves again and takes the right half first: the two
    of clubs of the third deck comes on top and is burned, and under it lie
    the ace of clubs, the king, the queen and the jack of diamonds. *)
Definition tape_blackjack : Rng.t :=
  [0; 1] ++ repeat 9007199254740991 11 ++ repeat 0 156
         ++ [1] ++ repeat 9007199254740991 156.

Definition world_blackjack : World Q :=
  let (d, g) := Deck.init tape_blackjack in mkWorld d g acct100 [].

(** The last [n] things written. *)
Definition last_out (n : nat) (w : World Q) : list (Out Q) :=
  skipn (length (stdout w) - n) (stdout w).

(** ** Hands: what the value of a hand should be *)

(** The hand after [add_card] of each card of [cs] in turn, from [Hand()]. *)
Definition hand_of (cs : list Card.t) : Hand.t := fold_left Hand.add_card cs Hand.init.

(** Every total of the cards [cs], each ace counted as 1 or as 11. *)
Fixpoint totals (cs : list Card.t) : list Z :=
  match cs with
  | [] => [0]
  | c :: r =>
      if Card.is_ace (Card.rank c)
      then map (Z.add 1) (totals r) ++ map (Z.add 11) (totals r)
      else map (Z.add (Card.value c)) (totals r)
  end.

(** The best of a list of totals: the greatest one that is at most 21, or
    the least one when all exceed 21. *)
Definition best (ts : list Z) : Z :=
  match filter (fun t => t <=? 21) ts with
  | [] => fold_right Z.min (hd 0 ts) ts
  | t :: ok => fold_right Z.max t ok
  end.

Definition best_total (cs : list Card.t) : Z := best (totals cs).

(** The total with every ace counted as 1, and the number of aces. *)
Definition hard_value (c : Card.t) : Z :=
  if Card.is_ace (Card.rank c) then 1 else Card.value c.

Definition hard_total (cs : list Card.t) : Z :=
  fold_right (fun c t => hard_value c + t) 0 cs.

Definition count_aces (cs : list Card.t) : nat :=
  length (filter (fun c => Card.is_ace (Card.rank c)) cs).

(** ** The dealer: what a run of the dealer should be *)

Section DealerRule.
Context {F : Type} {num : Number F}.

(** The shoe and the generator of a state of the program. *)
Definition shoe (w : World F) : Deck.t * Rng.t := (deck w, rng w).

(** The hand after the cards [drawn] are added to [d] in turn. *)
Definition add_cards (d : Hand.t) (drawn : list Card.t) : Hand.t :=
  fold_left Hand.add_card drawn d.

(** What is said of a run of the dealer from hand [d] and state [w] that ends
    with hand [d'] in state [w']: the cards [drawn] were popped from the shoe
    and added in turn, each of them when the value was under 17, and the
    value is 17 or more at the end. *)
Definition dealer_rule (d d' : Hand.t) (w w' : World F) (drawn : list Card.t) : Prop :=
  d' = add_cards d drawn /\
  (forall k, (k < length drawn)%nat -> Hand.value (add_cards d (firstn k drawn)) < 17) /\
  17 <= Hand.value d' /\
  (drawn = [] <-> 17 <= Hand.value d) /\
  shoe w' = after_draws (length drawn) (shoe w).

End DealerRule.

(** ** The counter of hands played *)

Section Counter.
Context {F : Type} {num : Number F}.

Definition played (w : World F) : Z := Account.games_played (account w).

(** Code that leaves the counter as it is, in every run, failed or not. *)
Definition account_keeps {A : Type} (f : Account.t F -> Account.t F * A) : Prop :=
  forall a, Account.games_played (fst (f a)) = Account.games_played a.

Definition W_keeps {A : Type} (m : W F A) : Prop :=
  forall w, played (fst (m w)) = played w.

Definition IO_keeps {A : Type} (m : IO F A) : Prop :=
  forall ins w, played (snd (fst (m ins w))) = played w.

(** A run [m] from [ins] and [w] either leaves the counter as it is, or is
    a run of [split] from a state with the same counter and adds one. *)
Definition keeps_or_splits (m : IO F unit) : Prop :=
  forall ins w,
    played (snd (fst (m ins w))) = played w \/
    exists hand dealer_hand bet ins1 w1,
      played w1 = played w /\
      m ins w = split hand dealer_hand bet ins1 w1 /\
      played (snd (fst (m ins w))) = played w + 1.

End Counter.

(** ** Riffles *)

(** [Interleaved l r m]: the list [m] is made of the elements of [l] and of
    [r], each of the two in its own order. *)
Inductive Interleaved {A : Type} : list A -> list A -> list A -> Prop :=
| il_left_done (r : list A) : Interleaved [] r r
| il_right_done (l : list A) : Interleaved l [] l
| il_from_left (x : A) (l r m : list A) :
    Interleaved l r m -> Interleaved (x :: l) r (x :: m)
| il_from_right (x : A) (l r m : list A) :
    Interleaved l r m -> Interleaved l (x :: r) (x :: m).

(** ** The player's draws: what a run of [hit] should be *)


(** ** Relations kept between the account before and after *)

Section AccountRelations.
Context {F : Type} {num : Number F}.
Variable R : Account.t F -> Account.t F -> Prop.

(** Code every run of which, failed or not, leaves an account related by [R]
    to the one it found. *)
Definition account_rel {A : Type} (f : Account.t F -> Account.t F * A) : Prop :=
  forall a, R a (fst (f a)).

Definition W_rel {A : Type} (m : W F A) : Prop :=
  forall w, R (account w) (account (fst (m w))).

Definition IO_rel {A : Type} (m : IO F A) : Prop :=
  forall ins w, R (account w) (account (snd (fst (m ins w)))).

End AccountRelations.

(** ** Hands won against hands played *)

Section WonAndPlayed.
Context {F : Type} {num : Number F}.

(** The hands played that were not won. *)
Definition not_won (a : Account.t F) : Z :=
  Account.games_played a - Account.games_won a.

(** The hands not won do not go down. *)
Definition same_or_more_not_won (a a' : Account.t F) : Prop :=
  not_won a <= not_won a'.

(** Code every run of which takes at most [k] off the hands not won. *)
Definition IO_costs {A : Type} (k : Z) (m : IO F A) : Prop :=
  forall ins w, not_won (account w) - k <= not_won (account (snd (fst (m ins w)))).

End WonAndPlayed.

(** ** A balance that is not negative *)

Section NonNegative.
Context {F : Type} {num : Number F}.

Definition nonneg (x : F) : Prop := fge x (fint 0) = true.

Definition balance_stays_nonneg (a a' : Account.t F) : Prop :=
  nonneg (Account.balance a) -> nonneg (Account.balance a').

End NonNegative.

(** ** The display of cards and hands *)

(** Python text as the list of its code points, so that [len] and the
    padding of the display count characters as Python does. *)
Module Display.

Definition text : Type := list N.

Definition NL : N := 10.
Definition SP : N := 32.

(** The characters of the card art: the corners and edges of the box
    (U+250C, U+2500, U+2510, U+2502, U+2514, U+2518) and the ASCII bar. *)
Definition top_left : N := 9484.
Definition across : N := 9472.
Definition top_right : N := 9488.
Definition upright : N := 9474.
Definition bottom_left : N := 9492.
Definition bottom_right : N := 9496.
Definition bar_ascii : N := 124.

(** The suit strings, one character each (U+2660, U+2665, U+2666, U+2663). *)
Definition suit_text (s : Suit) : text :=
  match s with
  | Spades => [9824%N]
  | Hearts => [9829%N]
  | Diamonds => [9830%N]
  | Clubs => [9827%N]
  end.

(** The rank strings "A", "2", .., "10", "J", "Q", "K". *)
Definition rank_text (r : Rank) : text :=
  match r with
  | RA => [65%N]
  | R2 => [50%N] | R3 => [51%N] | R4 => [52%N] | R5 => [53%N] | R6 => [54%N]
  | R7 => [55%N] | R8 => [56%N] | R9 => [57%N]
  | R10 => [49%N; 48%N]
  | RJ => [74%N] | RQ => [81%N] | RK => [75%N]
  end.

Definition spaces (n : nat) : text := repeat SP n.

(** [Card.__str__]: the two f-strings, which differ in the padding of the
    rank only. *)
Definition card_str (c : Card.t) : text :=
  let rank := rank_text (Card.rank c) in
  let suit := suit_text (Card.suit c) in
  let pad := match Card.rank c with R10 => 9%nat | _ => 10%nat end in
  [NL] ++ [top_left] ++ repeat across 11 ++ [top_right] ++ [NL]
  ++ [upright] ++ rank ++ spaces pad ++ [upright] ++ [NL]
  ++ [upright] ++ spaces 11 ++ [upright] ++ [NL]
  ++ [bar_ascii] ++ spaces 11 ++ [bar_ascii] ++ [NL]
  ++ [upright] ++ spaces 5 ++ suit ++ spaces 5 ++ [upright] ++ [NL]
  ++ [upright] ++ spaces 11 ++ [upright] ++ [NL]
  ++ [upright] ++ spaces 11 ++ [upright] ++ [NL]
  ++ [upright] ++ spaces pad ++ rank ++ [upright] ++ [NL]
  ++ [bottom_left] ++ repeat across 11 ++ [bottom_right].

(** The characters that [str.strip] and [str.rstrip] remove. *)
Definition is_space (ch : N) : bool :=
  ((9 <=? ch) && (ch <=? 13) || (28 <=? ch) && (ch <=? 32)
   || (ch =? 133) || (ch =? 160) || (ch =? 5760)
   || (8192 <=? ch) && (ch <=? 8202) || (ch =? 8232) || (ch =? 8233)
   || (ch =? 8239) || (ch =? 8287) || (ch =? 12288))%N.

Fixpoint lstrip (s : text) : text :=
  match s with
  | [] => []
  | ch :: r => if is_space ch then lstrip r else s
  end.

Definition rstrip (s : text) : text := rev (lstrip (rev s)).

Definition strip (s : text) : text := rstrip (lstrip s).

(** [s.split("\n")] *)
Fixpoint split_lines (s : text) : list text :=
  match s with
  | [] => [[]]
  | ch :: r =>
      if (ch =? NL)%N then [] :: split_lines r
      else match split_lines r with
           | [] => [[ch]]
           | l :: ls => (ch :: l) :: ls
           end
  end.

(** ["\n".join(lines)] *)
Fixpoint join_lines (lines : list text) : text :=
  match lines with
  | [] => []
  | [l] => l
  | l :: ls => l ++ [NL] ++ join_lines ls
  end.

(** [Card.get_lines] *)
Definition get_lines (c : Card.t) : list text := split_lines (strip (card_str c)).

(** One turn of the outer loop of [Hand.__str__]: the line [line_num] of
    every card, or 13 spaces for a card without that line, each followed by
    two spaces, and the whole stripped on the right. *)
Definition hand_line (all_lines : list (list text)) (line_num : nat) : text :=
  rstrip
    (fold_left
       (fun line card_lines =>
          (line ++ (if (line_num <? length card_lines)%nat
                    then nth line_num card_lines []
                    else spaces 13))
          ++ [SP; SP])
       all_lines []).

(** [Hand.__str__]: [None] for a hand without cards. *)
Definition hand_str (h : Hand.t) : option text :=
  match Hand.cards h with
  | [] => None
  | _ :: _ =>
      let all_lines := map get_lines (Hand.cards h) in
      let max_lines := fold_right Nat.max 0%nat (map (@length text) all_lines) in
      let result_lines := map (hand_line all_lines) (seq 0 max_lines) in
      Some (join_lines result_lines)
  end.

(** A line of card art: 13 characters, the last one not a space, none of
    them a line break. *)
Definition card_line (l : text) : bool :=
  (length l =? 13)%nat && negb (is_space (last l SP))
  && forallb (fun ch => negb (ch =? NL)%N) l.

End Display.

(** ** Counting the draws of a run *)

Section Draws.
Context {F : Type} {num : Number F}.

(** Code every run of which, failed or not, calls [draw_card] at most [k]
    times and does nothing else to the shoe and the generator. *)
Definition W_draws {A : Type} (k : nat) (m : W F A) : Prop :=
  forall w, exists j, (j <= k)%nat /\ shoe (fst (m w)) = after_draws j (shoe w).

Definition IO_draws {A : Type} (k : nat) (m : IO F A) : Prop :=
  forall ins w,
    exists j, (j <= k)%nat /\ shoe (snd (fst (m ins w))) = after_draws j (shoe w).

End Draws.

(** ** How a run can fail *)

Section Failures.
Context {F : Type} {num : Number F}.

(** The shuffle point is a fraction of the shoe. *)
Definition shuffle_point_ok (w : World F) : Prop :=
  Deck.shuffle_point (deck w) <= 100.

(** The two ways a round is let to fail: [input] finds no line left, or an
    unbound local is read. *)
Definition expected_failure (left : list string) (e : exn) : Prop :=
  (e = EOFError /\ left = []) \/ e = UnboundLocalError.

(** Code that returns a value in [Q] and keeps the shuffle point a
    fraction. *)
Definition W_safe {A : Type} (Q : A -> Prop) (m : W F A) : Prop :=
  forall w, shuffle_point_ok w ->
    shuffle_point_ok (fst (m w)) /\ exists a, snd (m w) = Ok a /\ Q a.

(** Code that returns a value in [Q] or fails in an expected way. *)
Definition IO_safe {A : Type} (Q : A -> Prop) (m : IO F A) : Prop :=
  forall ins w, shuffle_point_ok w ->
    shuffle_point_ok (snd (fst (m ins w))) /\
    match snd (m ins w) with
    | Ok a => Q a
    | Raise e => expected_failure (fst (fst (m ins w))) e
    end.

Definition any {A : Type} (a : A) : Prop := True.

Definition holds_cards (h : Hand.t) : Prop := Hand.cards h <> [].

End Failures.

(** * Properties *)

(** ** The shoe *)

Lemma pop_snoc {A : Type} (l : list A) (x : A) : pop (l ++ [x]) = Some (l, x).
Proof.
  induction l as [|y l IH]; simpl.
  - reflexivity.
  - rewrite IH. reflexivity.
Qed.

Lemma pop_None {A : Type} (l : list A) : pop l = None -> l = [].
Proof.
  destruct l as [|x r]; simpl; [reflexivity|].
  destruct (pop r) as [[r' y]|]; discriminate.
Qed.

Lemma pop_Some {A : Type} (l r : list A) (x : A) :
  pop l = Some (r, x) -> l = r ++ [x].
Proof.
  revert r; induction l as [|y l IH]; simpl; intros r H; [discriminate|].
  destruct (pop l) as [[r' z]|] eqn:E.
  - inversion H; subst. simpl. f_equal. apply IH. reflexivity.
  - inversion H; subst. apply pop_None in E. subst. reflexivity.
Qed.

Lemma interleave_nil_l (right acc : list Card.t) (g : Rng.t) :
  Deck.interleave [] right acc g = (acc ++ right, g).
Proof. destruct right; reflexivity. Qed.

Lemma interleave_nil_r (left acc : list Card.t) (g : Rng.t) :
  Deck.interleave left [] acc g = (acc ++ left ++ [], g).
Proof. destruct left; reflexivity. Qed.

(** One turn of the loop when both piles hold a card. *)
Lemma interleave_cons (l r : Card.t) (left right acc : list Card.t) (g : Rng.t) :
  Deck.interleave (l :: left) (r :: right) acc g =
  let prob_left :=
    if (length (r :: right) <? length (l :: left))%nat then prob_0_6
    else if (length (l :: left) <? length (r :: right))%nat then prob_0_4
    else prob_0_5 in
  let (u, g') := Rng.random g in
  if u <? prob_left
  then Deck.interleave left (r :: right) (acc ++ [l]) g'
  else Deck.interleave (l :: left) right (acc ++ [r]) g'.
Proof. reflexivity. Qed.

Lemma interleave_perm (left right acc : list Card.t) (g : Rng.t) :
  Permutation (acc ++ left ++ right) (fst (Deck.interleave left right acc g)).
Proof.
  revert right acc g.
  induction left as [|l left IHl]; intros right acc g.
  - rewrite interleave_nil_l. reflexivity.
  - revert acc g. induction right as [|r right IHr]; intros acc g.
    + rewrite interleave_nil_r. reflexivity.
    + rewrite interleave_cons. cbv zeta.
      destruct (Rng.random g) as [u g'].
      destruct (u <? _).
      * rewrite <- IHl, <- app_assoc. reflexivity.
      * rewrite <- IHr, <- app_assoc. simpl.
        apply Permutation_app_head.
        change (l :: left ++ r :: right) with ((l :: left) ++ r :: right).
        rewrite <- (Permutation_middle (l :: left) right r). reflexivity.
Qed.

Lemma shuffle_deck_perm (d : Deck.t) (g : Rng.t) :
  Permutation (Deck.cards d) (Deck.cards (fst (Deck.shuffle_deck (d, g)))).
Proof.
  unfold Deck.shuffle_deck.
  destruct (Rng.randint (-1) 3 g) as [r g1].
  set (cut := Z.to_nat _).
  pose proof (interleave_perm (firstn cut (Deck.cards d))
                (skipn cut (Deck.cards d)) [] g1) as P.
  destruct (Deck.interleave _ _ _ _) as [shuffled g2].
  simpl in *. rewrite firstn_skipn in P. exact P.
Qed.

Lemma shuffle_deck_point (d : Deck.t) (g : Rng.t) :
  Deck.shuffle_point (fst (Deck.shuffle_deck (d, g))) = Deck.shuffle_point d.
Proof.
  unfold Deck.shuffle_deck.
  destruct (Rng.randint (-1) 3 g) as [r g1].
  destruct (Deck.interleave _ _ _ _) as [shuffled g2]. reflexivity.
Qed.

(** C10: one application of [shuffle_deck] returns a permutation of the cards
    it was given, whatever the random generator produces: the length and the
    number of copies of every card are preserved. *)
Theorem shuffle_deck_permutation (d : Deck.t) (g : Rng.t) :
  let d' := fst (Deck.shuffle_deck (d, g)) in
  Permutation (Deck.cards d) (Deck.cards d') /\
  length (Deck.cards d') = length (Deck.cards d) /\
  forall c : Card.t,
    count_occ Card_eq_dec (Deck.cards d') c = count_occ Card_eq_dec (Deck.cards d) c.
Proof.
  intros d'. pose proof (shuffle_deck_perm d g) as P. fold d' in P.
  split; [exact P|]. split.
  - symmetry. apply Permutation_length. exact P.
  - intros c. symmetry. apply Permutation_count_occ. exact P.
Qed.

Lemma iter_shuffle_perm (n : nat) (d : Deck.t) (g : Rng.t) :
  Permutation (Deck.cards d) (Deck.cards (fst (iter n Deck.shuffle_deck (d, g)))) /\
  Deck.shuffle_point (fst (iter n Deck.shuffle_deck (d, g))) = Deck.shuffle_point d.
Proof.
  revert d g. induction n as [|n IH]; intros d g; cbn [iter].
  - split; reflexivity.
  - pose proof (shuffle_deck_perm d g) as P1.
    pose proof (shuffle_deck_point d g) as S1.
    destruct (Deck.shuffle_deck (d, g)) as [d1 g1].
    destruct (IH d1 g1) as [P S]. cbn [fst] in P1, S1.
    split; [rewrite P1; exact P | rewrite S; exact S1].
Qed.

Lemma ordered_decks_length : length Deck.ordered_decks = 312%nat.
Proof. reflexivity. Qed.

Lemma uniform_range (g : Rng.t) :
  60 <= fst (Rng.uniform_060_085_round2 g) <= 85.
Proof.
  unfold Rng.uniform_060_085_round2. destruct (Rng.next g) as [x g']. cbn [fst].
  assert (0 <= x mod 26 < 26) by (apply Z.mod_pos_bound; lia). lia.
Qed.

(** What [reset_deck] leaves: the cards that were there are kept, 312 are
    added and one is burned; the shuffle point is one of 0.60 .. 0.85. *)
Lemma reset_deck_spec (d : Deck.t) (g : Rng.t) :
  length (Deck.cards (fst (Deck.reset_deck d g))) = (length (Deck.cards d) + 311)%nat /\
  60 <= Deck.shuffle_point (fst (Deck.reset_deck d g)) <= 85.
Proof.
  unfold Deck.reset_deck.
  pose proof (uniform_range g) as R.
  destruct (Rng.uniform_060_085_round2 g) as [sp g1]. cbn [fst] in R.
  pose proof (iter_shuffle_perm 15 (Deck.mk (Deck.cards d ++ Deck.ordered_decks) sp) g1)
    as [P S].
  destruct (iter 15 Deck.shuffle_deck _) as [d2 g2].
  cbn [fst Deck.cards Deck.shuffle_point] in *.
  apply Permutation_length in P. rewrite length_app, ordered_decks_length in P.
  split; [|lia].
  destruct (Deck.cards d2) as [|c l] eqn:E using rev_ind.
  - simpl in P. lia.
  - rewrite removelast_last. rewrite length_app in P. simpl in P. lia.
Qed.

(** [Deck()] holds 311 cards. *)
Lemma init_length (g : Rng.t) : length (Deck.cards (fst (Deck.init g))) = 311%nat.
Proof. unfold Deck.init. apply (reset_deck_spec (Deck.mk [] 100) g). Qed.

Lemma pop_defined {A : Type} (l : list A) :
  (0 < length l)%nat -> exists r x, pop l = Some (r, x) /\ length l = S (length r).
Proof.
  intros H. destruct (pop l) as [[r x]|] eqn:E.
  - exists r, x. split; [reflexivity|].
    apply pop_Some in E. subst. rewrite length_app. simpl. lia.
  - apply pop_None in E. subst. simpl in H. lia.
Qed.

(** A draw from a shoe whose shuffle point is at most 1 pops a card; the cards
    left are one fewer than before the pop, and the shuffle point is the old
    one or a fresh one of 0.60 .. 0.85. *)
Lemma draw_card_defined (d : Deck.t) (g : Rng.t) :
  Deck.shuffle_point d <= 100 ->
  exists c, snd (Deck.draw_card d g) = Ok c /\
    let d' := fst (after_draw (d, g)) in
    (Deck.shuffle_point d <= 85 -> (46 <= length (Deck.cards d'))%nat) /\
    (Deck.shuffle_point d' = Deck.shuffle_point d \/ 60 <= Deck.shuffle_point d' <= 85).
Proof.
  intros Hsp. unfold after_draw, Deck.draw_card. cbn [fst snd].
  destruct (Deck.needs_shuffle d) eqn:N.
  - pose proof (reset_deck_spec d g) as [L R].
    destruct (Deck.reset_deck d g) as [d1 g1]. cbn [fst] in L, R.
    destruct (@pop_defined _ (Deck.cards d1)) as (r & c & E & Len); [lia|].
    rewrite E. cbn. exists c. split; [reflexivity|].
    split; [intros _; lia | right; exact R].
  - unfold Deck.needs_shuffle, Deck.num_decks in N. apply Z.leb_gt in N.
    destruct (@pop_defined _ (Deck.cards d)) as (r & c & E & Len); [lia|].
    rewrite E. cbn. exists c. split; [reflexivity|].
    split; [intros H; lia | left; reflexivity].
Qed.

Lemma reachable_inv (d : Deck.t) :
  reachable d ->
  60 <= Deck.shuffle_point d <= 85 /\ (46 <= length (Deck.cards d))%nat.
Proof.
  induction 1 as [g | d g R [IHs IHl]].
  - pose proof (reset_deck_spec (Deck.mk [] 100) g) as [L S].
    unfold Deck.init. lia.
  - destruct (@draw_card_defined d g) as (c & _ & Hl & Hs); [lia|].
    cbv zeta in Hl, Hs. split; [lia|]. apply Hl. lia.
Qed.

Lemma reachable_after_draws (n : nat) (dg : Deck.t * Rng.t) :
  reachable (fst dg) -> reachable (fst (after_draws n dg)).
Proof.
  unfold after_draws. revert dg. induction n as [|n IH]; intros [d g] R; cbn [iter].
  - exact R.
  - apply IH. apply reach_draw. exact R.
Qed.

(** C9: [draw_card] never fails.  In every reachable shoe the shuffle point
    is one of 0.60 .. 0.85, so the threshold 312 * (1 - shuffle_point) is
    positive, the shoe is not empty, and for every state of the random
    generator the draw pops a card. *)
Theorem draw_card_never_fails (d : Deck.t) :
  reachable d ->
  60 <= Deck.shuffle_point d <= 85 /\
  0 < Deck.num_decks * 52 * (100 - Deck.shuffle_point d) /\
  (0 < length (Deck.cards d))%nat /\
  forall g : Rng.t, exists c : Card.t, snd (Deck.draw_card d g) = Ok c.
Proof.
  intros R. destruct (reachable_inv R) as [Hs Hl].
  split; [exact Hs|]. split; [unfold Deck.num_decks; lia|]. split; [lia|].
  intros g. destruct (@draw_card_defined d g) as (c & E & _); [lia|].
  exists c. exact E.
Qed.

Lemma draw_card_never_fails_witness :
  reachable (fst shoe0) /\
  60 <= Deck.shuffle_point (fst shoe0) <= 85 /\
  0 < Deck.num_decks * 52 * (100 - Deck.shuffle_point (fst shoe0)) /\
  (0 < length (Deck.cards (fst shoe0)))%nat /\
  forall g : Rng.t, exists c : Card.t, snd (Deck.draw_card (fst shoe0) g) = Ok c.
Proof.
  split; [apply reach_init|].
  apply (@draw_card_never_fails (fst shoe0)). apply reach_init.
Defined.

(** C1 (the code departs from it): [Deck()] holds 311 cards, but a reshuffle
    keeps the cards that remain: [reset_deck] leaves 311 cards more than it
    found, which after a draw from a reachable shoe is 357 cards or more.
    From [Deck()] with a generator that produces zeros, 187 draws leave 124
    cards; the next draw reshuffles and the shoe then holds
    124 + 312 - 1 = 435 cards, 434 once the drawn card is removed. *)
Theorem reshuffle_keeps_remaining_cards :
  (forall g, length (Deck.cards (fst (Deck.init g))) = 311%nat) /\
  (forall d g,
      length (Deck.cards (fst (Deck.reset_deck d g))) = (length (Deck.cards d) + 311)%nat) /\
  (forall d g,
      reachable d -> (357 <= length (Deck.cards (fst (Deck.reset_deck d g))))%nat) /\
  reachable (fst shoe0_low) /\
  Deck.shuffle_point (fst shoe0_low) = 60 /\
  length (Deck.cards (fst shoe0_low)) = 124%nat /\
  Deck.needs_shuffle (fst shoe0_low) = true /\
  length (Deck.cards (fst (Deck.reset_deck (fst shoe0_low) (snd shoe0_low)))) = 435%nat /\
  fst (fst (Deck.draw_card (fst shoe0_low) (snd shoe0_low))) = ["Shuffling deck..."] /\
  length (Deck.cards (fst (after_draw shoe0_low))) = 434%nat.
Proof.
  split; [exact init_length|].
  split; [intros d g; apply reset_deck_spec|].
  split.
  { intros d g R. destruct (reachable_inv R) as [_ L].
    destruct (reset_deck_spec d g) as [E _]. lia. }
  split; [apply reachable_after_draws; apply reach_init|].
  vm_compute. repeat split.
Qed.

(** ** Hands *)

Lemma card_value_pos (c : Card.t) : 2 <= Card.value c <= 11.
Proof. destruct c as [s []]; cbv; split; discriminate. Qed.

Lemma hard_value_pos (c : Card.t) : 1 <= hard_value c <= 10.
Proof. destruct c as [s []]; cbv; split; discriminate. Qed.

Lemma hard_total_app (cs : list Card.t) (c : Card.t) :
  hard_total (cs ++ [c]) = hard_total cs + hard_value c.
Proof.
  unfold hard_total. induction cs as [|x cs IH]; simpl; [lia|].
  rewrite IH. lia.
Qed.

Lemma count_aces_app (cs : list Card.t) (c : Card.t) :
  count_aces (cs ++ [c]) =
  (count_aces cs + if Card.is_ace (Card.rank c) then 1 else 0)%nat.
Proof.
  unfold count_aces. rewrite filter_app, length_app. simpl.
  destruct (Card.is_ace (Card.rank c)); reflexivity.
Qed.

(** The totals of [cs] are the hard total plus ten for each ace counted
    as 11. *)
Lemma totals_char (cs : list Card.t) (t : Z) :
  In t (totals cs) <->
  exists j, 0 <= j <= Z.of_nat (count_aces cs) /\ t = hard_total cs + 10 * j.
Proof.
  revert t. induction cs as [|c cs IH]; intros t.
  - change (totals []) with [0]. change (count_aces []) with 0%nat.
    change (hard_total []) with 0. split.
    + intros [<-|[]]. exists 0. lia.
    + intros (j & Hj & ->). left. lia.
  - assert (hard_total (c :: cs) = hard_value c + hard_total cs) as HT
      by reflexivity.
    assert (count_aces (c :: cs) =
            if Card.is_ace (Card.rank c) then S (count_aces cs) else count_aces cs)
      as CA by (unfold count_aces; cbn [filter];
                destruct (Card.is_ace (Card.rank c)); reflexivity).
    cbn [totals]. rewrite HT, CA. unfold hard_value. clear HT CA.
    destruct (Card.is_ace (Card.rank c)) eqn:A.
    + rewrite in_app_iff, !in_map_iff. split.
      * intros [(u & <- & Hu)|(u & <- & Hu)]; apply IH in Hu;
          destruct Hu as (j & Hj & ->).
        -- exists j. lia.
        -- exists (j + 1). lia.
      * intros (j & Hj & ->).
        destruct (Z.eq_dec j (Z.of_nat (S (count_aces cs)))) as [E|E].
        -- right. exists (hard_total cs + 10 * (j - 1)). split; [lia|].
           apply IH. exists (j - 1). lia.
        -- left. exists (hard_total cs + 10 * j). split; [lia|].
           apply IH. exists j. lia.
    + rewrite in_map_iff. split.
      * intros (u & <- & Hu). apply IH in Hu. destruct Hu as (j & Hj & ->).
        exists j. lia.
      * intros (j & Hj & ->). exists (hard_total cs + 10 * j). split; [lia|].
        apply IH. exists j. lia.
Qed.

(** [ace_adjustment] demotes [k] aces; it stops at 21 or less or without
    aces, and demotes only from a value over 21. *)
Lemma ace_adjustment_spec (aces : nat) (value : Z) :
  exists k : nat,
    (k <= aces)%nat /\
    Hand.ace_adjustment value aces = (value - 10 * Z.of_nat k, (aces - k)%nat) /\
    (21 < value - 10 * Z.of_nat k -> (aces - k)%nat = 0%nat) /\
    ((0 < k)%nat -> 21 < value - 10 * Z.of_nat k + 10).
Proof.
  revert value. induction aces as [|a IH]; intros value.
  - exists 0%nat. cbn [Hand.ace_adjustment]. repeat split; try lia.
    f_equal; lia.
  - cbn [Hand.ace_adjustment]. destruct (21 <? value) eqn:E.
    + apply Z.ltb_lt in E.
      destruct (IH (value - 10)) as (k & Hk & Eq & Stop & Last).
      exists (S k). rewrite Eq. repeat split; try lia.
      f_equal; lia.
    + apply Z.ltb_ge in E. exists 0%nat. repeat split; try lia.
      f_equal; lia.
Qed.

(** The state of a hand built by [add_card]: the value is the hard total
    plus ten per ace still counted as 11; an ace has been demoted only if
    counting one more as 11 would exceed 21; over 21 no ace counts as 11. *)
Lemma hand_of_inv (cs : list Card.t) :
  let h := hand_of cs in
  Hand.cards h = cs /\
  Hand.value h = hard_total cs + 10 * Z.of_nat (Hand.aces h) /\
  (Hand.aces h <= count_aces cs)%nat /\
  ((Hand.aces h < count_aces cs)%nat ->
   21 < hard_total cs + 10 * (Z.of_nat (Hand.aces h) + 1)) /\
  (21 < Hand.value h -> Hand.aces h = 0%nat).
Proof.
  unfold hand_of. induction cs as [|c cs IH] using rev_ind.
  - cbn. repeat split; try lia.
  - rewrite fold_left_app. cbn [fold_left].
    destruct IH as (Hc & Hv & Ha & Hd & Hb).
    set (h := fold_left Hand.add_card cs Hand.init) in *.
    unfold Hand.add_card.
    rewrite hard_total_app, count_aces_app. unfold hard_value.
    pose proof (card_value_pos c) as Vc.
    destruct (Card.is_ace (Card.rank c)) eqn:A.
    + assert (Card.value c = 11) as V11.
      { destruct c as [s r]; destruct r; try discriminate A; reflexivity. }
      destruct (ace_adjustment_spec (S (Hand.aces h)) (Hand.value h + Card.value c))
        as (k & Hk & Eq & Stop & Last).
      rewrite Eq. cbn [Hand.cards Hand.value Hand.aces].
      repeat split; try lia. congruence.
    + destruct (ace_adjustment_spec (Hand.aces h) (Hand.value h + Card.value c))
        as (k & Hk & Eq & Stop & Last).
      rewrite Eq. cbn [Hand.cards Hand.value Hand.aces].
      repeat split; try lia. congruence.
Qed.

Lemma fold_max_spec (t : Z) (ok : list Z) :
  In (fold_right Z.max t ok) (t :: ok) /\
  forall x, In x (t :: ok) -> x <= fold_right Z.max t ok.
Proof.
  induction ok as [|y ok [IHin IHle]]; cbn [fold_right].
  - split; [left; reflexivity|]. intros x [<-|[]]. lia.
  - split.
    + destruct (Z.max_spec y (fold_right Z.max t ok)) as [[_ ->]|[_ ->]].
      * destruct IHin as [<-|H]; [left; reflexivity | right; right; exact H].
      * right; left; reflexivity.
    + intros x [<-|[<-|H]].
      * specialize (IHle t (or_introl eq_refl)). lia.
      * lia.
      * specialize (IHle x (or_intror H)). lia.
Qed.

Lemma fold_min_spec (d : Z) (ts : list Z) :
  In (fold_right Z.min d ts) (d :: ts) /\
  forall x, In x (d :: ts) -> fold_right Z.min d ts <= x.
Proof.
  induction ts as [|y ts [IHin IHle]]; cbn [fold_right].
  - split; [left; reflexivity|]. intros x [<-|[]]. lia.
  - split.
    + destruct (Z.min_spec y (fold_right Z.min d ts)) as [[_ ->]|[_ ->]].
      * right; left; reflexivity.
      * destruct IHin as [<-|H]; [left; reflexivity | right; right; exact H].
    + intros x [<-|[<-|H]].
      * specialize (IHle d (or_introl eq_refl)). lia.
      * lia.
      * specialize (IHle x (or_intror H)). lia.
Qed.

(** [best] picks the greatest total that is at most 21 when there is one. *)
Lemma best_within (ts : list Z) (v : Z) :
  In v ts -> v <= 21 -> (forall t, In t ts -> t <= 21 -> t <= v) -> best ts = v.
Proof.
  intros Hin Hv Hmax. unfold best.
  assert (In v (filter (fun t => t <=? 21) ts)) as Hf
    by (apply filter_In; split; [exact Hin | apply Z.leb_le; exact Hv]).
  destruct (filter (fun t => t <=? 21) ts) as [|t ok] eqn:E; [destruct Hf|].
  destruct (fold_max_spec t ok) as [Min Mle].
  rewrite <- E in Min, Mle, Hf.
  apply filter_In in Min. destruct Min as [Min M21]. apply Z.leb_le in M21.
  specialize (Mle v Hf). specialize (Hmax _ Min M21). lia.
Qed.

(** [best] picks the least total when all exceed 21. *)
Lemma best_bust (ts : list Z) (v : Z) :
  In v ts -> (forall t, In t ts -> 21 < t) -> (forall t, In t ts -> v <= t) ->
  best ts = v.
Proof.
  intros Hin Hall Hmin. unfold best.
  destruct (filter (fun t => t <=? 21) ts) as [|t ok] eqn:E.
  - destruct ts as [|d ts]; [destruct Hin|]. cbn [hd].
    destruct (fold_min_spec d (d :: ts)) as [Min Mle].
    assert (In (fold_right Z.min d (d :: ts)) (d :: ts)) as Min'
      by (destruct Min as [<-|H]; [left; reflexivity | exact H]).
    specialize (Mle v (or_intror Hin)). specialize (Hmin _ Min'). lia.
  - assert (In t (filter (fun t => t <=? 21) ts)) as Hf
      by (rewrite E; left; reflexivity).
    apply filter_In in Hf. destruct Hf as [Hf H21]. apply Z.leb_le in H21.
    specialize (Hall _ Hf). lia.
Qed.

(** C2: for every sequence of cards added with [add_card], the value of the
    hand is the greatest total of at most 21 over the ways of counting each
    ace as 1 or 11, or, when every way exceeds 21, the least total, the one
    with every ace counted as 1. *)
Theorem hand_value_is_best_total (cs : list Card.t) :
  let v := Hand.value (hand_of cs) in
  v = best_total cs /\
  In v (totals cs) /\
  (forall t, In t (totals cs) -> t <= 21 -> v <= 21 /\ t <= v) /\
  ((forall t, In t (totals cs) -> 21 < t) ->
   v = hard_total cs /\ forall t, In t (totals cs) -> v <= t).
Proof.
  intros v. destruct (hand_of_inv cs) as (_ & Hv & Ha & Hd & Hb).
  fold v in Hv, Hb.
  assert (In v (totals cs)) as Hin
    by (apply totals_char; exists (Z.of_nat (Hand.aces (hand_of cs))); lia).
  assert (forall t, In t (totals cs) -> t <= 21 -> v <= 21 /\ t <= v) as Hmax.
  { intros t Ht H21. apply totals_char in Ht. destruct Ht as (j & Hj & ->).
    assert (v <= 21) as V by (destruct (Z.le_gt_cases v 21) as [L|G];
                              [exact L | specialize (Hb ltac:(lia)); lia]).
    split; [exact V|].
    destruct (Z.le_gt_cases j (Z.of_nat (Hand.aces (hand_of cs)))) as [L|G]; [lia|].
    assert (Hand.aces (hand_of cs) < count_aces cs)%nat as Lt by lia.
    specialize (Hd Lt). lia. }
  assert ((forall t, In t (totals cs) -> 21 < t) ->
          v = hard_total cs /\ forall t, In t (totals cs) -> v <= t) as Hmin.
  { intros Hall. specialize (Hall v Hin). specialize (Hb Hall).
    split; [lia|]. intros t Ht. apply totals_char in Ht.
    destruct Ht as (j & Hj & ->). lia. }
  split; [|split; [exact Hin | split; [exact Hmax | exact Hmin]]].
  unfold best_total. symmetry.
  destruct (Z.le_gt_cases v 21) as [L|G].
  - apply best_within; [exact Hin | exact L |].
    intros t Ht H21. apply (Hmax t Ht H21).
  - assert (forall t, In t (totals cs) -> 21 < t) as Hall.
    { intros t Ht. destruct (Z.le_gt_cases t 21) as [L|G']; [|lia].
      destruct (Hmax t Ht L). lia. }
    apply best_bust; [exact Hin | exact Hall | apply (Hmin Hall)].
Qed.

Example hand_value_soft_17 :
  Hand.value (hand_of [Card.new Spades RA; Card.new Hearts R6]) = 17 /\
  totals [Card.new Spades RA; Card.new Hearts R6] = [7; 17].
Proof. split; reflexivity. Qed.

Example hand_value_two_aces_nine :
  Hand.value (hand_of [Card.new Spades RA; Card.new Hearts R9; Card.new Clubs RA]) = 21 /\
  Hand.value (hand_of [Card.new Spades RK; Card.new Hearts R9; Card.new Clubs RA;
                       Card.new Clubs R5]) = 25.
Proof. split; reflexivity. Qed.

(** [is_blackjack] holds of the two-card hands made of an ace and a
    ten-valued card, in either order, and of no other hand. *)
Lemma is_blackjack_char (h : Hand.t) :
  Hand.is_blackjack h = true <->
  exists c1 c2,
    Hand.cards h = [c1; c2] /\
    ((Card.rank c1 = RA /\ Card.value c2 = 10) \/
     (Card.value c1 = 10 /\ Card.rank c2 = RA)).
Proof.
  unfold Hand.is_blackjack. destruct h as [cs v a]. cbn [Hand.cards].
  destruct cs as [|c1 [|c2 [|c3 cs]]]; cbn [length Nat.eqb negb].
  1, 2, 4: split; [discriminate | intros (x & y & E & _); discriminate E].
  split.
  - intros H. exists c1, c2. split; [reflexivity|].
    destruct c1 as [s1 r1], c2 as [s2 r2].
    destruct r1, r2; cbn in H; try discriminate H;
      cbn; (left; split; reflexivity) || (right; split; reflexivity).
  - intros (x & y & E & H). inversion E; subst x y. clear E.
    destruct c1 as [s1 r1], c2 as [s2 r2]. cbn in H.
    destruct H as [[-> V]|[V ->]]; destruct r1 + destruct r2;
      try discriminate V; reflexivity.
Qed.

(** ** The account and the payoff *)

Section AccountProperties.
Context {F : Type} {num : Number F}.

(** C4: [place_bet] returns [True] exactly when [balance >= amount]; it then
    debits the balance and the net earnings and adds to the amount bet, the
    counters and the deposit being kept; when it returns [False] the account
    is unchanged.  It returns in every case: called on the account of any
    state of the program it raises nothing. *)
Theorem place_bet_spec (a : Account.t F) (amount : F) :
  let a' := fst (Account.place_bet a amount) in
  let ok := snd (Account.place_bet a amount) in
  ok = fge (Account.balance a) amount /\
  (if ok then
     Account.balance a' = fsub (Account.balance a) amount /\
     Account.bet a' = fadd (Account.bet a) amount /\
     Account.net_earnings a' = fsub (Account.net_earnings a) amount /\
     Account.games_played a' = Account.games_played a /\
     Account.games_won a' = Account.games_won a /\
     Account.deposited a' = Account.deposited a /\
     Account.user a' = Account.user a
   else a' = a) /\
  forall w : World F,
    on_account (fun a => Account.place_bet a amount) w =
    (set_account (fst (Account.place_bet (account w) amount)) w,
     Ok (snd (Account.place_bet (account w) amount))).
Proof.
  unfold Account.place_bet, on_account.
  destruct (fge (Account.balance a) amount) eqn:E; cbn [fst snd].
  - repeat split. intros w.
    destruct (fge (Account.balance (account w)) amount); reflexivity.
  - repeat split. intros w.
    destruct (fge (Account.balance (account w)) amount); reflexivity.
Qed.

(** C5: [calculate_payoff] is a function of the outcome, the bet, whether
    the hand is a blackjack and whether the split flag is set.  A push credits
    the bet; a win with a blackjack and no split flag credits
    [round(2.5 * bet, 2)]; any other win credits [2 * bet]; any other
    outcome, a loss, credits nothing.  The win counter moves by one on a win
    and on nothing else. *)
Theorem calculate_payoff_spec (bet : F) (outcome : string) (a : Account.t F)
    (hand : Hand.t) (split : Z) :
  let a' := calculate_payoff bet outcome a hand split in
  (Account.balance a', Account.games_won a') =
    (if (outcome =? "push")%string then
       (fadd (Account.balance a) bet, Account.games_won a)
     else if (outcome =? "win")%string then
       if Hand.is_blackjack hand && (split =? 0) then
         (fadd (Account.balance a) (fround2 (fmul f2_5 bet)), Account.games_won a + 1)
       else (fadd (Account.balance a) (fmul (fint 2) bet), Account.games_won a + 1)
     else (Account.balance a, Account.games_won a)) /\
  (if (outcome =? "push")%string || (outcome =? "win")%string then True else a' = a) /\
  calculate_payoff bet "loss" a hand split = a /\
  (Account.games_won a' = Account.games_won a + 1 <-> outcome = "win") /\
  Account.games_played a' = Account.games_played a /\
  Account.bet a' = Account.bet a /\
  forall (hand2 : Hand.t) (split2 : Z),
    Hand.is_blackjack hand2 = Hand.is_blackjack hand ->
    (split2 =? 0) = (split =? 0) ->
    calculate_payoff bet outcome a hand2 split2 = a'.
Proof.
  unfold calculate_payoff, not_, Account.game_won.
  destruct (outcome =? "push")%string eqn:P;
    [|destruct (outcome =? "win")%string eqn:W].
  - apply String.eqb_eq in P. subst outcome. cbn [orb Account.balance Account.games_won
      Account.games_played Account.bet].
    repeat split; try reflexivity; try lia; try discriminate.
  - apply String.eqb_eq in W. subst outcome.
    destruct (Hand.is_blackjack hand && (split =? 0)) eqn:B;
      cbn [orb Account.balance Account.games_won Account.games_played Account.bet];
      repeat split; try reflexivity; try lia.
    all: intros h2 s2 -> ->; rewrite B; reflexivity.
  - apply String.eqb_neq in P. apply String.eqb_neq in W. cbn [orb].
    repeat split; try reflexivity; try lia; try congruence.
Qed.

(** The settlement of a split hand reads the flag 1: whatever the cards of
    the hand, a win credits [2 * bet]. *)
Lemma calculate_payoff_split_flag (bet : F) (outcome : string) (a : Account.t F)
    (hand : Hand.t) :
  calculate_payoff bet outcome a hand 1 = calculate_payoff bet outcome a Hand.init 1.
Proof. unfold calculate_payoff, not_. rewrite andb_false_r. reflexivity. Qed.

Lemma check_winner_split_flag (hand1 hand2 d_hand : Hand.t) (a : Account.t F) (bet : F) :
  Hand.value hand1 = Hand.value hand2 ->
  check_winner hand1 d_hand a bet 1 = check_winner hand2 d_hand a bet 1.
Proof.
  intros E. unfold check_winner. rewrite E.
  rewrite (calculate_payoff_split_flag bet "win" a hand1),
          (calculate_payoff_split_flag bet "win" a hand2),
          (calculate_payoff_split_flag bet "push" a hand1),
          (calculate_payoff_split_flag bet "push" a hand2).
  reflexivity.
Qed.

End AccountProperties.

Section BlackjackProperties.
Context {F : Type} {num : Number F}.

(** The settlement of the two hands of a split depends on their values only,
    not on their cards. *)
Lemma split_settle_by_value (p1 p2 q1 q2 d : Hand.t) (a1 a2 : option string)
    (bet : F) (ins : list string) (w : World F) :
  Hand.value p1 = Hand.value q1 ->
  Hand.value p2 = Hand.value q2 ->
  split_settle p1 p2 d a1 a2 bet ins w = split_settle q1 q2 d a1 a2 bet ins w.
Proof.
  intros E1 E2. unfold split_settle, Hand.is_bust. rewrite E1, E2.
  unfold bind, liftW, on_account, ret.
  destruct (21 <? Hand.value d), (21 <? Hand.value q1), (21 <? Hand.value q2),
    (is_D a1), (is_D a2); cbn [negb];
    repeat first
      [ reflexivity
      | rewrite (calculate_payoff_split_flag _ _ _ p1)
      | rewrite (calculate_payoff_split_flag _ _ _ p2)
      | rewrite (calculate_payoff_split_flag _ _ _ q1)
      | rewrite (calculate_payoff_split_flag _ _ _ q2)
      | rewrite (check_winner_split_flag p1 q1 d _ _ E1)
      | rewrite (check_winner_split_flag p2 q2 d _ _ E2)
      | match goal with
        | |- context [check_winner ?h ?dh ?a ?b 1] =>
            destruct (check_winner h dh a b 1)
        end
      | progress cbn -[calculate_payoff check_winner print input first_line
                       String.append] ].
Qed.

(** C6: a hand is paid as a blackjack exactly when it has two cards, an ace
    and a ten-valued card, and the split flag is not set.  [split] settles
    its two hands with the flag set: a win of such a hand credits [2 * bet]
    whatever its cards, and the settlement of a split depends on the values
    of the two hands only, so a split hand is never a blackjack. *)
Theorem blackjack_two_cards_unsplit (h : Hand.t) (split : Z) :
  (Hand.is_blackjack h && not_ split = true <->
   (exists c1 c2,
       Hand.cards h = [c1; c2] /\
       ((Card.rank c1 = RA /\ Card.value c2 = 10) \/
        (Card.value c1 = 10 /\ Card.rank c2 = RA))) /\
   split = 0) /\
  (forall (bet : F) (a : Account.t F),
      calculate_payoff bet "win" a h 1 = Account.game_won a (fmul (fint 2) bet)) /\
  (forall (p2 q1 q2 d : Hand.t) (a1 a2 : option string) (bet : F)
          (ins : list string) (w : World F),
      Hand.value h = Hand.value q1 ->
      Hand.value p2 = Hand.value q2 ->
      split_settle h p2 d a1 a2 bet ins w = split_settle q1 q2 d a1 a2 bet ins w).
Proof.
  split; [|split].
  - rewrite andb_true_iff, is_blackjack_char. unfold not_. rewrite Z.eqb_eq.
    reflexivity.
  - intros bet a. unfold calculate_payoff, not_. rewrite andb_false_r. reflexivity.
  - intros. apply split_settle_by_value; assumption.
Qed.

End BlackjackProperties.

(** ** The dealer *)

Section DealerProperties.
Context {F : Type} {num : Number F}.

Lemma draw_card_shoe (w w1 : World F) (r : result Card.t) :
  draw_card w = (w1, r) -> shoe w1 = after_draw (shoe w).
Proof.
  unfold draw_card, after_draw, shoe. cbn [fst snd].
  destruct (Deck.draw_card (deck w) (rng w)) as [[out [d g]] r0].
  intros H. inversion H. reflexivity.
Qed.

Lemma print_shoe (s : string) (w w1 : World F) (r : result unit) :
  print s w = (w1, r) -> shoe w1 = shoe w /\ account w1 = account w /\ r = Ok tt.
Proof. unfold print. intros H. inversion H. repeat split. Qed.

Lemma show_shoe (s : string) (h : Hand.t) (w w1 : World F) (r : result unit) :
  show s h w = (w1, r) -> shoe w1 = shoe w /\ account w1 = account w.
Proof.
  unfold show. destruct (Hand.cards h); intros H; inversion H; split; reflexivity.
Qed.

Lemma dealer_card_ok (hand d d1 : Hand.t) (w w1 : World F) :
  dealer_card hand d w = (w1, Ok d1) ->
  exists c, d1 = Hand.add_card d c /\ shoe w1 = after_draw (shoe w).
Proof.
  unfold dealer_card, bindW, retW.
  destruct (draw_card w) as [wa [c|e]] eqn:D; [|discriminate].
  apply draw_card_shoe in D.
  destruct (print bar wa) as [wb [[]|e]] eqn:P1; [|discriminate].
  apply print_shoe in P1. destruct P1 as (S1 & _).
  destruct (print "Dealer hits..." wb) as [wc [[]|e]] eqn:P2; [|discriminate].
  apply print_shoe in P2. destruct P2 as (S2 & _).
  destruct (show "Dealer:" (Hand.add_card d c) wc) as [wd [[]|e]] eqn:P3; [|discriminate].
  apply show_shoe in P3. destruct P3 as (S3 & _).
  destruct (show "Hand:" hand wd) as [we [[]|e]] eqn:P4; [|discriminate].
  apply show_shoe in P4. destruct P4 as (S4 & _).
  intros H. inversion H; subst. exists c. split; [reflexivity|]. congruence.
Qed.

Lemma split_dealer_card_ok (hand1 hand2 d d1 : Hand.t) (w w1 : World F) :
  split_dealer_card hand1 hand2 d w = (w1, Ok d1) ->
  exists c, d1 = Hand.add_card d c /\ shoe w1 = after_draw (shoe w).
Proof.
  unfold split_dealer_card, bindW, retW.
  destruct (draw_card w) as [wa [c|e]] eqn:D; [|discriminate].
  apply draw_card_shoe in D.
  destruct (print bar wa) as [wb [[]|e]] eqn:P1; [|discriminate].
  apply print_shoe in P1. destruct P1 as (S1 & _).
  destruct (print "Dealer hits..." wb) as [wc [[]|e]] eqn:P2; [|discriminate].
  apply print_shoe in P2. destruct P2 as (S2 & _).
  destruct (show "Dealer:" (Hand.add_card d c) wc) as [wd [[]|e]] eqn:P3; [|discriminate].
  apply show_shoe in P3. destruct P3 as (S3 & _).
  destruct (show "Hand 1:" hand1 wd) as [we [[]|e]] eqn:P4; [|discriminate].
  apply show_shoe in P4. destruct P4 as (S4 & _).
  destruct (show "Hand 2:" hand2 we) as [wf [[]|e]] eqn:P5; [|discriminate].
  apply show_shoe in P5. destruct P5 as (S5 & _).
  intros H. inversion H; subst. exists c. split; [reflexivity|]. congruence.
Qed.

(** One turn of the loop of [dealer_play], for any lines of input. *)
Lemma dealer_play_eq (hand d_hand : Hand.t) (ins : list string) (w : World F) :
  dealer_play hand d_hand ins w =
  if Hand.value d_hand <? 17 then
    match dealer_card hand d_hand w with
    | (w1, Raise e) => (ins, w1, Raise e)
    | (w1, Ok d1) =>
        if Hand.is_bust d1 then (ins, w1, Ok (false, d1))
        else if Hand.value d1 <? 17 then
          let w2 := emit (Prompt "Hit enter to continue...") w1 in
          match ins with
          | [] => ([], w2, Raise EOFError)
          | _ :: rest => dealer_play hand d1 rest w2
          end
        else (ins, w1, Ok (true, d1))
    end
  else (ins, w, Ok (true, d_hand)).
Proof. destruct ins; reflexivity. Qed.

Lemma split_dealer_play_eq (hand1 hand2 dealer_hand : Hand.t) (ins : list string)
    (w : World F) :
  split_dealer_play hand1 hand2 dealer_hand ins w =
  if Hand.value dealer_hand <? 17 then
    match split_dealer_card hand1 hand2 dealer_hand w with
    | (w1, Raise e) => (ins, w1, Raise e)
    | (w1, Ok d1) =>
        if Hand.is_bust d1 then (ins, w1, Ok d1)
        else if Hand.value d1 <? 17 then
          let w2 := emit (Prompt "Hit enter to continue...") w1 in
          match ins with
          | [] => ([], w2, Raise EOFError)
          | _ :: rest => split_dealer_play hand1 hand2 d1 rest w2
          end
        else (ins, w1, Ok d1)
    end
  else (ins, w, Ok dealer_hand).
Proof. destruct ins; reflexivity. Qed.

Lemma dealer_rule_stand (d : Hand.t) (w : World F) :
  17 <= Hand.value d -> dealer_rule d d w w [].
Proof.
  intros V. unfold dealer_rule, add_cards. cbn [fold_left length].
  repeat split; try assumption; try reflexivity.
  - intros k Hk. inversion Hk.
  - intros _. exact V.
Qed.

Lemma dealer_rule_last (d : Hand.t) (c : Card.t) (w w1 : World F) :
  Hand.value d < 17 -> 17 <= Hand.value (Hand.add_card d c) ->
  shoe w1 = after_draw (shoe w) ->
  dealer_rule d (Hand.add_card d c) w w1 [c].
Proof.
  intros V V1 S. unfold dealer_rule, add_cards. cbn [fold_left length].
  repeat split; try assumption; try reflexivity; try discriminate; try lia.
  intros k Hk. assert (k = 0%nat) as -> by lia. exact V.
Qed.

Lemma dealer_rule_more (d d' : Hand.t) (c : Card.t) (w w1 w2 w' : World F)
    (drawn : list Card.t) :
  Hand.value d < 17 ->
  shoe w1 = after_draw (shoe w) -> shoe w2 = shoe w1 ->
  dealer_rule (Hand.add_card d c) d' w2 w' drawn ->
  dealer_rule d d' w w' (c :: drawn).
Proof.
  intros V S1 S2 (E & Pre & Fin & _ & Sh). unfold dealer_rule, add_cards in *.
  cbn [fold_left length]. repeat split; try assumption; try discriminate; try lia.
  - intros [|k] Hk; cbn [firstn fold_left]; [exact V|]. apply Pre.
    cbn [length] in Hk. lia.
  - rewrite Sh, S2, S1. reflexivity.
Qed.

Lemma dealer_play_rule_aux (n : nat) :
  forall (hand d : Hand.t) (ins : list string) (w : World F) ins' w' b d',
    (length ins < n)%nat ->
    dealer_play hand d ins w = (ins', w', Ok (b, d')) ->
    exists drawn,
      dealer_rule d d' w w' drawn /\
      (b = false <-> drawn <> [] /\ Hand.is_bust d' = true).
Proof.
  induction n as [|n IH]; intros hand d ins w ins' w' b d' Len H; [lia|].
  rewrite dealer_play_eq in H.
  destruct (Hand.value d <? 17) eqn:V.
  - apply Z.ltb_lt in V.
    destruct (dealer_card hand d w) as [w1 [d1|e]] eqn:DC; [|discriminate].
    apply dealer_card_ok in DC. destruct DC as (c & -> & S1).
    destruct (Hand.is_bust (Hand.add_card d c)) eqn:B.
    + inversion H; subst. exists [c]. split.
      * apply dealer_rule_last; try assumption.
        unfold Hand.is_bust in B. apply Z.ltb_lt in B. lia.
      * split; [intros _; split; [discriminate | exact B] | reflexivity].
    + destruct (Hand.value (Hand.add_card d c) <? 17) eqn:V1.
      * cbv zeta in H. destruct ins as [|l rest]; [discriminate|].
        apply IH in H; [|cbn [length] in Len; lia].
        destruct H as (drawn & R & Hb).
        exists (c :: drawn). split; [eapply dealer_rule_more; eauto|].
        rewrite Hb. split.
        -- intros [_ Bd]. split; [discriminate | exact Bd].
        -- intros [_ Bd]. split; [|exact Bd]. intros ->.
           destruct R as (E & _). unfold add_cards in E. cbn in E. subst d'.
           rewrite B in Bd. discriminate.
      * inversion H; subst. exists [c]. split.
        -- apply dealer_rule_last; try assumption. apply Z.ltb_ge in V1. exact V1.
        -- split; [discriminate|]. intros [_ Bd]. rewrite B in Bd. discriminate.
  - apply Z.ltb_ge in V. inversion H; subst. exists []. split.
    + apply dealer_rule_stand. exact V.
    + split; [discriminate|]. intros [N _]. contradiction N. reflexivity.
Qed.

Lemma split_dealer_play_rule_aux (n : nat) :
  forall (hand1 hand2 d : Hand.t) (ins : list string) (w : World F) ins' w' d',
    (length ins < n)%nat ->
    split_dealer_play hand1 hand2 d ins w = (ins', w', Ok d') ->
    exists drawn, dealer_rule d d' w w' drawn.
Proof.
  induction n as [|n IH]; intros hand1 hand2 d ins w ins' w' d' Len H; [lia|].
  rewrite split_dealer_play_eq in H.
  destruct (Hand.value d <? 17) eqn:V.
  - apply Z.ltb_lt in V.
    destruct (split_dealer_card hand1 hand2 d w) as [w1 [d1|e]] eqn:DC; [|discriminate].
    apply split_dealer_card_ok in DC. destruct DC as (c & -> & S1).
    destruct (Hand.is_bust (Hand.add_card d c)) eqn:B.
    + inversion H; subst. exists [c].
      apply dealer_rule_last; try assumption.
      unfold Hand.is_bust in B. apply Z.ltb_lt in B. lia.
    + destruct (Hand.value (Hand.add_card d c) <? 17) eqn:V1.
      * cbv zeta in H. destruct ins as [|l rest]; [discriminate|].
        apply IH in H; [|cbn [length] in Len; lia].
        destruct H as (drawn & R).
        exists (c :: drawn). eapply dealer_rule_more; eauto.
      * inversion H; subst. exists [c].
        apply dealer_rule_last; try assumption. apply Z.ltb_ge in V1. exact V1.
  - apply Z.ltb_ge in V. inversion H; subst. exists [].
    apply dealer_rule_stand. exact V.
Qed.

Lemma draw_card_returns (w : World F) :
  Deck.shuffle_point (deck w) <= 100 ->
  exists c w1,
    draw_card w = (w1, Ok c) /\ Deck.shuffle_point (deck w1) <= 100 /\
    account w1 = account w.
Proof.
  intros Hsp.
  destruct (@draw_card_defined (deck w) (rng w) Hsp) as (c & E & _ & Hs).
  unfold after_draw in Hs. cbn [fst snd] in Hs. unfold draw_card.
  destruct (Deck.draw_card (deck w) (rng w)) as [[out [d g]] r].
  cbn [fst snd] in E, Hs. subst r. exists c. eexists. split; [reflexivity|].
  cbn [deck account]. split; [lia | reflexivity].
Qed.

Lemma show_returns (label : string) (h : Hand.t) (w : World F) :
  Hand.cards h <> [] -> show label h w = (emit (Show label h) w, Ok tt).
Proof. unfold show. destruct (Hand.cards h); [contradiction | reflexivity]. Qed.

Lemma add_card_cards (h : Hand.t) (c : Card.t) : Hand.cards (Hand.add_card h c) <> [].
Proof.
  unfold Hand.add_card. destruct (Hand.ace_adjustment _ _). cbn [Hand.cards].
  destruct (Hand.cards h); discriminate.
Qed.

Lemma dealer_card_returns (hand d : Hand.t) (w : World F) :
  Hand.cards hand <> [] -> Deck.shuffle_point (deck w) <= 100 ->
  exists c w1,
    dealer_card hand d w = (w1, Ok (Hand.add_card d c)) /\
    Deck.shuffle_point (deck w1) <= 100.
Proof.
  intros Hh Hsp. destruct (draw_card_returns w Hsp) as (c & w1 & D & Hs & _).
  exists c. unfold dealer_card, bindW. rewrite D. cbn [print].
  rewrite !show_returns by (assumption || apply add_card_cards).
  eexists. split; [reflexivity|]. exact Hs.
Qed.

Lemma split_dealer_card_returns (hand1 hand2 d : Hand.t) (w : World F) :
  Hand.cards hand1 <> [] -> Hand.cards hand2 <> [] ->
  Deck.shuffle_point (deck w) <= 100 ->
  exists c w1,
    split_dealer_card hand1 hand2 d w = (w1, Ok (Hand.add_card d c)) /\
    Deck.shuffle_point (deck w1) <= 100.
Proof.
  intros H1 H2 Hsp. destruct (draw_card_returns w Hsp) as (c & w1 & D & Hs & _).
  exists c. unfold split_dealer_card, bindW. rewrite D. cbn [print].
  rewrite !show_returns by (assumption || apply add_card_cards).
  eexists. split; [reflexivity|]. exact Hs.
Qed.

Lemma hand_of_snoc (cs : list Card.t) (c : Card.t) :
  Hand.add_card (hand_of cs) c = hand_of (cs ++ [c]).
Proof. unfold hand_of. rewrite fold_left_app. reflexivity. Qed.

Lemma hand_of_value_hard (cs : list Card.t) : hard_total cs <= Hand.value (hand_of cs).
Proof. destruct (hand_of_inv cs) as (_ & V & _). lia. Qed.

(** With a line of input for each pause, the dealer's play returns: the
    hard total grows with every card and the play stops at 17. *)
Lemma dealer_play_returns (ins : list string) :
  forall (cs : list Card.t) (hand : Hand.t) (w : World F),
    Hand.cards hand <> [] -> Deck.shuffle_point (deck w) <= 100 ->
    16 - hard_total cs <= Z.of_nat (length ins) ->
    exists ins' w' b d', dealer_play hand (hand_of cs) ins w = (ins', w', Ok (b, d')).
Proof.
  induction ins as [|line rest IH]; intros cs hand w Hh Hsp Len;
    rewrite dealer_play_eq;
    (destruct (Hand.value (hand_of cs) <? 17); [|repeat eexists]);
    destruct (@dealer_card_returns hand (hand_of cs) w Hh Hsp) as (c & w1 & -> & Hs);
    (destruct (Hand.is_bust _); [repeat eexists|]);
    rewrite hand_of_snoc;
    (destruct (Hand.value (hand_of (cs ++ [c])) <? 17) eqn:V; [|repeat eexists]);
    apply Z.ltb_lt in V;
    pose proof (hand_of_value_hard (cs ++ [c])) as Hv;
    rewrite hard_total_app in Hv; pose proof (hard_value_pos c) as Hc;
    cbn [length] in Len; cbv zeta.
  - lia.
  - apply IH; [exact Hh | exact Hs |]. rewrite hard_total_app. lia.
Qed.

Lemma split_dealer_play_returns (ins : list string) :
  forall (cs : list Card.t) (hand1 hand2 : Hand.t) (w : World F),
    Hand.cards hand1 <> [] -> Hand.cards hand2 <> [] ->
    Deck.shuffle_point (deck w) <= 100 ->
    16 - hard_total cs <= Z.of_nat (length ins) ->
    exists ins' w' d',
      split_dealer_play hand1 hand2 (hand_of cs) ins w = (ins', w', Ok d').
Proof.
  induction ins as [|line rest IH]; intros cs hand1 hand2 w H1 H2 Hsp Len;
    rewrite split_dealer_play_eq;
    (destruct (Hand.value (hand_of cs) <? 17); [|repeat eexists]);
    destruct (@split_dealer_card_returns hand1 hand2 (hand_of cs) w H1 H2 Hsp)
      as (c & w1 & -> & Hs);
    (destruct (Hand.is_bust _); [repeat eexists|]);
    rewrite hand_of_snoc;
    (destruct (Hand.value (hand_of (cs ++ [c])) <? 17) eqn:V; [|repeat eexists]);
    apply Z.ltb_lt in V;
    pose proof (hand_of_value_hard (cs ++ [c])) as Hv;
    rewrite hard_total_app in Hv; pose proof (hard_value_pos c) as Hc;
    cbn [length] in Len; cbv zeta.
  - lia.
  - apply IH; [exact H1 | exact H2 | exact Hs |]. rewrite hard_total_app. lia.
Qed.

(** C7: in the dealer's play, alone or after a split, a card is drawn exactly
    while the value of the dealer's hand is under 17: every card is added to
    a hand under 17, the play ends at 17 or more (a bust included), no card is
    drawn from 17 up and one is drawn from any value under 17; [dealer_play]
    returns [False] exactly when the dealer drew and went over 21.  The play
    does return when the hands shown hold cards and 16 lines of input are
    there for its pauses. *)
Theorem dealer_draws_below_17 :
  (forall (hand d : Hand.t) (ins : list string) (w : World F) ins' w' b d',
      dealer_play hand d ins w = (ins', w', Ok (b, d')) ->
      exists drawn,
        dealer_rule d d' w w' drawn /\
        (b = false <-> drawn <> [] /\ Hand.is_bust d' = true)) /\
  (forall (hand1 hand2 d : Hand.t) (ins : list string) (w : World F) ins' w' d',
      split_dealer_play hand1 hand2 d ins w = (ins', w', Ok d') ->
      exists drawn, dealer_rule d d' w w' drawn) /\
  (forall (cs : list Card.t) (hand hand2 : Hand.t) (ins : list string) (w : World F),
      Hand.cards hand <> [] -> Hand.cards hand2 <> [] ->
      Deck.shuffle_point (deck w) <= 100 ->
      (16 <= length ins)%nat ->
      (exists ins' w' b d',
          dealer_play hand (hand_of cs) ins w = (ins', w', Ok (b, d'))) /\
      (exists ins' w' d',
          split_dealer_play hand hand2 (hand_of cs) ins w = (ins', w', Ok d'))).
Proof.
  split; [|split].
  - intros hand d ins. intros.
    eapply (dealer_play_rule_aux (n := S (length ins))); eauto.
  - intros hand1 hand2 d ins. intros.
    eapply (split_dealer_play_rule_aux (n := S (length ins))); eauto.
  - intros cs hand hand2 ins w H1 H2 Hsp Len.
    assert (0 <= hard_total cs) as Hpos.
    { unfold hard_total. induction cs as [|c cs IH]; cbn [fold_right]; [lia|].
      pose proof (hard_value_pos c). lia. }
    split; [apply dealer_play_returns | apply split_dealer_play_returns];
      try assumption; lia.
Qed.

End DealerProperties.

(** ** The counter of hands played *)

Section CounterProperties.
Context {F : Type} {num : Number F}.

Lemma keeps_retW {A : Type} (a : A) : W_keeps (F := F) (retW a).
Proof. intros w. reflexivity. Qed.

Lemma keeps_bindW {A B : Type} (m : W F A) (k : A -> W F B) :
  W_keeps m -> (forall a, W_keeps (k a)) -> W_keeps (bindW m k).
Proof.
  intros Hm Hk w. unfold bindW. specialize (Hm w).
  destruct (m w) as [w1 [a|e]]; cbn [fst] in *.
  - rewrite (Hk a w1). exact Hm.
  - exact Hm.
Qed.

Lemma keeps_print (s : string) : W_keeps (F := F) (print s).
Proof. intros w. reflexivity. Qed.

Lemma keeps_show (s : string) (h : Hand.t) : W_keeps (F := F) (show s h).
Proof. intros w. unfold show. destruct (Hand.cards h); reflexivity. Qed.

Lemma keeps_draw_card : W_keeps (F := F) draw_card.
Proof.
  intros w. unfold draw_card.
  destruct (Deck.draw_card (deck w) (rng w)) as [[out [d g]] r]. reflexivity.
Qed.

Lemma keeps_on_account {A : Type} (f : Account.t F -> Account.t F * A) :
  account_keeps f -> W_keeps (on_account f).
Proof.
  intros Hf w. unfold on_account. specialize (Hf (account w)).
  destruct (f (account w)) as [a x]. exact Hf.
Qed.

Lemma keeps_ret {A : Type} (a : A) : IO_keeps (F := F) (ret a).
Proof. intros ins w. reflexivity. Qed.

Lemma keeps_raise {A : Type} (e : exn) : IO_keeps (F := F) (A := A) (raise e).
Proof. intros ins w. reflexivity. Qed.

Lemma keeps_bind {A B : Type} (m : IO F A) (k : A -> IO F B) :
  IO_keeps m -> (forall a, IO_keeps (k a)) -> IO_keeps (bind m k).
Proof.
  intros Hm Hk ins w. unfold bind. specialize (Hm ins w).
  destruct (m ins w) as [[ins1 w1] [a|e]]; cbn [fst snd] in *.
  - rewrite (Hk a ins1 w1). exact Hm.
  - exact Hm.
Qed.

Lemma keeps_liftW {A : Type} (m : W F A) : W_keeps m -> IO_keeps (liftW m).
Proof.
  intros Hm ins w. unfold liftW. specialize (Hm w).
  destruct (m w) as [w1 r]. exact Hm.
Qed.

Lemma keeps_input (prompt : string) : IO_keeps (F := F) (input prompt).
Proof. intros ins w. unfold input. destruct ins; reflexivity. Qed.

Lemma keeps_place_bet (amount : F) :
  account_keeps (fun a => Account.place_bet a amount).
Proof.
  intros a. unfold Account.place_bet.
  destruct (fge (Account.balance a) amount); reflexivity.
Qed.

Lemma keeps_calculate_payoff (bet : F) (outcome : string) (hand : Hand.t) (split : Z) :
  account_keeps (fun a => (calculate_payoff bet outcome a hand split, tt)).
Proof.
  intros a. unfold calculate_payoff, Account.game_won. cbn [fst].
  destruct (outcome =? "push")%string; [reflexivity|].
  destruct (outcome =? "win")%string; [|reflexivity].
  destruct (Hand.is_blackjack hand && not_ split); reflexivity.
Qed.

Lemma keeps_check_winner (hand d_hand : Hand.t) (bet : F) (split : Z) :
  account_keeps (fun a => check_winner hand d_hand a bet split).
Proof.
  intros a. unfold check_winner.
  destruct (Hand.value d_hand <? Hand.value hand);
    [apply (keeps_calculate_payoff bet "win" hand split a)|].
  destruct (Hand.value hand <? Hand.value d_hand); [reflexivity|].
  apply (keeps_calculate_payoff bet "push" hand split a).
Qed.

Lemma keeps_action_allowed (bet : F) (action : string) :
  account_keeps (action_allowed bet action).
Proof.
  intros a. unfold action_allowed.
  destruct (in_list action ["H"; "S"]); [reflexivity|].
  destruct (in_list action ["D"; "L"]); [|reflexivity].
  apply keeps_place_bet.
Qed.

Lemma keeps_get_bet : IO_keeps (get_bet (F := F)).
Proof.
  intros ins. induction ins as [|line rest IH]; intros w; cbn [get_bet].
  - reflexivity.
  - destruct (parse_float line) as [x|]; [|rewrite IH; reflexivity].
    destruct (flt (fround2 x) (fint 2)); [rewrite IH; reflexivity|].
    pose proof (keeps_place_bet (fround2 x) (account w)) as K.
    cbn [account emit] in *.
    destruct (Account.place_bet (account w) (fround2 x)) as [a ok].
    cbn [fst] in K. destruct ok; [exact K | rewrite IH; exact K].
Qed.

Lemma keeps_get_action (actions : string) (bet : F) :
  IO_keeps (get_action actions bet).
Proof.
  intros ins. induction ins as [|line rest IH]; intros w; cbn [get_action].
  - reflexivity.
  - destruct (negb (contains "split" actions) && (upper line =? "L")%string);
      [rewrite IH; reflexivity|].
    destruct (in_list (upper line) _); [|rewrite IH; reflexivity].
    pose proof (keeps_action_allowed bet (upper line) (account w)) as K.
    cbn [account emit] in *.
    destruct (action_allowed bet (upper line) (account w)) as [a ok].
    cbn [fst] in K. destruct ok; [exact K | rewrite IH; exact K].
Qed.

Ltac keeps_W :=
  repeat first
    [ apply keeps_bindW | apply keeps_draw_card | apply keeps_print
    | apply keeps_show | apply keeps_retW
    | match goal with |- forall _, W_keeps _ => intro end ].

Lemma keeps_hit_card (hand d_hand : Hand.t) : W_keeps (hit_card (F := F) hand d_hand).
Proof. unfold hit_card. keeps_W. Qed.

Lemma keeps_dealer_card (hand d_hand : Hand.t) :
  W_keeps (dealer_card (F := F) hand d_hand).
Proof. unfold dealer_card. keeps_W. Qed.

Lemma keeps_split_dealer_card (hand1 hand2 d_hand : Hand.t) :
  W_keeps (split_dealer_card (F := F) hand1 hand2 d_hand).
Proof. unfold split_dealer_card. keeps_W. Qed.

Lemma keeps_show3 (d h1 h2 : Hand.t) : W_keeps (show3 (F := F) d h1 h2).
Proof. unfold show3. keeps_W. Qed.

Lemma keeps_dealer_play (hand d_hand : Hand.t) :
  IO_keeps (dealer_play (F := F) hand d_hand).
Proof.
  intros ins. revert d_hand.
  induction ins as [|line rest IH]; intros d_hand w; rewrite dealer_play_eq;
    (destruct (Hand.value d_hand <? 17); [|reflexivity]);
    pose proof (keeps_dealer_card hand d_hand w) as K;
    (destruct (dealer_card hand d_hand w) as [w1 [d1|e]]; cbn [fst] in K;
     [|exact K]);
    (destruct (Hand.is_bust d1); [exact K|]);
    (destruct (Hand.value d1 <? 17); [|exact K]); cbv zeta.
  - exact K.
  - rewrite IH. exact K.
Qed.

Lemma keeps_split_dealer_play (hand1 hand2 d_hand : Hand.t) :
  IO_keeps (split_dealer_play (F := F) hand1 hand2 d_hand).
Proof.
  intros ins. revert d_hand.
  induction ins as [|line rest IH]; intros d_hand w; rewrite split_dealer_play_eq;
    (destruct (Hand.value d_hand <? 17); [|reflexivity]);
    pose proof (keeps_split_dealer_card hand1 hand2 d_hand w) as K;
    (destruct (split_dealer_card hand1 hand2 d_hand w) as [w1 [d1|e]];
     cbn [fst] in K; [|exact K]);
    (destruct (Hand.is_bust d1); [exact K|]);
    (destruct (Hand.value d1 <? 17); [|exact K]); cbv zeta.
  - exact K.
  - rewrite IH. exact K.
Qed.

Lemma hit_eq (hand d_hand : Hand.t) (ins : list string) (w : World F) :
  hit hand d_hand ins w =
  match hit_card hand d_hand w with
  | (w1, Raise e) => (ins, w1, Raise e)
  | (w1, Ok hand1) =>
      if Hand.is_bust hand1 then (ins, w1, Ok (false, hand1))
      else hit_ask hand1 d_hand ins w1
  end.
Proof. destruct ins; reflexivity. Qed.

Lemma keeps_hit_aux (n : nat) :
  forall (ins : list string) (hand d_hand : Hand.t) (w : World F),
    (length ins < n)%nat ->
    played (snd (fst (hit hand d_hand ins w))) = played w.
Proof.
  induction n as [|n IH]; intros ins hand d_hand w Len; [lia|].
  rewrite hit_eq.
  pose proof (keeps_hit_card hand d_hand w) as K.
  destruct (hit_card hand d_hand w) as [w1 [hand1|e]]; cbn [fst] in K; [|exact K].
  destruct (Hand.is_bust hand1); [exact K|].
  rewrite <- K. clear K. revert w1.
  induction ins as [|line rest IHins]; intros w1; cbn [hit_ask].
  - reflexivity.
  - cbn [length] in Len.
    destruct (in_list (upper line) ["H"; "S"]).
    + destruct (upper line =? "S")%string; [reflexivity|].
      rewrite IH; [reflexivity | lia].
    + rewrite IHins; [reflexivity | lia].
Qed.

Lemma keeps_hit (hand d_hand : Hand.t) : IO_keeps (hit (F := F) hand d_hand).
Proof. intros ins w. apply (keeps_hit_aux (n := S (length ins))). lia. Qed.

Ltac keeps_IO :=
  repeat first
    [ apply keeps_bind | apply keeps_liftW | apply keeps_ret | apply keeps_raise
    | apply keeps_input | apply keeps_get_action | apply keeps_get_bet
    | apply keeps_hit | apply keeps_dealer_play | apply keeps_split_dealer_play
    | apply keeps_on_account | apply keeps_check_winner
    | apply keeps_calculate_payoff | apply keeps_show3
    | apply keeps_bindW | apply keeps_draw_card | apply keeps_print
    | apply keeps_show | apply keeps_retW
    | match goal with
      | |- forall _, IO_keeps _ => intro
      | |- forall _, W_keeps _ => intro
      | |- IO_keeps (if ?b then _ else _) => destruct b
      | |- IO_keeps (let (_, _) := ?r in _) => destruct r
      | |- IO_keeps (match ?x with _ => _ end) => destruct x
      end ].

Lemma keeps_play_split (player_hand : Hand.t) (hand_num : Z) (dealer_hand : Hand.t)
    (bet : F) : IO_keeps (play_split player_hand hand_num dealer_hand bet).
Proof. unfold play_split. keeps_IO. Qed.

Lemma keeps_split_settle (p1 p2 d : Hand.t) (a1 a2 : option string) (bet : F) :
  IO_keeps (split_settle p1 p2 d a1 a2 bet).
Proof. unfold split_settle. keeps_IO. Qed.

Lemma keeps_dealer_then_settle (player_hand dealer_hand : Hand.t) (bet : F) :
  IO_keeps (dealer_then_settle player_hand dealer_hand bet).
Proof. unfold dealer_then_settle. keeps_IO. Qed.

Lemma keeps_index {A : Type} (l : list A) (i : nat) : IO_keeps (index (F := F) l i).
Proof. unfold index. destruct (nth_error l i); [apply keeps_ret | apply keeps_raise]. Qed.

(** After the increment that opens [split] and [play_game], what follows
    decides the counter. *)
Lemma played_after_incr (k : unit -> IO F unit) (ins : list string) (w : World F) :
  exists w1,
    played w1 = played w + 1 /\
    bind (liftW (on_account (incr_games_played (F := F)))) k ins w = k tt ins w1.
Proof.
  exists (set_account (fst (incr_games_played (account w))) w).
  split; reflexivity.
Qed.

Lemma split_adds_one (hand dealer_hand : Hand.t) (bet : F) (ins : list string)
    (w : World F) :
  played (snd (fst (split hand dealer_hand bet ins w))) = played w + 1.
Proof.
  unfold split.
  match goal with
  | |- context [bind _ ?k ins w] =>
      destruct (played_after_incr k ins w) as (w1 & P & E)
  end.
  rewrite E, <- P.
  match goal with |- played (snd (fst (?m ins w1))) = _ => assert (IO_keeps m) as K end.
  { keeps_IO; try apply keeps_index; keeps_IO;
      try apply keeps_play_split; keeps_IO;
      try apply keeps_play_split; keeps_IO;
      try apply keeps_split_settle. }
  apply K.
Qed.

Lemma kos_of_keeps (m : IO F unit) : IO_keeps m -> keeps_or_splits m.
Proof. intros K ins w. left. apply K. Qed.

Lemma kos_bind {A : Type} (m : IO F A) (k : A -> IO F unit) :
  IO_keeps m -> (forall a, keeps_or_splits (k a)) -> keeps_or_splits (bind m k).
Proof.
  intros Hm Hk ins w. unfold bind. specialize (Hm ins w).
  destruct (m ins w) as [[ins1 w1] [a|e]]; cbn [fst snd] in *.
  - destruct (Hk a ins1 w1) as [K|(h & d & b & i2 & w2 & P & E & Q)].
    + left. rewrite K. exact Hm.
    + right. exists h, d, b, i2, w2. rewrite <- Hm. repeat split; assumption.
  - left. exact Hm.
Qed.

Lemma kos_split (hand dealer_hand : Hand.t) (bet : F) :
  keeps_or_splits (split hand dealer_hand bet).
Proof.
  intros ins w. right. exists hand, dealer_hand, bet, ins, w.
  repeat split. apply split_adds_one.
Qed.

Ltac keeps_all :=
  repeat first
    [ apply keeps_dealer_then_settle | apply keeps_play_split
    | apply keeps_split_settle | apply keeps_index | progress keeps_IO ].

Ltac kos :=
  repeat first
    [ apply kos_split
    | apply kos_of_keeps; solve [keeps_all]
    | apply kos_bind; [solve [keeps_all] | intro]
    | match goal with
      | |- keeps_or_splits (if ?b then _ else _) => destruct b
      | |- keeps_or_splits (let (_, _) := ?r in _) => destruct r
      end ].

(** C8: the counter of hands played moves by one for a round that is not
    split and by two, one per hand of the split, for a round that is split:
    [split] adds exactly one, whatever happens in it, and [play_game] adds
    exactly one unless the round goes on as a run of [split], in which case
    the two add up to two. *)
Theorem games_played_once_per_hand :
  (forall (hand dealer_hand : Hand.t) (bet : F) (ins : list string) (w : World F),
      played (snd (fst (split hand dealer_hand bet ins w))) = played w + 1) /\
  (forall (ins : list string) (w : World F),
      played (snd (fst (play_game ins w))) = played w + 1 \/
      exists hand dealer_hand bet ins1 w1,
        played w1 = played w + 1 /\
        play_game ins w = split hand dealer_hand bet ins1 w1 /\
        played (snd (fst (play_game ins w))) = played w + 2).
Proof.
  split; [exact split_adds_one|].
  intros ins w. unfold play_game.
  match goal with
  | |- context [bind _ ?k ins w] =>
      destruct (played_after_incr k ins w) as (w1 & P & E);
      assert (keeps_or_splits (k tt)) as K by kos
  end.
  rewrite E. destruct (K ins w1) as [Q|(h & d & b & i2 & w2 & P2 & E2 & Q)].
  - left. lia.
  - right. exists h, d, b, i2, w2. repeat split; [lia | exact E2 | lia].
Qed.

End CounterProperties.

(** ** Runs of the program *)

Lemma hand_value_is_best_total_witness :
  let cs := [ace_spades; king_spades; six_hearts] in
  let v := Hand.value (hand_of cs) in
  v = 17 /\
  v = best_total cs /\
  In v (totals cs) /\
  (forall t, In t (totals cs) -> t <= 21 -> v <= 21 /\ t <= v) /\
  ((forall t, In t (totals cs) -> 21 < t) ->
   v = hard_total cs /\ forall t, In t (totals cs) -> v <= t).
Proof.
  split; [reflexivity|].
  exact (hand_value_is_best_total [ace_spades; king_spades; six_hearts]).
Defined.

(** A bet of 5 dollars against a balance of 3 is refused and changes
    nothing; a bet of 3 is taken. *)
Example place_bet_5_against_3 :
  let a := Account.mk alice (3 # 1) (0 # 1) (0 # 1) 0 0 (3 # 1) in
  Account.place_bet a (5 # 1) = (a, false) /\
  Account.place_bet a (3 # 1) =
    (Account.mk alice (0 # 1) (3 # 1) (-3 # 1) 0 0 (3 # 1), true).
Proof. split; reflexivity. Qed.

(** The payoffs of a bet of 10 on an account of 90: push, blackjack, win of
    a split ace and king, loss. *)
Example payoffs_of_10 :
  let a := Account.mk alice (90 # 1) (10 # 1) (-10 # 1) 1 0 (100 # 1) in
  let bj := hand_of [ace_spades; king_spades] in
  Hand.is_blackjack bj = true /\
  Account.balance (calculate_payoff (10 # 1) "push" a bj 0) = 100 # 1 /\
  Account.balance (calculate_payoff (10 # 1) "win" a bj 0) = 115 # 1 /\
  Account.balance (calculate_payoff (10 # 1) "win" a bj 1) = 110 # 1 /\
  Account.balance (calculate_payoff (10 # 1) "loss" a bj 0) = 90 # 1 /\
  Account.games_won (calculate_payoff (10 # 1) "win" a bj 0) = 1 /\
  Account.games_won (calculate_payoff (10 # 1) "push" a bj 0) = 0.
Proof. repeat split. Qed.

Lemma calculate_payoff_spec_witness :
  let a := Account.mk alice (90 # 1) (10 # 1) (-10 # 1) 1 0 (100 # 1) in
  let bj := hand_of [ace_spades; king_spades] in
  let ka := hand_of [king_spades; ace_spades] in
  Hand.is_blackjack ka = Hand.is_blackjack bj /\
  calculate_payoff (10 # 1) "win" a ka 0 = calculate_payoff (10 # 1) "win" a bj 0.
Proof.
  split; [reflexivity|].
  apply (calculate_payoff_spec (10 # 1) "win"
           (Account.mk alice (90 # 1) (10 # 1) (-10 # 1) 1 0 (100 # 1))
           (hand_of [ace_spades; king_spades]) 0); reflexivity.
Defined.

Lemma blackjack_two_cards_unsplit_witness :
  let bj := hand_of [ace_spades; king_spades] in
  let q := hand_of [king_spades; six_hearts; Card.new Clubs R5] in
  Hand.value bj = Hand.value q /\
  split_settle bj q (hand_of [king_spades; queen_clubs]) None None (10 # 1) [""] world0 =
  split_settle q q (hand_of [king_spades; queen_clubs]) None None (10 # 1) [""] world0.
Proof.
  split; [reflexivity|].
  apply (blackjack_two_cards_unsplit (F := Q)
           (hand_of [ace_spades; king_spades]) 1); reflexivity.
Defined.

(** The dealer stands on the soft 17 of an ace and a six, and draws on the
    16 of a king and a six: the queen on top of the shoe takes it to 26. *)
Example dealer_soft_17_stands :
  dealer_play (hand_of [king_spades; queen_clubs]) (hand_of [ace_spades; six_hearts])
    [] world0 =
  ([], world0, Ok (true, hand_of [ace_spades; six_hearts])).
Proof. vm_compute. reflexivity. Qed.

Example dealer_16_draws :
  let d16 := hand_of [king_spades; six_hearts] in
  Hand.value d16 = 16 /\
  snd (dealer_play (hand_of [king_spades; queen_clubs]) d16 [] world0) =
  Ok (false, Hand.add_card d16 queen_clubs).
Proof. vm_compute. split; reflexivity. Qed.

Lemma dealer_draws_below_17_witness :
  let d16 := hand_of [king_spades; six_hearts] in
  let player := hand_of [king_spades; queen_clubs] in
  let o := dealer_play player d16 [] world0 in
  o = (fst (fst o), snd (fst o), Ok (false, Hand.add_card d16 queen_clubs)) /\
  exists drawn,
    dealer_rule d16 (Hand.add_card d16 queen_clubs) world0 (snd (fst o)) drawn /\
    (false = false <-> drawn <> [] /\ Hand.is_bust (Hand.add_card d16 queen_clubs) = true).
Proof.
  split; [vm_compute; reflexivity|].
  apply (proj1 (dealer_draws_below_17 (F := Q))
           (hand_of [king_spades; queen_clubs]) (hand_of [king_spades; six_hearts])
           [] world0 []).
  vm_compute. reflexivity.
Defined.

(** C3 (the code departs from it): a round from [Deck()] in which the player
    bets 10, splits a queen and a king, stands on the first hand at 20 and
    draws the second hand to 30, the dealer ending on 19.  The first hand is
    paid 2 * 10, the balance being 100 again after the two bets; the closing
    message then reads the unbound [message2] and [UnboundLocalError] is
    raised instead of one result per hand being reported. *)
Theorem split_one_bust_raises :
  let o := play_game inputs_split world_split in
  snd o = Raise UnboundLocalError /\
  last_out 3 (snd (fst o)) =
    [Show "Dealer:" (hand_of [Card.new Clubs RJ; Card.new Clubs R9]);
     Show "Hand 1:" (hand_of [queen_clubs; queen_clubs]);
     Show "Hand 2:" (hand_of [Card.new Clubs RK; Card.new Clubs RJ; Card.new Clubs R10])] /\
  Hand.value (hand_of [Card.new Clubs RJ; Card.new Clubs R9]) = 19 /\
  Hand.value (hand_of [queen_clubs; queen_clubs]) = 20 /\
  Hand.is_bust (hand_of [Card.new Clubs RK; Card.new Clubs RJ; Card.new Clubs R10]) = true /\
  account (snd (fst o)) =
    Account.mk alice (100 # 1) (20 # 1) (0 # 1) 2 1 (100 # 1).
Proof. vm_compute. repeat split. Qed.

(** The same round when the second hand stands as well: the dealer ends on
    20, both hands are settled as a push and the closing message is
    written. *)
Example split_no_bust_completes :
  let o := play_game ["10"; "l"; ""; "s"; ""; "s"; ""] world_split in
  snd o = Ok tt /\
  last_out 2 (snd (fst o)) =
    [Print ("Hand 1: Push!" ++ nl ++ "Hand 2: Push!")%string;
     Prompt "Hit Enter to return to Main Menu."] /\
  played (snd (fst o)) = 2.
Proof. vm_compute. repeat split. Qed.

(** A round that is not split counts one hand. *)
Example stand_round_counts_one :
  let o := play_game ["10"; "s"; ""] world0 in
  snd o = Ok tt /\ played (snd (fst o)) = 1 /\
  Account.balance (account (snd (fst o))) = 110 # 1.
Proof. vm_compute. repeat split. Qed.

(** A round that is not split: the player bets 10 and is dealt the ace of
    clubs and the queen of diamonds, the dealer draws from the king to 20; the
    blackjack is paid 2.5 * 10. *)
Example blackjack_round_pays_2_5 :
  let o := play_game ["10"; ""] world_blackjack in
  snd o = Ok tt /\
  last_out 3 (snd (fst o)) =
    [Show "Dealer:" (hand_of [Card.new Diamonds RK; Card.new Diamonds RJ]);
     Show "Hand:" (hand_of [Card.new Clubs RA; Card.new Diamonds RQ]);
     Prompt ("You win!" ++ nl ++ "Hit Enter to return to Main Menu.")%string] /\
  account (snd (fst o)) = Account.mk alice (115 # 1) (10 # 1) (15 # 1) 1 1 (100 # 1).
Proof. vm_compute. repeat split. Qed.

(** The hands of a split settled against a dealer on 20: the first, an ace
    and a king, wins and is paid 2 * 10, not 2.5 * 10; the second loses. *)
Example split_ace_king_pays_2 :
  let o := split_settle (hand_of [ace_spades; king_spades])
             (hand_of [king_spades; six_hearts])
             (hand_of [king_spades; queen_clubs]) None None (10 # 1) [""]
             (mkWorld (fst shoe0) (snd shoe0)
                (Account.mk alice (80 # 1) (20 # 1) (-20 # 1) 2 0 (100 # 1)) []) in
  snd o = Ok tt /\
  stdout (snd (fst o)) =
    [Print ("Hand 1: You win!" ++ nl ++ "Hand 2: Dealer wins.")%string;
     Prompt "Hit Enter to return to Main Menu."] /\
  account (snd (fst o)) = Account.mk alice (100 # 1) (20 # 1) (0 # 1) 2 1 (100 # 1).
Proof. vm_compute. repeat split. Qed.

(** * Further properties of the code *)

(** ** Hands *)

Lemma count_aces_hard (cs : list Card.t) : Z.of_nat (count_aces cs) <= hard_total cs.
Proof.
  induction cs as [|c cs IH].
  - cbn. lia.
  - change (hard_total (c :: cs)) with (hard_value c + hard_total cs).
    pose proof (hard_value_pos c) as P. unfold count_aces in *. cbn [filter].
    destruct (Card.is_ace (Card.rank c)); cbn [length]; lia.
Qed.

(** X1: the value of a hand built by [add_card] is the total with every ace
    counted as 1, plus 10 when an ace is held and the sum stays within 21;
    the field [aces] is then 1 and otherwise 0, so at most one ace is ever
    counted as 11; the hand is bust exactly when the total with every ace
    counted as 1 exceeds 21. *)
Theorem hand_value_closed_form (cs : list Card.t) :
  let soft := (0 <? count_aces cs)%nat && (hard_total cs + 10 <=? 21) in
  Hand.value (hand_of cs) = (if soft then hard_total cs + 10 else hard_total cs) /\
  Hand.aces (hand_of cs) = (if soft then 1%nat else 0%nat) /\
  Hand.is_bust (hand_of cs) = (21 <? hard_total cs).
Proof.
  intros soft. destruct (hand_of_inv cs) as (_ & Hv & Ha & Hd & Hb).
  pose proof (count_aces_hard cs) as Hc.
  assert (Hand.aces (hand_of cs) = if soft then 1%nat else 0%nat) as A.
  { subst soft.
    destruct (0 <? count_aces cs)%nat eqn:N; cbn [andb];
      [apply Nat.ltb_lt in N | apply Nat.ltb_ge in N; lia].
    destruct (hard_total cs + 10 <=? 21) eqn:S;
      [apply Z.leb_le in S | apply Z.leb_gt in S].
    - destruct (Hand.aces (hand_of cs)) as [|[|a]] eqn:E; [|reflexivity|].
      + specialize (Hd N). lia.
      + assert (21 < Hand.value (hand_of cs)) as B by lia.
        specialize (Hb B). discriminate Hb.
    - destruct (Hand.aces (hand_of cs)) as [|a] eqn:E; [reflexivity|].
      assert (21 < Hand.value (hand_of cs)) as B by lia.
      specialize (Hb B). discriminate Hb. }
  split; [|split; [exact A|]].
  - rewrite Hv, A. destruct soft; lia.
  - unfold Hand.is_bust. rewrite Hv, A. subst soft.
    destruct (0 <? count_aces cs)%nat; cbn [andb];
      [destruct (hard_total cs + 10 <=? 21) eqn:S|];
      [apply Z.leb_le in S| |]; 
      destruct (21 <? hard_total cs) eqn:T;
      try (apply Z.ltb_lt in T); try (apply Z.ltb_ge in T);
      try (apply Z.ltb_lt; lia); try (apply Z.ltb_ge; lia).
Qed.

Lemma hard_total_perm (cs cs' : list Card.t) :
  Permutation cs cs' -> hard_total cs = hard_total cs'.
Proof.
  unfold hard_total. induction 1; cbn [fold_right]; lia.
Qed.

Lemma count_aces_perm (cs cs' : list Card.t) :
  Permutation cs cs' -> count_aces cs = count_aces cs'.
Proof.
  intros P. unfold count_aces. apply Permutation_length.
  induction P; cbn [filter].
  - reflexivity.
  - destruct (Card.is_ace (Card.rank x)); [constructor|]; assumption.
  - destruct (Card.is_ace (Card.rank x)), (Card.is_ace (Card.rank y));
      try reflexivity. apply perm_swap.
  - etransitivity; eassumption.
Qed.

(** The state of a hand built by [add_card] depends on the hard total and
    on the number of aces of its cards only. *)
Lemma hand_state_by_totals (cs cs' : list Card.t) :
  hard_total cs = hard_total cs' -> count_aces cs = count_aces cs' ->
  Hand.value (hand_of cs) = Hand.value (hand_of cs') /\
  Hand.aces (hand_of cs) = Hand.aces (hand_of cs').
Proof.
  intros Eh En.
  destruct (hand_of_inv cs) as (_ & Hv & Ha & Hd & Hb).
  destruct (hand_of_inv cs') as (_ & Hv' & Ha' & Hd' & Hb').
  assert (Hand.aces (hand_of cs) = Hand.aces (hand_of cs')) as Ea.
  { destruct (Nat.lt_trichotomy (Hand.aces (hand_of cs)) (Hand.aces (hand_of cs')))
      as [L|[E|L]]; [|exact E|].
    - assert (21 < Hand.value (hand_of cs')) as B by lia. specialize (Hb' B). lia.
    - assert (21 < Hand.value (hand_of cs)) as B by lia. specialize (Hb B). lia. }
  split; [lia | exact Ea].
Qed.

(** X2: the order in which cards are added does not matter to the value of
    the hand, to the number of aces counted as 11, or to its being bust. *)
Theorem hand_value_order_free (cs cs' : list Card.t) :
  Permutation cs cs' ->
  Hand.value (hand_of cs) = Hand.value (hand_of cs') /\
  Hand.aces (hand_of cs) = Hand.aces (hand_of cs') /\
  Hand.is_bust (hand_of cs) = Hand.is_bust (hand_of cs').
Proof.
  intros P.
  destruct (hand_state_by_totals cs cs' (hard_total_perm P) (count_aces_perm P))
    as [V A].
  split; [exact V|]. split; [exact A|].
  unfold Hand.is_bust. rewrite V. reflexivity.
Qed.

Lemma hand_value_order_free_witness :
  Permutation [ace_spades; king_spades; six_hearts] [six_hearts; ace_spades; king_spades] /\
  Hand.value (hand_of [ace_spades; king_spades; six_hearts]) =
  Hand.value (hand_of [six_hearts; ace_spades; king_spades]).
Proof.
  assert (Permutation [ace_spades; king_spades; six_hearts]
            [six_hearts; ace_spades; king_spades]) as P.
  { apply Permutation_sym. apply (Permutation_cons_app [ace_spades; king_spades] []).
    reflexivity. }
  split; [exact P|]. apply (hand_value_order_free P).
Defined.

Lemma two_cards_blackjack (c1 c2 : Card.t) :
  Hand.is_blackjack (hand_of [c1; c2]) = true <-> Hand.value (hand_of [c1; c2]) = 21.
Proof.
  destruct c1 as [s1 r1], c2 as [s2 r2].
  destruct r1, r2; cbv; split; intros; try reflexivity; try discriminate.
Qed.

(** X3: a hand built by [add_card] is a blackjack exactly when it has two
    cards and its value is 21. *)
Theorem blackjack_iff_two_cards_21 (cs : list Card.t) :
  Hand.is_blackjack (hand_of cs) = true <->
  length cs = 2%nat /\ Hand.value (hand_of cs) = 21.
Proof.
  destruct cs as [|c1 [|c2 [|c3 cs]]].
  3: { rewrite two_cards_blackjack. split; [intros V; split; [reflexivity | exact V]|].
       intros [_ V]. exact V. }
  all: split; [|intros [E _]; discriminate E].
  all: unfold Hand.is_blackjack.
  all: match goal with |- context [hand_of ?l] =>
         destruct (hand_of_inv l) as (-> & _) end.
  all: cbn [length Nat.eqb negb]; discriminate.
Qed.

(** ** The shoe *)

Lemma interleave_interleaved (left right acc : list Card.t) (g : Rng.t) :
  exists m, fst (Deck.interleave left right acc g) = acc ++ m /\
            Interleaved left right m.
Proof.
  revert right acc g.
  induction left as [|l left IHl]; intros right acc g.
  - rewrite interleave_nil_l. exists right. split; [reflexivity | constructor].
  - revert acc g. induction right as [|r right IHr]; intros acc g.
    + rewrite interleave_nil_r. exists (l :: left).
      split; [rewrite app_nil_r; reflexivity | constructor].
    + rewrite interleave_cons. cbv zeta.
      destruct (Rng.random g) as [u g'].
      destruct (u <? _).
      * destruct (IHl (r :: right) (acc ++ [l]) g') as (m & E & I).
        exists (l :: m). rewrite E, <- app_assoc. split; [reflexivity|].
        constructor. exact I.
      * destruct (IHr (acc ++ [r]) g') as (m & E & I).
        exists (r :: m). rewrite E, <- app_assoc. split; [reflexivity|].
        constructor. exact I.
Qed.

(** X4: [shuffle_deck] is a riffle: it cuts the cards at their number
    divided by one of 1 .. 5 and interleaves the two piles, the cards of each
    pile staying in their order; the shuffle point is kept. *)
Theorem shuffle_deck_riffle (d : Deck.t) (g : Rng.t) :
  exists k,
    1 <= k <= 5 /\
    let cut := Z.to_nat (Z.of_nat (length (Deck.cards d)) / k) in
    Interleaved (firstn cut (Deck.cards d)) (skipn cut (Deck.cards d))
      (Deck.cards (fst (Deck.shuffle_deck (d, g)))) /\
    Deck.shuffle_point (fst (Deck.shuffle_deck (d, g))) = Deck.shuffle_point d.
Proof.
  unfold Deck.shuffle_deck, Rng.randint.
  destruct (Rng.next g) as [x g1].
  exists (2 + (-1 + x mod (3 - -1 + 1))).
  assert (0 <= x mod 5 < 5) as M by (apply Z.mod_pos_bound; lia).
  change (3 - -1 + 1) with 5. split; [lia|]. cbv zeta.
  set (cut := Z.to_nat _).
  destruct (interleave_interleaved (firstn cut (Deck.cards d))
              (skipn cut (Deck.cards d)) [] g1) as (m & E & I).
  destruct (Deck.interleave _ _ _ _) as [shuffled g2].
  cbn [fst app Deck.cards Deck.shuffle_point] in *. subst shuffled.
  split; [exact I | reflexivity].
Qed.

(** X5: when [randint(-1, 3)] gives -1 the cut falls at the end of the pile:
    the shuffle leaves the deck as it is and reads the generator no
    further. *)
Theorem shuffle_deck_cut_at_end (d : Deck.t) (x : Z) (g : Rng.t) :
  x mod 5 = 0 -> Deck.shuffle_deck (d, x :: g) = (d, g).
Proof.
  intros M. unfold Deck.shuffle_deck, Rng.randint. cbn [Rng.next].
  change (3 - -1 + 1) with 5. rewrite M. change (2 + (-1 + 0)) with 1.
  rewrite Z.div_1_r, Nat2Z.id, firstn_all, skipn_all, interleave_nil_r.
  cbn [app]. rewrite app_nil_r. destruct d; reflexivity.
Qed.

Lemma shuffle_deck_cut_at_end_witness :
  5 mod 5 = 0 /\ Deck.shuffle_deck (fst shoe0, [5; 7]) = (fst shoe0, [7]).
Proof.
  split; [reflexivity|]. apply (@shuffle_deck_cut_at_end (fst shoe0) 5 [7]).
  reflexivity.
Defined.

Lemma ordered_decks_count (c : Card.t) : count_occ Card_eq_dec Deck.ordered_decks c = 6%nat.
Proof. destruct c as [[] []]; vm_compute; reflexivity. Qed.

(** X6: [reset_deck] loses no card and invents none: the cards it leaves,
    with the one it burns, are the cards it found and the six ordered decks.
    So [Deck()] holds every card face six times, but for the burned one,
    which it holds five times. *)
Theorem reset_deck_conserves (d : Deck.t) (g : Rng.t) :
  (exists burned,
      Permutation (Deck.cards (fst (Deck.reset_deck d g)) ++ [burned])
        (Deck.cards d ++ Deck.ordered_decks)) /\
  (exists burned,
      forall c, count_occ Card_eq_dec (Deck.cards (fst (Deck.init g))) c =
                if Card_eq_dec c burned then 5%nat else 6%nat).
Proof.
  assert (forall d g, exists burned,
             Permutation (Deck.cards (fst (Deck.reset_deck d g)) ++ [burned])
               (Deck.cards d ++ Deck.ordered_decks)) as K.
  { clear d g. intros d g. unfold Deck.reset_deck.
    destruct (Rng.uniform_060_085_round2 g) as [sp g1].
    pose proof (iter_shuffle_perm 15 (Deck.mk (Deck.cards d ++ Deck.ordered_decks) sp) g1)
      as [P _].
    destruct (iter 15 Deck.shuffle_deck _) as [d2 g2].
    cbn [fst Deck.cards] in *.
    destruct (Deck.cards d2) as [|c l] eqn:E using rev_ind.
    - apply Permutation_length in P. rewrite length_app, ordered_decks_length in P.
      cbn in P. lia.
    - exists c. rewrite removelast_last. symmetry. exact P. }
  split; [apply K|].
  destruct (K (Deck.mk [] 100) g) as (burned & P). exists burned. intros c.
  apply (Permutation_count_occ Card_eq_dec) with (x := c) in P.
  cbn [Deck.cards app] in P. rewrite ordered_decks_count, count_occ_app in P.
  unfold Deck.init. cbn [count_occ] in P.
  destruct (Card_eq_dec burned c) as [->|N].
  - destruct (Card_eq_dec c c) as [_|N]; [lia | contradiction].
  - destruct (Card_eq_dec c burned) as [->|_]; [contradiction | lia].
Qed.

Lemma firstn_pop {A : Type} (l : list A) (n : nat) :
  length l = S n -> exists x, pop l = Some (firstn n l, x).
Proof.
  intros L. destruct (@pop_defined _ l) as (r & x & E & Len); [lia|].
  exists x. rewrite E. apply pop_Some in E. subst l.
  rewrite firstn_app. assert (n = length r) as -> by lia.
  rewrite firstn_all, Nat.sub_diag. cbn [firstn]. rewrite app_nil_r. reflexivity.
Qed.

Lemma draws_without_shuffle (k : nat) :
  forall (cards : list Card.t) (sp : Z) (g : Rng.t),
    60 <= sp -> (124 + k <= length cards)%nat ->
    after_draws k (Deck.mk cards sp, g) =
    (Deck.mk (firstn (length cards - k) cards) sp, g).
Proof.
  unfold after_draws. induction k as [|k IH]; intros cards sp g Hsp Len; cbn [iter].
  - rewrite Nat.sub_0_r, firstn_all. reflexivity.
  - assert (after_draw (Deck.mk cards sp, g) =
            (Deck.mk (firstn (length cards - 1) cards) sp, g)) as E.
    { unfold after_draw, Deck.draw_card, Deck.needs_shuffle, Deck.num_decks.
      cbn [fst snd Deck.cards Deck.shuffle_point].
      destruct (100 * Z.of_nat (length cards) <=? 6 * 52 * (100 - sp)) eqn:N;
        [apply Z.leb_le in N; lia|].
      cbv beta iota zeta. cbn [fst snd Deck.cards Deck.shuffle_point].
      destruct (@firstn_pop _ cards (length cards - 1)) as (x & ->); [lia|].
      reflexivity. }
    rewrite E, IH; [|exact Hsp|rewrite length_firstn; lia].
    rewrite length_firstn, firstn_firstn. do 2 f_equal. f_equal. lia.
Qed.

(** X7: a shoe [Deck()] serves its first 187 draws without reshuffling,
    whatever its shuffle point: after [k <= 187] draws it holds the 311 - k
    cards from the bottom of the fresh shoe, with the same shuffle point, and
    the generator has not been read. *)
Theorem fresh_shoe_lasts_187_draws (g : Rng.t) (k : nat) :
  (k <= 187)%nat ->
  after_draws k (Deck.init g) =
  (Deck.mk (firstn (311 - k) (Deck.cards (fst (Deck.init g))))
     (Deck.shuffle_point (fst (Deck.init g))), snd (Deck.init g)).
Proof.
  intros Hk. pose proof (init_length g) as L.
  pose proof (reset_deck_spec (Deck.mk [] 100) g) as [_ S]. fold (Deck.init g) in S.
  destruct (Deck.init g) as [[cards sp] g0]. cbn [fst snd Deck.cards Deck.shuffle_point] in *.
  rewrite draws_without_shuffle; [rewrite L; reflexivity | lia | lia].
Qed.

Lemma fresh_shoe_lasts_187_draws_witness :
  (187 <= 187)%nat /\
  length (Deck.cards (fst (after_draws 187 (Deck.init tape_split)))) = 124%nat.
Proof.
  split; [lia|].
  rewrite (@fresh_shoe_lasts_187_draws tape_split 187); [|lia].
  cbn [fst Deck.cards]. rewrite length_firstn, init_length. reflexivity.
Defined.

(** ** Bets and actions *)

Section ActionProperties.
Context {F : Type} {num : Number F}.

Lemma place_bet_cases (a a' : Account.t F) (amount : F) (ok : bool) :
  Account.place_bet a amount = (a', ok) ->
  if ok then fge (Account.balance a) amount = true
  else a' = a /\ fge (Account.balance a) amount = false.
Proof.
  unfold Account.place_bet. destruct (fge (Account.balance a) amount);
    intros H; inversion H; subst; auto.
Qed.

Lemma get_bet_not_under_2 (ins : list string) :
  forall (w : World F) ins' w' bet,
    get_bet ins w = (ins', w', Ok bet) -> flt bet (fint 2) = false.
Proof.
  induction ins as [|line rest IH]; intros w ins' w' bet H; cbn [get_bet] in H;
    [discriminate|].
  destruct (parse_float line) as [x|]; [|exact (IH _ _ _ _ H)].
  destruct (flt (fround2 x) (fint 2)) eqn:Small; [exact (IH _ _ _ _ H)|].
  destruct (Account.place_bet _ _) as [a ok].
  destruct ok; [|exact (IH _ _ _ _ H)].
  inversion H; subst. exact Small.
Qed.

Lemma get_action_L_offered (actions : string) (bet : F) (ins : list string) :
  forall (w : World F) ins' w',
    get_action actions bet ins w = (ins', w', Ok "L") ->
    contains "split" actions = true.
Proof.
  induction ins as [|line rest IH]; intros w ins' w' H; cbn [get_action] in H;
    [discriminate|].
  destruct (contains "split" actions) eqn:C; [reflexivity|]. cbn [negb andb] in H.
  destruct (upper line =? "L")%string eqn:L; [exact (IH _ _ _ H)|].
  destruct (in_list (upper line) _); [|exact (IH _ _ _ H)].
  destruct (action_allowed _ _ _) as [a ok].
  destruct ok; [|exact (IH _ _ _ H)].
  inversion H as [[E1 E2 E3]]. rewrite E3 in L. discriminate L.
Qed.

(** X8: a bet returned by [get_bet] is a line that [float] accepts, rounded
    to two decimals, not under 2 and covered by the balance; the account is
    the one [place_bet] leaves for that bet, the lines refused before having
    changed nothing; the shoe is untouched. *)
Theorem get_bet_returns_valid_bet (ins : list string) :
  forall (w : World F) ins' w' bet,
    get_bet ins w = (ins', w', Ok bet) ->
    flt bet (fint 2) = false /\
    fge (Account.balance (account w)) bet = true /\
    Account.place_bet (account w) bet = (account w', true) /\
    shoe w' = shoe w /\
    exists skipped line x,
      ins = skipped ++ line :: ins' /\ parse_float line = Some x /\ bet = fround2 x.
Proof.
  induction ins as [|line rest IH]; intros w ins' w' bet H; cbn [get_bet] in H;
    [discriminate|].
  assert (forall w2, account w2 = account w -> shoe w2 = shoe w ->
            get_bet rest w2 = (ins', w', Ok bet) ->
            flt bet (fint 2) = false /\
            fge (Account.balance (account w)) bet = true /\
            Account.place_bet (account w) bet = (account w', true) /\
            shoe w' = shoe w /\
            exists skipped line0 x,
              line :: rest = skipped ++ line0 :: ins' /\
              parse_float line0 = Some x /\ bet = fround2 x) as Again.
  { intros w2 Ea Es H2. apply IH in H2.
    destruct H2 as (B & G & P & S & sk & l0 & x & E & Px & Ex).
    rewrite Ea in G, P. rewrite Es in S. repeat split; try assumption.
    exists (line :: sk), l0, x. subst rest. repeat split; assumption. }
  destruct (parse_float line) as [x|] eqn:Px;
    [|eapply Again; [| |exact H]; reflexivity].
  destruct (flt (fround2 x) (fint 2)) eqn:Small;
    [eapply Again; [| |exact H]; reflexivity|].
  cbn [account emit] in H.
  destruct (Account.place_bet (account w) (fround2 x)) as [a ok] eqn:PB.
  pose proof (place_bet_cases _ _ PB) as C. destruct ok.
  - inversion H; subst. cbn [account set_account emit].
    repeat split; try assumption.
    exists [], line, x. repeat split. exact Px.
  - destruct C as [-> _]. eapply Again; [| |exact H]; reflexivity.
Qed.

(** X9: the action returned by [get_action] is H, S or D, or L when the
    prompt offers a split; for D and L the bet has been placed a second time
    and covered by the balance, for H and S the account is as it was; the
    shoe is untouched. *)
Theorem get_action_returns_legal_action (actions : string) (bet : F)
    (ins : list string) :
  forall (w : World F) ins' w' action,
    get_action actions bet ins w = (ins', w', Ok action) ->
    (in_list action ["H"; "S"; "D"] = true \/
     (action = "L" /\ contains "split" actions = true)) /\
    (if in_list action ["H"; "S"] then account w' = account w
     else Account.place_bet (account w) bet = (account w', true)) /\
    shoe w' = shoe w.
Proof.
  induction ins as [|line rest IH]; intros w ins' w' action H;
    cbn [get_action] in H; [discriminate|].
  assert (forall w2, account w2 = account w -> shoe w2 = shoe w ->
            get_action actions bet rest w2 = (ins', w', Ok action) ->
            (in_list action ["H"; "S"; "D"] = true \/
             (action = "L" /\ contains "split" actions = true)) /\
            (if in_list action ["H"; "S"] then account w' = account w
             else Account.place_bet (account w) bet = (account w', true)) /\
            shoe w' = shoe w) as Again.
  { intros w2 Ea Es H2. apply IH in H2. rewrite Ea, Es in H2. exact H2. }
  destruct (negb (contains "split" actions) && (upper line =? "L")%string);
    [eapply Again; [| |exact H]; reflexivity|].
  destruct (in_list (upper line) _) eqn:Opt;
    [|eapply Again; [| |exact H]; reflexivity].
  cbn [account emit] in H.
  destruct (action_allowed bet (upper line) (account w)) as [a ok] eqn:AA.
  unfold action_allowed in AA.
  assert (in_list (upper line) ["H"; "S"; "D"] = true \/
          (upper line = "L" /\ contains "split" actions = true)) as Legal.
  { unfold in_list in *. rewrite existsb_app in Opt.
    apply orb_true_iff in Opt. destruct Opt as [O|O]; [left; exact O|].
    destruct (contains "split" actions); [|discriminate O].
    cbn [existsb] in O. rewrite orb_false_r in O.
    apply String.eqb_eq in O. right. split; [exact O | reflexivity]. }
  destruct (in_list (upper line) ["H"; "S"]) eqn:HS.
  - inversion AA; subst. inversion H; subst. rewrite HS.
    repeat split. exact Legal.
  - destruct (in_list (upper line) ["D"; "L"]) eqn:DL.
    + pose proof (place_bet_cases _ _ AA) as C. destruct ok.
      * inversion H; subst. rewrite HS. repeat split; [exact Legal | exact AA].
      * destruct C as [-> _]. eapply Again; [| |exact H]; reflexivity.
    + inversion AA; subst. eapply Again; [| |exact H]; reflexivity.
Qed.

(** X10: a split is accepted only on a pair of equal value: when the prompt
    is the one [split_allowed] gives for the hand and [get_action] returns L,
    the first two cards of the hand have the same value. *)
Theorem split_only_on_equal_values (hand : Hand.t) (actions : string) (bet : F)
    (ins : list string) (w : World F) ins' w' :
  split_allowed hand = Ok actions ->
  get_action actions bet ins w = (ins', w', Ok "L") ->
  exists c0 c1 rest,
    Hand.cards hand = c0 :: c1 :: rest /\ Card.value c0 = Card.value c1.
Proof.
  intros SA GA. apply get_action_L_offered in GA. rename GA into L.
  unfold split_allowed in SA.
  destruct (Hand.cards hand) as [|c0 [|c1 rest]]; cbn [nth_error] in SA;
    try discriminate SA.
  destruct (Card.value c0 =? Card.value c1) eqn:V.
  - apply Z.eqb_eq in V. exists c0, c1, rest. split; [reflexivity | exact V].
  - inversion SA; subst actions. discriminate L.
Qed.

End ActionProperties.

(** ** The player's draws and the settlement of a split *)

Section HitProperties.
Context {F : Type} {num : Number F}.

Lemma draw_card_account (w w1 : World F) (r : result Card.t) :
  draw_card w = (w1, r) -> account w1 = account w.
Proof.
  unfold draw_card.
  destruct (Deck.draw_card (deck w) (rng w)) as [[out [d g]] r0].
  intros H. inversion H. reflexivity.
Qed.

Lemma hit_card_ok (hand d_hand hand1 : Hand.t) (w w1 : World F) :
  hit_card hand d_hand w = (w1, Ok hand1) ->
  exists c, hand1 = Hand.add_card hand c /\
            shoe w1 = after_draw (shoe w) /\ account w1 = account w.
Proof.
  unfold hit_card, bindW, retW.
  destruct (draw_card w) as [wa [c|e]] eqn:D; [|discriminate].
  pose proof (draw_card_account _ D) as A0. apply draw_card_shoe in D.
  destruct (print bar wa) as [wb [[]|e]] eqn:P1; [|discriminate].
  apply print_shoe in P1. destruct P1 as (S1 & A1 & _).
  destruct (show "Dealer:" d_hand wb) as [wc [[]|e]] eqn:P2; [|discriminate].
  apply show_shoe in P2. destruct P2 as (S2 & A2).
  destruct (show "Hand:" (Hand.add_card hand c) wc) as [wd [[]|e]] eqn:P3;
    [|discriminate].
  apply show_shoe in P3. destruct P3 as (S3 & A3).
  intros H. inversion H; subst. exists c. repeat split; congruence.
Qed.





Lemma check_winner_message (hand d_hand : Hand.t) (a : Account.t F) (bet : F)
    (split : Z) :
  In (first_line (snd (check_winner hand d_hand a bet split)))
     ["You win!"; "Dealer wins."; "Push!"].
Proof.
  unfold check_winner.
  destruct (Hand.value d_hand <? Hand.value hand); [left; reflexivity|].
  destruct (Hand.value hand <? Hand.value d_hand);
    [right; left; reflexivity | right; right; left; reflexivity].
Qed.

Ltac settle_step :=
  cbv beta iota zeta;
  repeat (match goal with
          | |- context [check_winner ?h ?dh ?a ?b 1] =>
              let E := fresh "E" in
              pose proof (check_winner_message h dh a b 1) as E;
              destruct (check_winner h dh a b 1) as [? ?];
              cbn [snd fst] in E
          end; cbv beta iota zeta).

(** X12: the closing lines of [split] fail with [UnboundLocalError] exactly
    when one of the two hands is bust, the other hand having been settled
    before; when neither is bust both results are written. *)
Theorem split_settle_unbound_iff_bust (p1 p2 d : Hand.t) (a1 a2 : option string)
    (bet : F) (ins : list string) (w : World F) :
  (snd (split_settle p1 p2 d a1 a2 bet ins w) = Raise UnboundLocalError <->
   Hand.is_bust p1 || Hand.is_bust p2 = true) /\
  (Hand.is_bust p1 || Hand.is_bust p2 = false ->
   exists m1 m2,
     In m1 ["You win!"; "Dealer wins."; "Push!"] /\
     In m2 ["You win!"; "Dealer wins."; "Push!"] /\
     In (Print ("Hand 1: " ++ m1 ++ nl ++ "Hand 2: " ++ m2)%string)
        (stdout (snd (fst (split_settle p1 p2 d a1 a2 bet ins w))))).
Proof.
  unfold split_settle, bind, liftW, on_account, ret, raise, input, print.
  destruct (Hand.is_bust p1), (Hand.is_bust p2), (Hand.is_bust d),
    (is_D a1), (is_D a2); cbn [negb orb]; settle_step;
    destruct ins; cbv beta iota zeta; cbn [fst snd];
    (split; [split; intros; (reflexivity || discriminate)|]);
    intros N; try discriminate N;
    do 2 eexists;
    (split; [|split;
       [|cbn [stdout emit set_account]; rewrite !in_app_iff; cbn [In];
         left; right; left; reflexivity]]);
    first [assumption | left; reflexivity].
Qed.

End HitProperties.

(** ** Relations kept between the account before and after *)

Section RelationProperties.
Context {F : Type} {num : Number F}.
Variable R : Account.t F -> Account.t F -> Prop.
Hypothesis R_refl : forall a, R a a.
Hypothesis R_trans : forall a b c, R a b -> R b c -> R a c.
Hypothesis R_place_bet : forall amount, account_rel R (fun a => Account.place_bet a amount).

Lemma rel_retW {A : Type} (a : A) : W_rel R (retW (F := F) a).
Proof. intros w. apply R_refl. Qed.

Lemma rel_bindW {A B : Type} (m : W F A) (k : A -> W F B) :
  W_rel R m -> (forall a, W_rel R (k a)) -> W_rel R (bindW m k).
Proof.
  intros Hm Hk w. unfold bindW. specialize (Hm w).
  destruct (m w) as [w1 [a|e]]; cbn [fst] in *.
  - eapply R_trans; [exact Hm | apply Hk].
  - exact Hm.
Qed.

Lemma rel_print (s : string) : W_rel R (print (F := F) s).
Proof. intros w. apply R_refl. Qed.

Lemma rel_show (s : string) (h : Hand.t) : W_rel R (show (F := F) s h).
Proof. intros w. unfold show. destruct (Hand.cards h); apply R_refl. Qed.

Lemma rel_draw_card : W_rel R (draw_card (F := F)).
Proof.
  intros w. unfold draw_card.
  destruct (Deck.draw_card (deck w) (rng w)) as [[out [d g]] r]. apply R_refl.
Qed.

Lemma rel_on_account {A : Type} (f : Account.t F -> Account.t F * A) :
  account_rel R f -> W_rel R (on_account f).
Proof.
  intros Hf w. unfold on_account. specialize (Hf (account w)).
  destruct (f (account w)) as [a x]. exact Hf.
Qed.

Lemma rel_ret {A : Type} (a : A) : IO_rel R (ret (F := F) a).
Proof. intros ins w. apply R_refl. Qed.

Lemma rel_raise {A : Type} (e : exn) : IO_rel R (raise (F := F) (A := A) e).
Proof. intros ins w. apply R_refl. Qed.

Lemma rel_bind {A B : Type} (m : IO F A) (k : A -> IO F B) :
  IO_rel R m -> (forall a, IO_rel R (k a)) -> IO_rel R (bind m k).
Proof.
  intros Hm Hk ins w. unfold bind. specialize (Hm ins w).
  destruct (m ins w) as [[ins1 w1] [a|e]]; cbn [fst snd] in *.
  - eapply R_trans; [exact Hm | apply Hk].
  - exact Hm.
Qed.

Lemma rel_liftW {A : Type} (m : W F A) : W_rel R m -> IO_rel R (liftW m).
Proof.
  intros Hm ins w. unfold liftW. specialize (Hm w).
  destruct (m w) as [w1 r]. exact Hm.
Qed.

Lemma rel_input (prompt : string) : IO_rel R (input (F := F) prompt).
Proof. intros ins w. unfold input. destruct ins; apply R_refl. Qed.

Lemma rel_index {A : Type} (l : list A) (i : nat) : IO_rel R (index (F := F) l i).
Proof. unfold index. destruct (nth_error l i); [apply rel_ret | apply rel_raise]. Qed.

Lemma rel_action_allowed (bet : F) (action : string) :
  account_rel R (action_allowed bet action).
Proof.
  intros a. unfold action_allowed.
  destruct (in_list action ["H"; "S"]); [apply R_refl|].
  destruct (in_list action ["D"; "L"]); [apply R_place_bet | apply R_refl].
Qed.

Lemma rel_get_bet : IO_rel R (get_bet (F := F)).
Proof.
  intros ins. induction ins as [|line rest IH]; intros w; cbn [get_bet].
  - apply R_refl.
  - destruct (parse_float line) as [x|]; [|apply (IH (emit _ (emit _ w)))].
    destruct (flt (fround2 x) (fint 2)); [apply (IH (emit _ (emit _ w)))|].
    pose proof (R_place_bet (fround2 x) (account w)) as K.
    cbn [account emit] in *.
    destruct (Account.place_bet (account w) (fround2 x)) as [a ok].
    cbn [fst] in K. destruct ok; [exact K|].
    eapply R_trans; [exact K|]. apply (IH (emit _ (set_account a _))).
Qed.

Lemma rel_get_action (actions : string) (bet : F) : IO_rel R (get_action actions bet).
Proof.
  intros ins. induction ins as [|line rest IH]; intros w; cbn [get_action].
  - apply R_refl.
  - destruct (negb (contains "split" actions) && (upper line =? "L")%string);
      [apply (IH (emit _ (emit _ w)))|].
    destruct (in_list (upper line) _); [|apply (IH (emit _ (emit _ w)))].
    pose proof (rel_action_allowed bet (upper line) (account w)) as K.
    cbn [account emit] in *.
    destruct (action_allowed bet (upper line) (account w)) as [a ok].
    cbn [fst] in K. destruct ok; [exact K|].
    eapply R_trans; [exact K|]. apply (IH (emit _ (set_account a _))).
Qed.

Ltac rel_W :=
  repeat first
    [ apply rel_bindW | apply rel_draw_card | apply rel_print
    | apply rel_show | apply rel_retW
    | match goal with |- forall _, W_rel _ _ => intro end ].

Lemma rel_hit_card (hand d_hand : Hand.t) : W_rel R (hit_card (F := F) hand d_hand).
Proof. unfold hit_card. rel_W. Qed.

Lemma rel_dealer_card (hand d_hand : Hand.t) : W_rel R (dealer_card (F := F) hand d_hand).
Proof. unfold dealer_card. rel_W. Qed.

Lemma rel_split_dealer_card (hand1 hand2 d_hand : Hand.t) :
  W_rel R (split_dealer_card (F := F) hand1 hand2 d_hand).
Proof. unfold split_dealer_card. rel_W. Qed.

Lemma rel_show3 (d h1 h2 : Hand.t) : W_rel R (show3 (F := F) d h1 h2).
Proof. unfold show3. rel_W. Qed.

Lemma rel_dealer_play (hand d_hand : Hand.t) : IO_rel R (dealer_play (F := F) hand d_hand).
Proof.
  intros ins. revert d_hand.
  induction ins as [|line rest IH]; intros d_hand w; rewrite dealer_play_eq;
    (destruct (Hand.value d_hand <? 17); [|apply R_refl]);
    pose proof (rel_dealer_card hand d_hand w) as K;
    (destruct (dealer_card hand d_hand w) as [w1 [d1|e]]; cbn [fst] in K;
     [|exact K]);
    (destruct (Hand.is_bust d1); [exact K|]);
    (destruct (Hand.value d1 <? 17); [|exact K]); cbv zeta.
  - exact K.
  - eapply R_trans; [exact K|]. apply (IH d1 (emit _ w1)).
Qed.

Lemma rel_split_dealer_play (hand1 hand2 d_hand : Hand.t) :
  IO_rel R (split_dealer_play (F := F) hand1 hand2 d_hand).
Proof.
  intros ins. revert d_hand.
  induction ins as [|line rest IH]; intros d_hand w; rewrite split_dealer_play_eq;
    (destruct (Hand.value d_hand <? 17); [|apply R_refl]);
    pose proof (rel_split_dealer_card hand1 hand2 d_hand w) as K;
    (destruct (split_dealer_card hand1 hand2 d_hand w) as [w1 [d1|e]];
     cbn [fst] in K; [|exact K]);
    (destruct (Hand.is_bust d1); [exact K|]);
    (destruct (Hand.value d1 <? 17); [|exact K]); cbv zeta.
  - exact K.
  - eapply R_trans; [exact K|]. apply (IH d1 (emit _ w1)).
Qed.

Lemma rel_hit_aux (n : nat) :
  forall (ins : list string) (hand d_hand : Hand.t) (w : World F),
    (length ins < n)%nat ->
    R (account w) (account (snd (fst (hit hand d_hand ins w)))).
Proof.
  induction n as [|n IH]; intros ins hand d_hand w Len; [lia|].
  rewrite hit_eq.
  pose proof (rel_hit_card hand d_hand w) as K.
  destruct (hit_card hand d_hand w) as [w1 [hand1|e]]; cbn [fst] in K; [|exact K].
  destruct (Hand.is_bust hand1); [exact K|].
  eapply R_trans; [exact K|]. clear K. revert w1.
  induction ins as [|line rest IHins]; intros w1; cbn [hit_ask].
  - apply R_refl.
  - cbn [length] in Len.
    destruct (in_list (upper line) ["H"; "S"]).
    + destruct (upper line =? "S")%string; [apply R_refl|].
      apply (IH rest hand1 d_hand (emit _ w1)). lia.
    + apply (IHins ltac:(lia) (emit _ (emit _ w1))).
Qed.

Lemma rel_hit (hand d_hand : Hand.t) : IO_rel R (hit (F := F) hand d_hand).
Proof. intros ins w. apply (rel_hit_aux (n := S (length ins))). lia. Qed.

Ltac rel_IO :=
  repeat first
    [ apply rel_bind | apply rel_liftW | apply rel_ret | apply rel_raise
    | apply rel_input | apply rel_get_action | apply rel_get_bet
    | apply rel_hit | apply rel_dealer_play | apply rel_split_dealer_play
    | apply rel_show3 | apply rel_index
    | apply rel_bindW | apply rel_draw_card | apply rel_print
    | apply rel_show | apply rel_retW
    | match goal with
      | |- forall _, IO_rel _ _ => intro
      | |- forall _, W_rel _ _ => intro
      | |- IO_rel _ (if ?b then _ else _) => destruct b
      | |- IO_rel _ (let (_, _) := ?r in _) => destruct r
      | |- IO_rel _ (match ?x with _ => _ end) => destruct x
      end ].

Lemma rel_play_split (player_hand : Hand.t) (hand_num : Z) (dealer_hand : Hand.t)
    (bet : F) : IO_rel R (play_split player_hand hand_num dealer_hand bet).
Proof. unfold play_split. rel_IO. Qed.

End RelationProperties.

(** ** Hands won against hands played *)

Section WonProperties.
Context {F : Type} {num : Number F}.

Lemma not_won_refl (a : Account.t F) : same_or_more_not_won a a.
Proof. unfold same_or_more_not_won. lia. Qed.

Lemma not_won_trans (a b c : Account.t F) :
  same_or_more_not_won a b -> same_or_more_not_won b c -> same_or_more_not_won a c.
Proof. unfold same_or_more_not_won. lia. Qed.

Lemma not_won_place_bet (amount : F) :
  account_rel same_or_more_not_won (fun a => Account.place_bet a amount).
Proof.
  intros a. unfold same_or_more_not_won, not_won, Account.place_bet.
  destruct (fge (Account.balance a) amount); cbn; lia.
Qed.

Ltac neutral_side :=
  first [ exact not_won_refl | exact not_won_trans | exact not_won_place_bet ].

Ltac neutral :=
  repeat first
    [ neutral_side
    | apply rel_bind | apply rel_liftW | apply rel_ret | apply rel_raise
    | apply rel_input | apply rel_get_action | apply rel_get_bet
    | apply rel_hit | apply rel_dealer_play | apply rel_split_dealer_play
    | apply rel_play_split | apply rel_show3 | apply rel_index
    | apply rel_bindW | apply rel_draw_card | apply rel_print
    | apply rel_show | apply rel_retW
    | match goal with
      | |- forall _, IO_rel _ _ => intro
      | |- forall _, W_rel _ _ => intro
      | |- IO_rel _ (if ?b then _ else _) => destruct b
      | |- IO_rel _ (let (_, _) := ?r in _) => destruct r
      | |- IO_rel _ (match ?x with _ => _ end) => destruct x
      end ].

Lemma costs_neutral {A : Type} (k : Z) (m : IO F A) :
  0 <= k -> IO_rel same_or_more_not_won m -> IO_costs k m.
Proof.
  intros Hk Hm ins w. specialize (Hm ins w). unfold same_or_more_not_won in Hm. lia.
Qed.

Lemma costs_bind {A B : Type} (k1 k2 : Z) (m : IO F A) (f : A -> IO F B) :
  0 <= k2 -> IO_costs k1 m -> (forall a, IO_costs k2 (f a)) ->
  IO_costs (k1 + k2) (bind m f).
Proof.
  intros Hk Hm Hf ins w. unfold bind. specialize (Hm ins w).
  destruct (m ins w) as [[ins1 w1] [a|e]]; cbn [fst snd] in *.
  - specialize (Hf a ins1 w1). lia.
  - lia.
Qed.

Lemma costs_bind_neutral {A B : Type} (k : Z) (m : IO F A) (f : A -> IO F B) :
  0 <= k -> IO_rel same_or_more_not_won m -> (forall a, IO_costs k (f a)) ->
  IO_costs k (bind m f).
Proof.
  intros Hk Hm Hf. change k with (0 + k).
  apply costs_bind; [exact Hk | apply costs_neutral; [lia | exact Hm] | exact Hf].
Qed.

Lemma costs_on_account {A : Type} (k : Z) (f : Account.t F -> Account.t F * A) :
  (forall a, not_won a - k <= not_won (fst (f a))) -> IO_costs k (liftW (on_account f)).
Proof.
  intros Hf ins w. unfold liftW, on_account. specialize (Hf (account w)).
  destruct (f (account w)) as [a x]. exact Hf.
Qed.

Lemma payoff_costs_one (bet : F) (outcome : string) (hand : Hand.t) (split : Z)
    (a : Account.t F) :
  not_won a - 1 <= not_won (calculate_payoff bet outcome a hand split).
Proof.
  unfold calculate_payoff, Account.game_won, not_won.
  destruct (outcome =? "push")%string; [cbn; lia|].
  destruct (outcome =? "win")%string; [|lia].
  destruct (Hand.is_blackjack hand && not_ split); cbn; lia.
Qed.

Lemma check_winner_costs_one (hand d_hand : Hand.t) (bet : F) (split : Z)
    (a : Account.t F) :
  not_won a - 1 <= not_won (fst (check_winner hand d_hand a bet split)).
Proof.
  unfold check_winner.
  destruct (Hand.value d_hand <? Hand.value hand); [apply payoff_costs_one|].
  destruct (Hand.value hand <? Hand.value d_hand); [cbn; lia|].
  apply payoff_costs_one.
Qed.

Lemma incr_costs : IO_costs (-1) (liftW (on_account (incr_games_played (F := F)))).
Proof. apply costs_on_account. intros a. unfold not_won. cbn. lia. Qed.

Ltac pays_once :=
  first
    [ apply costs_on_account; intros ?; apply check_winner_costs_one
    | apply costs_on_account; intros ?; apply payoff_costs_one ].

Lemma costs_dealer_then_settle (player_hand dealer_hand : Hand.t) (bet : F) :
  IO_costs 1 (dealer_then_settle player_hand dealer_hand bet).
Proof.
  unfold dealer_then_settle.
  apply costs_bind_neutral; [lia | neutral|]. intros [ok d].
  destruct (negb ok); change 1 with (1 + 0); apply costs_bind;
    try lia; try pays_once; intros ?; apply costs_neutral; try lia; neutral.
Qed.

Lemma costs_split_settle (p1 p2 d : Hand.t) (a1 a2 : option string) (bet : F) :
  IO_costs 2 (split_settle p1 p2 d a1 a2 bet).
Proof.
  assert (forall (p : Hand.t) (a : option string),
    IO_costs 1
      (if Hand.is_bust d then
         if negb (Hand.is_bust p) then
           (if is_D a then
              liftW (on_account (fun acc =>
                (calculate_payoff (fmul bet (fint 2)) "win" acc p 1, tt)))
            else
              liftW (on_account (fun acc =>
                (calculate_payoff bet "win" acc p 1, tt)))) ;;
           ret (Some "You win!")
         else ret None
       else
         if negb (Hand.is_bust p) then
           message <-
             (if is_D a then
                liftW (on_account (fun acc =>
                  check_winner p d acc (fmul bet (fint 2)) 1))
              else
                liftW (on_account (fun acc =>
                  check_winner p d acc bet 1))) ;;
           ret (Some (first_line message))
         else ret None)) as Settle.
  { intros p a.
    destruct (Hand.is_bust d), (negb (Hand.is_bust p));
      try (apply costs_neutral; [lia | solve [neutral]]);
      change 1 with (1 + 0); (apply costs_bind; [lia | |]);
      try (destruct (is_D a); pays_once);
      intros ?; apply costs_neutral; try lia; neutral. }
  unfold split_settle. cbv zeta. change 2 with (1 + 1).
  apply costs_bind; [lia | apply Settle|]. intros m1.
  change 1 with (1 + 0). apply costs_bind; [lia | apply Settle|]. intros m2.
  apply costs_neutral; [lia|]. neutral.
Qed.

Ltac costs_chain :=
  repeat first
    [ apply costs_dealer_then_settle | apply costs_split_settle
    | apply costs_neutral; [lia | solve [neutral]]
    | apply costs_bind_neutral; [lia | solve [neutral] | intro]
    | match goal with
      | |- IO_costs _ (if ?b then _ else _) => destruct b
      | |- IO_costs _ (let (_, _) := ?r in _) => destruct r
      end ].

Lemma costs_split (hand dealer_hand : Hand.t) (bet : F) :
  IO_costs 1 (split hand dealer_hand bet).
Proof.
  unfold split. change 1 with (-1 + 2).
  apply costs_bind; [lia | apply incr_costs|]. intros _. costs_chain.
Qed.

(** X13: a round never adds more to the hands won than to the hands played:
    whatever is typed and however the round ends, the count of hands won goes
    up by no more than the count of hands played does, so a win rate that is
    at most 100 per cent stays so. *)
Theorem round_wins_at_most_hands_played (ins : list string) (w : World F) :
  let a := account w in
  let a' := account (snd (fst (play_game ins w))) in
  Account.games_won a' - Account.games_won a <=
  Account.games_played a' - Account.games_played a.
Proof.
  assert (IO_costs 0 (play_game (F := F))) as K.
  { unfold play_game. change 0 with (-1 + 1).
    apply costs_bind; [lia | apply incr_costs|]. intros _.
    costs_chain. apply costs_split. }
  specialize (K ins w). unfold not_won in K. cbv zeta. lia.
Qed.

End WonProperties.

(** ** Relations kept by a whole round *)

Section RoundRelation.
Context {F : Type} {num : Number F}.
Variable R : Account.t F -> Account.t F -> Prop.
Variable good : F -> Prop.
Hypothesis R_refl : forall a, R a a.
Hypothesis R_trans : forall a b c, R a b -> R b c -> R a c.
Hypothesis R_place_bet : forall amount, account_rel R (fun a => Account.place_bet a amount).
Hypothesis R_incr : account_rel R (incr_games_played (F := F)).
Hypothesis R_payoff :
  forall bet, good bet ->
  forall outcome hand split a, R a (calculate_payoff bet outcome a hand split).
Hypothesis good_double : forall bet, good bet -> good (fmul bet (fint 2)).
Hypothesis good_bet : forall bet, flt bet (fint 2) = false -> good bet.

Ltac round_side :=
  first [ exact R_refl | exact R_trans | exact R_place_bet | exact R_incr ].

Ltac round_rel :=
  repeat first
    [ round_side
    | apply rel_bind | apply rel_liftW | apply rel_ret | apply rel_raise
    | apply rel_input | apply rel_get_action | apply rel_get_bet
    | apply rel_hit | apply rel_dealer_play | apply rel_split_dealer_play
    | apply rel_play_split | apply rel_show3 | apply rel_index
    | apply rel_on_account
    | apply rel_bindW | apply rel_draw_card | apply rel_print
    | apply rel_show | apply rel_retW
    | match goal with
      | |- forall _, IO_rel _ _ => intro
      | |- forall _, W_rel _ _ => intro
      | |- IO_rel _ (if ?b then _ else _) => destruct b
      | |- IO_rel _ (let (_, _) := ?r in _) => destruct r
      | |- IO_rel _ (match ?x with _ => _ end) => destruct x
      end ].

Lemma rel_payoff (bet : F) (outcome : string) (hand : Hand.t) (split : Z) :
  good bet ->
  account_rel R (fun a => (calculate_payoff bet outcome a hand split, tt)).
Proof. intros G a. apply R_payoff. exact G. Qed.

Lemma rel_check_winner (hand d_hand : Hand.t) (bet : F) (split : Z) :
  good bet -> account_rel R (fun a => check_winner hand d_hand a bet split).
Proof.
  intros G a. unfold check_winner.
  destruct (Hand.value d_hand <? Hand.value hand); [apply R_payoff; exact G|].
  destruct (Hand.value hand <? Hand.value d_hand); [apply R_refl|].
  apply R_payoff. exact G.
Qed.

Lemma rel_dealer_then_settle (player_hand dealer_hand : Hand.t) (bet : F) :
  good bet -> IO_rel R (dealer_then_settle player_hand dealer_hand bet).
Proof.
  intros G. unfold dealer_then_settle. round_rel.
  - apply rel_payoff. exact G.
  - apply rel_check_winner. exact G.
Qed.

Lemma rel_split_settle (p1 p2 d : Hand.t) (a1 a2 : option string) (bet : F) :
  good bet -> IO_rel R (split_settle p1 p2 d a1 a2 bet).
Proof.
  intros G. pose proof (good_double G) as G2.
  unfold split_settle. cbv zeta. round_rel.
  all: first [ apply rel_payoff; assumption | apply rel_check_winner; assumption ].
Qed.

Lemma rel_split (hand dealer_hand : Hand.t) (bet : F) :
  good bet -> IO_rel R (split hand dealer_hand bet).
Proof.
  intros G. pose proof (good_double G) as G2. unfold split. round_rel.
  all: first [ apply rel_payoff; assumption | apply rel_check_winner; assumption ].
Qed.

(** The continuation of a run may rely on what is known of the value
    returned. *)
Lemma rel_bind_post {A B : Type} (Q : A -> Prop) (m : IO F A) (k : A -> IO F B) :
  IO_rel R m ->
  (forall ins w ins' w' a, m ins w = (ins', w', Ok a) -> Q a) ->
  (forall a, Q a -> IO_rel R (k a)) ->
  IO_rel R (bind m k).
Proof.
  intros Hm HQ Hk ins w. unfold bind. specialize (Hm ins w). specialize (HQ ins w).
  destruct (m ins w) as [[ins1 w1] [a|e]]; cbn [fst snd] in *.
  - eapply R_trans; [exact Hm|]. apply Hk. eapply HQ. reflexivity.
  - exact Hm.
Qed.

Lemma rel_play_game : IO_rel R (play_game (F := F)).
Proof.
  unfold play_game. apply rel_bind; [exact R_trans | round_rel|]. intros _.
  apply (rel_bind_post good).
  - round_rel.
  - intros ins w ins' w' bet H. apply get_bet_not_under_2 in H.
    apply good_bet. exact H.
  - intros bet G. pose proof (good_double G) as G2. round_rel.
    all: first [ apply rel_payoff; assumption | apply rel_check_winner; assumption ].
Qed.

End RoundRelation.

(** ** A balance that is not negative *)

(** X14: a round leaves a balance that is not negative not negative,
    whatever is typed and however the round ends, in any arithmetic in which
    taking a covered amount off an amount leaves no less than zero, the sum
    of two amounts that are not negative is not negative, an amount of at
    least 2 is not negative, and doubling an amount that is not negative, or
    rounding two and a half times it, gives no negative amount. *)
Theorem round_keeps_balance_nonneg {F : Type} {num : Number F} :
  (forall a b : F, fge a b = true -> nonneg (fsub a b)) ->
  (forall a b : F, nonneg a -> nonneg b -> nonneg (fadd a b)) ->
  (forall b : F, flt b (fint 2) = false -> nonneg b) ->
  (forall b : F, nonneg b ->
     nonneg (fmul (fint 2) b) /\ nonneg (fmul b (fint 2)) /\
     nonneg (fround2 (fmul f2_5 b))) ->
  forall (ins : list string) (w : World F),
    nonneg (Account.balance (account w)) ->
    nonneg (Account.balance (account (snd (fst (play_game ins w))))).
Proof.
  intros L1 L2 L3 L4 ins w.
  apply (@rel_play_game F num balance_stays_nonneg nonneg).
  - intros a H. exact H.
  - intros a b c Hab Hbc H. apply Hbc, Hab, H.
  - intros amount a. unfold balance_stays_nonneg, Account.place_bet.
    destruct (fge (Account.balance a) amount) eqn:E; cbn [fst Account.balance].
    + intros _. apply L1. exact E.
    + intros H. exact H.
  - intros a H. exact H.
  - intros bet G outcome hand split a. unfold balance_stays_nonneg, calculate_payoff.
    destruct (L4 bet G) as (D1 & _ & B).
    destruct (outcome =? "push")%string; cbn [Account.balance];
      [intros H; apply L2; assumption|].
    destruct (outcome =? "win")%string; [|intros H; exact H].
    destruct (Hand.is_blackjack hand && not_ split);
      unfold Account.game_won; cbn [Account.balance]; intros H; apply L2; assumption.
  - intros bet G. apply (L4 bet G).
  - exact L3.
Qed.

Lemma Q_nonneg_le (x : Q) : nonneg x <-> (0 <= x)%Q.
Proof. unfold nonneg. cbn [fge fint Exact.number]. apply Qle_bool_iff. Qed.

Lemma Q_nonneg_Qred (x : Q) : (0 <= x)%Q -> nonneg (Qred x).
Proof. intros H. apply Q_nonneg_le. rewrite Qred_correct. exact H. Qed.

Lemma exact_sub_covered (a b : Q) : fge a b = true -> nonneg (fsub a b).
Proof.
  cbn [fge fsub Exact.number]. rewrite Qle_bool_iff. intros H.
  apply Q_nonneg_Qred. unfold Qminus. rewrite <- (Qplus_opp_r b).
  apply Qplus_le_compat; [exact H | apply Qle_refl].
Qed.

Lemma exact_add_nonneg (a b : Q) : nonneg a -> nonneg b -> nonneg (fadd a b).
Proof.
  intros Ha Hb. apply Q_nonneg_le in Ha, Hb. cbn [fadd Exact.number].
  apply Q_nonneg_Qred. change 0%Q with (0 + 0)%Q. apply Qplus_le_compat; assumption.
Qed.

Lemma exact_bet_nonneg (b : Q) : flt b (fint 2) = false -> nonneg b.
Proof.
  cbn [flt fint Exact.number]. intros H. apply negb_false_iff in H.
  apply Qle_bool_iff in H. apply Q_nonneg_le.
  eapply Qle_trans; [|exact H]. discriminate.
Qed.

Lemma exact_round2_nonneg (x : Q) : (0 <= x)%Q -> nonneg (Exact.round2 x).
Proof.
  intros H. assert (0 <= Qnum x) as N.
  { unfold Qle in H. cbn in H. lia. }
  unfold Exact.round2. apply Q_nonneg_Qred.
  set (d := Z.pos (Qden x)). set (n := Qnum x * 100).
  assert (0 <= n / d) as Q0 by (apply Z.div_pos; subst n d; lia).
  unfold Qle. cbn [Qnum Qden].
  destruct (2 * (n mod d) <? d); [lia|].
  destruct (d <? 2 * (n mod d)); [lia|].
  destruct (Z.even (n / d)); lia.
Qed.

Lemma exact_payoffs_nonneg (b : Q) :
  nonneg b ->
  nonneg (fmul (fint 2) b) /\ nonneg (fmul b (fint 2)) /\
  nonneg (fround2 (fmul f2_5 b)).
Proof.
  intros H. apply Q_nonneg_le in H. cbn [fmul fint fround2 f2_5 Exact.number].
  split; [|split].
  - apply Q_nonneg_Qred. apply Qmult_le_0_compat; [discriminate | exact H].
  - apply Q_nonneg_Qred. apply Qmult_le_0_compat; [exact H | discriminate].
  - apply exact_round2_nonneg. rewrite Qred_correct.
    apply Qmult_le_0_compat; [discriminate | exact H].
Qed.

Lemma round_keeps_balance_nonneg_witness :
  nonneg (Account.balance (account world0)) /\
  nonneg (Account.balance (account (snd (fst (play_game ["10"; "s"; ""] world0))))).
Proof.
  assert (nonneg (Account.balance (account world0))) as H by reflexivity.
  split; [exact H|].
  apply (round_keeps_balance_nonneg exact_sub_covered exact_add_nonneg
           exact_bet_nonneg exact_payoffs_nonneg). exact H.
Defined.

(** ** The display of cards and hands *)

Lemma get_lines_shape (c : Card.t) :
  length (Display.get_lines c) = 9%nat /\
  forallb Display.card_line (Display.get_lines c) = true.
Proof. destruct c as [[] []]; vm_compute; split; reflexivity. Qed.

Lemma card_line_spec (l : Display.text) :
  Display.card_line l = true ->
  length l = 13%nat /\
  (exists l' x, l = l' ++ [x] /\ Display.is_space x = false) /\
  ~ In Display.NL l.
Proof.
  unfold Display.card_line. intros H.
  apply andb_true_iff in H. destruct H as [H Hnl].
  apply andb_true_iff in H. destruct H as [Hlen Hlast].
  apply Nat.eqb_eq in Hlen. apply negb_true_iff in Hlast.
  split; [exact Hlen|]. split.
  - exists (removelast l), (last l Display.SP). split; [|exact Hlast].
    apply app_removelast_last. intros ->. discriminate Hlen.
  - intros I. rewrite forallb_forall in Hnl. specialize (Hnl _ I).
    rewrite N.eqb_refl in Hnl. discriminate Hnl.
Qed.

Lemma rstrip_two_spaces (y : Display.text) (x : N) :
  Display.is_space x = false ->
  Display.rstrip ((y ++ [x]) ++ [Display.SP; Display.SP]) = y ++ [x].
Proof.
  intros H. unfold Display.rstrip. rewrite !rev_app_distr.
  cbn [rev app Display.lstrip]. change (Display.is_space Display.SP) with true.
  cbv iota. rewrite H. cbn [rev]. rewrite rev_involutive. reflexivity.
Qed.

Lemma fold_left_blocks (f : list Display.text -> Display.text)
    (ls : list (list Display.text)) (acc : Display.text) :
  fold_left (fun line cl => (line ++ f cl) ++ [Display.SP; Display.SP]) ls acc =
  acc ++ concat (map (fun cl => f cl ++ [Display.SP; Display.SP]) ls).
Proof.
  revert acc. induction ls as [|cl ls IH]; intros acc; cbn [fold_left map concat].
  - rewrite app_nil_r. reflexivity.
  - rewrite IH, <- !app_assoc. reflexivity.
Qed.

(** A row of blocks, each followed by two spaces and the whole stripped on
    the right, when every block is a line of card art. *)
Lemma row_of_blocks (bs : list Display.text) :
  bs <> [] -> Forall (fun b => Display.card_line b = true) bs ->
  let row := Display.rstrip
               (concat (map (fun b => b ++ [Display.SP; Display.SP]) bs)) in
  length row = (15 * length bs - 2)%nat /\ ~ In Display.NL row.
Proof.
  unfold Display.text in *. intros Hne Hall.
  destruct bs as [|b0 bs0] using rev_ind; [contradiction|]. clear IHbs0 Hne.
  apply Forall_app in Hall. destruct Hall as [Hbs Hb].
  inversion Hb as [|? ? Hb0 _]; subst.
  destruct (card_line_spec _ Hb0) as (Len & (b' & x & -> & Sx) & Nnl).
  cbv zeta. rewrite map_app, concat_app. cbn [map concat]. rewrite app_nil_r.
  match goal with
  | |- context [Display.rstrip (?X ++ (b' ++ [x]) ++ ?S)] =>
      replace (X ++ (b' ++ [x]) ++ S) with (((X ++ b') ++ [x]) ++ S)
        by (rewrite <- !app_assoc; reflexivity)
  end.
  rewrite rstrip_two_spaces by exact Sx.
  rewrite <- app_assoc.
  assert (length (concat (map (fun b => b ++ [Display.SP; Display.SP]) bs0)) =
          (15 * length bs0)%nat /\
          ~ In Display.NL (concat (map (fun b => b ++ [Display.SP; Display.SP]) bs0)))
    as [L N].
  { clear -Hbs. induction Hbs as [|b bs Hb Hbs [IHl IHn]]; cbn [map concat length].
    - split; [reflexivity | intros []].
    - destruct (card_line_spec _ Hb) as (Len & _ & Nnl).
      rewrite !length_app, IHl, Len. cbn [length]. split; [lia|].
      rewrite !in_app_iff. cbn [In]. unfold Display.SP, Display.NL in *.
      intros [[I|[I|[I|[]]]]|I]; try discriminate I; auto. }
  rewrite length_app in Len. rewrite !length_app, L. cbn [length] in *.
  split; [lia|].
  rewrite in_app_iff. intros [I|I]; auto.
Qed.

(** X15: a hand with [n >= 1] cards is displayed as nine lines of
    [15 * n - 2] characters each, the cards side by side and aligned: every
    card is drawn as nine lines of 13 characters, and two spaces separate the
    cards.  A hand without cards has no display, [__str__] returning
    [None]. *)
Theorem hand_display_is_aligned (h : Hand.t) :
  (Hand.cards h = [] -> Display.hand_str h = None) /\
  (Hand.cards h <> [] ->
   exists rows,
     Display.hand_str h = Some (Display.join_lines rows) /\
     length rows = 9%nat /\
     Forall (fun row => length row = (15 * length (Hand.cards h) - 2)%nat /\
                        ~ In Display.NL row) rows).
Proof.
  unfold Display.hand_str. split; [intros ->; reflexivity|]. intros Hne.
  destruct (Hand.cards h) as [|c cs] eqn:E; [contradiction|]. rewrite <- E. clear Hne.
  assert (Hand.cards h <> []) as Hne by (rewrite E; discriminate). clear E c cs.
  set (all_lines := map Display.get_lines (Hand.cards h)).
  assert (fold_right Nat.max 0%nat (map (@length Display.text) all_lines) = 9%nat) as M.
  { subst all_lines. destruct (Hand.cards h) as [|c cs]; [contradiction|].
    clear Hne. revert c. induction cs as [|c' cs IH]; intros c; cbn [map fold_right].
    - destruct (get_lines_shape c) as [-> _]. reflexivity.
    - destruct (get_lines_shape c) as [-> _]. specialize (IH c').
      cbn [map fold_right] in IH. rewrite IH. reflexivity. }
  cbv zeta. rewrite M. eexists. split; [reflexivity|].
  split; [rewrite length_map, length_seq; reflexivity|].
  apply Forall_forall. intros row Hrow. apply in_map_iff in Hrow.
  destruct Hrow as (k & <- & Hk). apply in_seq in Hk.
  unfold Display.hand_line.
  rewrite (fold_left_blocks
             (fun cl => if (k <? length cl)%nat then nth k cl [] else Display.spaces 13)).
  cbn [app]. subst all_lines. rewrite map_map.
  rewrite <- (map_map (fun c => if (k <? length (Display.get_lines c))%nat
                                then nth k (Display.get_lines c) []
                                else Display.spaces 13)
                      (fun b => b ++ [Display.SP; Display.SP])).
  match goal with |- context [map ?f (Hand.cards h)] => set (bs := map f (Hand.cards h)) end.
  assert (length bs = length (Hand.cards h)) as Lb by (subst bs; apply length_map).
  rewrite <- Lb. apply row_of_blocks.
  - intros Eb. rewrite Eb in Lb. destruct (Hand.cards h); [contradiction | discriminate Lb].
  - subst bs. apply Forall_forall. intros b Hb. apply in_map_iff in Hb.
    destruct Hb as (c & <- & _). destruct (get_lines_shape c) as [L Fa].
    rewrite L. assert ((k <? 9)%nat = true) as -> by (apply Nat.ltb_lt; lia).
    rewrite forallb_forall in Fa. apply Fa. apply nth_In. lia.
Qed.

Lemma hand_display_is_aligned_witness :
  Hand.cards (hand_of [ace_spades; king_spades]) <> [] /\
  exists rows,
    Display.hand_str (hand_of [ace_spades; king_spades]) =
      Some (Display.join_lines rows) /\
    length rows = 9%nat /\
    Forall (fun row =>
              length row = (15 * length (Hand.cards (hand_of [ace_spades; king_spades])) - 2)%nat /\
              ~ In Display.NL row) rows.
Proof.
  assert (Hand.cards (hand_of [ace_spades; king_spades]) <> []) as N
    by (vm_compute; discriminate).
  split; [exact N|].
  apply (proj2 (hand_display_is_aligned (hand_of [ace_spades; king_spades]))). exact N.
Defined.

(** ** Runs of the bet, the action and the player's draws *)

Lemma get_bet_returns_valid_bet_witness :
  let o := get_bet ["1"; "abc"; "500"; "10"; "s"] world0 in
  o = (["s"], snd (fst o), Ok (10 # 1)) /\
  Account.place_bet (account world0) (10 # 1) = (account (snd (fst o)), true).
Proof.
  assert (get_bet ["1"; "abc"; "500"; "10"; "s"] world0 =
          (["s"], snd (fst (get_bet ["1"; "abc"; "500"; "10"; "s"] world0)),
           Ok (10 # 1))) as H by (vm_compute; reflexivity).
  split; [exact H|].
  destruct (get_bet_returns_valid_bet _ _ H) as (_ & _ & P & _). exact P.
Defined.

Lemma get_action_returns_legal_action_witness :
  let o := get_action split_prompt (10 # 1) ["x"; "l"] world0 in
  o = ([], snd (fst o), Ok "L") /\
  Account.place_bet (account world0) (10 # 1) = (account (snd (fst o)), true).
Proof.
  assert (get_action split_prompt (10 # 1) ["x"; "l"] world0 =
          ([], snd (fst (get_action split_prompt (10 # 1) ["x"; "l"] world0)),
           Ok "L")) as H by (vm_compute; reflexivity).
  split; [exact H|].
  destruct (get_action_returns_legal_action _ _ _ _ H) as (_ & P & _). exact P.
Defined.

Lemma split_only_on_equal_values_witness :
  let hand := hand_of [queen_clubs; king_spades] in
  let o := get_action split_prompt (10 # 1) ["l"] world0 in
  split_allowed hand = Ok split_prompt /\
  o = ([], snd (fst o), Ok "L") /\
  exists c0 c1 rest,
    Hand.cards hand = c0 :: c1 :: rest /\ Card.value c0 = Card.value c1.
Proof.
  assert (split_allowed (hand_of [queen_clubs; king_spades]) = Ok split_prompt)
    as S by reflexivity.
  assert (get_action split_prompt (10 # 1) ["l"] world0 =
          ([], snd (fst (get_action split_prompt (10 # 1) ["l"] world0)), Ok "L"))
    as H by (vm_compute; reflexivity).
  split; [exact S|]. split; [exact H|].
  exact (split_only_on_equal_values _ _ _ _ S H).
Defined.


Lemma split_settle_unbound_iff_bust_witness :
  let p1 := hand_of [queen_clubs; king_spades] in
  let d := hand_of [king_spades; six_hearts; ace_spades] in
  Hand.is_bust p1 || Hand.is_bust p1 = false /\
  exists m1 m2,
    In m1 ["You win!"; "Dealer wins."; "Push!"] /\
    In m2 ["You win!"; "Dealer wins."; "Push!"] /\
    In (Print ("Hand 1: " ++ m1 ++ nl ++ "Hand 2: " ++ m2)%string)
       (stdout (snd (fst (split_settle p1 p1 d None None (10 # 1) [""] world0)))).
Proof.
  split; [reflexivity|].
  apply (proj2 (split_settle_unbound_iff_bust (hand_of [queen_clubs; king_spades])
                  (hand_of [queen_clubs; king_spades])
                  (hand_of [king_spades; six_hearts; ace_spades])
                  None None (10 # 1) [""] world0)).
  reflexivity.
Defined.

(** ** Counting the draws of a round *)

Section DrawProperties.
Context {F : Type} {num : Number F}.

Lemma after_draws_add (a b : nat) (x : Deck.t * Rng.t) :
  after_draws (a + b) x = after_draws b (after_draws a x).
Proof.
  unfold after_draws. revert x. induction a as [|a IH]; intros x; cbn [iter Nat.add].
  - reflexivity.
  - apply IH.
Qed.

Lemma draws_weaken {A : Type} (k k' : nat) (m : IO F A) :
  IO_draws k m -> (k <= k')%nat -> IO_draws k' m.
Proof.
  intros H L ins w. destruct (H ins w) as (j & Hj & E). exists j. split; [lia | exact E].
Qed.

Lemma draws_retW {A : Type} (a : A) : W_draws 0 (retW (F := F) a).
Proof. intros w. exists 0%nat. split; [lia | reflexivity]. Qed.

Lemma draws_bindW {A B : Type} (k1 k2 : nat) (m : W F A) (f : A -> W F B) :
  W_draws k1 m -> (forall a, W_draws k2 (f a)) -> W_draws (k1 + k2) (bindW m f).
Proof.
  intros Hm Hf w. unfold bindW. destruct (Hm w) as (j1 & L1 & E1).
  destruct (m w) as [w1 [a|e]]; cbn [fst] in *.
  - destruct (Hf a w1) as (j2 & L2 & E2). exists (j1 + j2)%nat.
    split; [lia|]. rewrite E2, E1, after_draws_add. reflexivity.
  - exists j1. split; [lia | exact E1].
Qed.

Lemma draws_print (s : string) : W_draws 0 (print (F := F) s).
Proof. intros w. exists 0%nat. split; [lia | reflexivity]. Qed.

Lemma draws_show (s : string) (h : Hand.t) : W_draws 0 (show (F := F) s h).
Proof.
  intros w. exists 0%nat. split; [lia|]. unfold show.
  destruct (Hand.cards h); reflexivity.
Qed.

Lemma draws_draw_card : W_draws 1 (draw_card (F := F)).
Proof.
  intros w. exists 1%nat. split; [lia|].
  destruct (draw_card w) as [w1 r] eqn:D. apply draw_card_shoe in D. exact D.
Qed.

Lemma draws_on_account {A : Type} (f : Account.t F -> Account.t F * A) :
  W_draws 0 (on_account f).
Proof.
  intros w. exists 0%nat. split; [lia|]. unfold on_account.
  destruct (f (account w)). reflexivity.
Qed.

Lemma draws_ret {A : Type} (a : A) : IO_draws 0 (ret (F := F) a).
Proof. intros ins w. exists 0%nat. split; [lia | reflexivity]. Qed.

Lemma draws_raise {A : Type} (e : exn) : IO_draws 0 (raise (F := F) (A := A) e).
Proof. intros ins w. exists 0%nat. split; [lia | reflexivity]. Qed.

Lemma draws_bind {A B : Type} (k1 k2 : nat) (m : IO F A) (f : A -> IO F B) :
  IO_draws k1 m -> (forall a, IO_draws k2 (f a)) -> IO_draws (k1 + k2) (bind m f).
Proof.
  intros Hm Hf ins w. unfold bind. destruct (Hm ins w) as (j1 & L1 & E1).
  destruct (m ins w) as [[ins1 w1] [a|e]]; cbn [fst snd] in *.
  - destruct (Hf a ins1 w1) as (j2 & L2 & E2). exists (j1 + j2)%nat.
    split; [lia|]. rewrite E2, E1, after_draws_add. reflexivity.
  - exists j1. split; [lia | exact E1].
Qed.

Lemma draws_liftW {A : Type} (k : nat) (m : W F A) : W_draws k m -> IO_draws k (liftW m).
Proof.
  intros Hm ins w. unfold liftW. destruct (Hm w) as (j & L & E).
  destruct (m w) as [w1 r]. exists j. split; [exact L | exact E].
Qed.

Lemma draws_input (prompt : string) : IO_draws 0 (input (F := F) prompt).
Proof.
  intros ins w. exists 0%nat. split; [lia|]. unfold input. destruct ins; reflexivity.
Qed.

Lemma draws_index {A : Type} (l : list A) (i : nat) : IO_draws 0 (index (F := F) l i).
Proof. unfold index. destruct (nth_error l i); [apply draws_ret | apply draws_raise]. Qed.

Lemma draws_if {A : Type} (k1 k2 : nat) (b : bool) (m1 m2 : IO F A) :
  IO_draws k1 m1 -> IO_draws k2 m2 -> IO_draws (Nat.max k1 k2) (if b then m1 else m2).
Proof.
  intros H1 H2. destruct b; [apply (draws_weaken H1) | apply (draws_weaken H2)]; lia.
Qed.

Lemma draws_get_bet : IO_draws 0 (get_bet (F := F)).
Proof.
  intros ins w. exists 0%nat. split; [lia|]. change (after_draws 0 (shoe w)) with (shoe w).
  revert w. induction ins as [|line rest IH]; intros w; cbn [get_bet].
  - reflexivity.
  - destruct (parse_float line) as [x|]; [|rewrite IH; reflexivity].
    destruct (flt (fround2 x) (fint 2)); [rewrite IH; reflexivity|].
    cbn [account emit].
    destruct (Account.place_bet (account w) (fround2 x)) as [a ok].
    destruct ok; [reflexivity | rewrite IH; reflexivity].
Qed.

Lemma draws_get_action (actions : string) (bet : F) :
  IO_draws 0 (get_action actions bet).
Proof.
  intros ins w. exists 0%nat. split; [lia|]. change (after_draws 0 (shoe w)) with (shoe w).
  revert w. induction ins as [|line rest IH]; intros w; cbn [get_action].
  - reflexivity.
  - destruct (negb (contains "split" actions) && (upper line =? "L")%string);
      [rewrite IH; reflexivity|].
    destruct (in_list (upper line) _); [|rewrite IH; reflexivity].
    cbn [account emit].
    destruct (action_allowed bet (upper line) (account w)) as [a ok].
    destruct ok; [reflexivity | rewrite IH; reflexivity].
Qed.

Ltac draws_W :=
  repeat first
    [ eapply draws_bindW | apply draws_draw_card | apply draws_print
    | apply draws_show | apply draws_retW
    | match goal with |- forall _, W_draws _ _ => intro end ].

Lemma draws_hit_card (hand d_hand : Hand.t) : W_draws 1 (hit_card (F := F) hand d_hand).
Proof. unfold hit_card. change 1%nat with (1 + (0 + (0 + (0 + 0))))%nat. draws_W. Qed.

Lemma draws_dealer_card (hand d_hand : Hand.t) :
  W_draws 1 (dealer_card (F := F) hand d_hand).
Proof.
  unfold dealer_card. change 1%nat with (1 + (0 + (0 + (0 + (0 + 0)))))%nat. draws_W.
Qed.

Lemma draws_split_dealer_card (hand1 hand2 d_hand : Hand.t) :
  W_draws 1 (split_dealer_card (F := F) hand1 hand2 d_hand).
Proof.
  unfold split_dealer_card.
  change 1%nat with (1 + (0 + (0 + (0 + (0 + (0 + 0))))))%nat. draws_W.
Qed.

Lemma draws_show3 (d h1 h2 : Hand.t) : W_draws 0 (show3 (F := F) d h1 h2).
Proof. unfold show3. change 0%nat with (0 + (0 + (0 + 0)))%nat. draws_W. Qed.

Lemma after_draws_one (x : Deck.t * Rng.t) : after_draw x = after_draws 1 x.
Proof. reflexivity. Qed.

Lemma not_bust_hard (cs : list Card.t) :
  Hand.is_bust (hand_of cs) = false -> hard_total cs <= 21.
Proof.
  intros B. pose proof (hand_of_value_hard cs) as V.
  unfold Hand.is_bust in B.
  destruct (Z.ltb_spec 21 (Hand.value (hand_of cs))) as [L|L];
    destruct (Z.gtb_spec (Hand.value (hand_of cs)) 21) as [G|G];
    try discriminate; lia.
Qed.

(** A turn of [hit] that does not bust leaves room for one card fewer. *)
Lemma draws_hit_aux (n : nat) :
  forall (ins : list string) (cs : list Card.t) (d_hand : Hand.t) (w : World F),
    (length ins < n)%nat ->
    exists j, Z.of_nat j <= Z.max 1 (22 - hard_total cs) /\
      shoe (snd (fst (hit (hand_of cs) d_hand ins w))) = after_draws j (shoe w).
Proof.
  induction n as [|n IH]; intros ins cs d_hand w Len; [lia|].
  rewrite hit_eq.
  destruct (draws_hit_card (hand_of cs) d_hand w) as (j1 & L1 & E1).
  destruct (hit_card (hand_of cs) d_hand w) as [w1 [hand1|e]] eqn:HC; cbn [fst] in E1.
  - apply hit_card_ok in HC. destruct HC as (c & -> & S1 & _).
    rewrite hand_of_snoc.
    destruct (Hand.is_bust (hand_of (cs ++ [c]))) eqn:B.
    + exists 1%nat. split; [lia | exact S1].
    + apply not_bust_hard in B. rewrite hard_total_app in B.
      pose proof (hard_value_pos c) as P.
      assert (forall w2 : World F, shoe w2 = shoe w1 ->
                exists j, Z.of_nat j <= 21 - hard_total cs /\
                  shoe (snd (fst (hit_ask (hand_of (cs ++ [c])) d_hand ins w2))) =
                  after_draws j (shoe w1)) as Ask.
      { clear E1 S1 L1. induction ins as [|line rest IHins]; intros w2 S2; cbn [hit_ask].
        - exists 0%nat. split; [lia | exact S2].
        - cbn [length] in Len.
          destruct (in_list (upper line) ["H"; "S"]).
          + destruct (upper line =? "S")%string.
            * exists 0%nat. split; [lia | exact S2].
            * destruct (IH rest (cs ++ [c]) d_hand
                          (emit (Prompt "Do you want to hit (H) or stand (S): ") w2))
                as (j & Lj & Ej); [lia|].
              exists j. rewrite hard_total_app in Lj. split; [lia|].
              rewrite Ej. f_equal. exact S2.
          + apply (IHins ltac:(lia)). exact S2. }
      destruct (Ask w1 eq_refl) as (j & Lj & Ej).
      exists (1 + j)%nat. split; [lia|].
      rewrite Ej, S1, after_draws_one, <- after_draws_add. reflexivity.
  - exists j1. split; [lia | exact E1].
Qed.

Lemma draws_hit_two (c1 c2 : Card.t) (d_hand : Hand.t) :
  IO_draws 20 (hit (F := F) (Hand.add_card (Hand.add_card Hand.init c1) c2) d_hand).
Proof.
  intros ins w.
  destruct (@draws_hit_aux (S (length ins)) ins [c1; c2] d_hand w) as (j & Lj & Ej); [lia|].
  exists j. split; [|exact Ej].
  pose proof (hard_value_pos c1). pose proof (hard_value_pos c2).
  change (hard_total [c1; c2]) with (hard_value c1 + (hard_value c2 + 0)) in Lj. lia.
Qed.

(** The dealer draws while the value is under 17, and the value is at least
    the total with aces as 1, which every card raises. *)
Lemma draws_dealer_play_aux (hand : Hand.t) (ins : list string) :
  forall (cs : list Card.t) (w : World F),
    exists j, Z.of_nat j <= Z.max 0 (17 - hard_total cs) /\
      shoe (snd (fst (dealer_play hand (hand_of cs) ins w))) = after_draws j (shoe w).
Proof.
  induction ins as [|line rest IH]; intros cs w; rewrite dealer_play_eq;
    pose proof (hand_of_value_hard cs) as V;
    (destruct (Z.ltb_spec (Hand.value (hand_of cs)) 17) as [U|U];
     [|exists 0%nat; split; [lia | reflexivity]]);
    destruct (draws_dealer_card hand (hand_of cs) w) as (j1 & L1 & E1);
    (destruct (dealer_card hand (hand_of cs) w) as [w1 [d1|e]] eqn:DC; cbn [fst] in E1;
     [|exists j1; split; [lia | exact E1]]);
    apply dealer_card_ok in DC; destruct DC as (c & -> & S1);
    rewrite hand_of_snoc;
    (destruct (Hand.is_bust (hand_of (cs ++ [c])));
     [exists 1%nat; split; [lia | exact S1]|]);
    (destruct (Hand.value (hand_of (cs ++ [c])) <? 17);
     [|exists 1%nat; split; [lia | exact S1]]); cbv zeta.
  - exists 1%nat. split; [lia | exact S1].
  - destruct (IH (cs ++ [c]) (emit (Prompt "Hit enter to continue...") w1))
      as (j & Lj & Ej).
    rewrite hard_total_app in Lj. pose proof (hard_value_pos c) as P.
    exists (1 + j)%nat. split; [lia|].
    rewrite Ej. change (shoe (emit _ w1)) with (shoe w1).
    rewrite S1, after_draws_one, <- after_draws_add. reflexivity.
Qed.

Lemma draws_split_dealer_play_aux (hand1 hand2 : Hand.t) (ins : list string) :
  forall (cs : list Card.t) (w : World F),
    exists j, Z.of_nat j <= Z.max 0 (17 - hard_total cs) /\
      shoe (snd (fst (split_dealer_play hand1 hand2 (hand_of cs) ins w))) =
      after_draws j (shoe w).
Proof.
  induction ins as [|line rest IH]; intros cs w; rewrite split_dealer_play_eq;
    pose proof (hand_of_value_hard cs) as V;
    (destruct (Z.ltb_spec (Hand.value (hand_of cs)) 17) as [U|U];
     [|exists 0%nat; split; [lia | reflexivity]]);
    destruct (draws_split_dealer_card hand1 hand2 (hand_of cs) w) as (j1 & L1 & E1);
    (destruct (split_dealer_card hand1 hand2 (hand_of cs) w) as [w1 [d1|e]] eqn:DC;
     cbn [fst] in E1; [|exists j1; split; [lia | exact E1]]);
    apply split_dealer_card_ok in DC; destruct DC as (c & -> & S1);
    rewrite hand_of_snoc;
    (destruct (Hand.is_bust (hand_of (cs ++ [c])));
     [exists 1%nat; split; [lia | exact S1]|]);
    (destruct (Hand.value (hand_of (cs ++ [c])) <? 17);
     [|exists 1%nat; split; [lia | exact S1]]); cbv zeta.
  - exists 1%nat. split; [lia | exact S1].
  - destruct (IH (cs ++ [c]) (emit (Prompt "Hit enter to continue...") w1))
      as (j & Lj & Ej).
    rewrite hard_total_app in Lj. pose proof (hard_value_pos c) as P.
    exists (1 + j)%nat. split; [lia|].
    rewrite Ej. change (shoe (emit _ w1)) with (shoe w1).
    rewrite S1, after_draws_one, <- after_draws_add. reflexivity.
Qed.

Lemma draws_dealer_play_one (hand : Hand.t) (c : Card.t) :
  IO_draws 16 (dealer_play (F := F) hand (Hand.add_card Hand.init c)).
Proof.
  intros ins w. destruct (draws_dealer_play_aux hand ins [c] w) as (j & Lj & Ej).
  exists j. split; [|exact Ej]. pose proof (hard_value_pos c).
  change (hard_total [c]) with (hard_value c + 0) in Lj. lia.
Qed.

Lemma draws_split_dealer_play_one (hand1 hand2 : Hand.t) (c : Card.t) :
  IO_draws 16 (split_dealer_play (F := F) hand1 hand2 (Hand.add_card Hand.init c)).
Proof.
  intros ins w.
  destruct (draws_split_dealer_play_aux hand1 hand2 ins [c] w) as (j & Lj & Ej).
  exists j. split; [|exact Ej]. pose proof (hard_value_pos c).
  change (hard_total [c]) with (hard_value c + 0) in Lj. lia.
Qed.

Ltac draws_IO :=
  repeat first
    [ apply draws_ret | apply draws_raise | apply draws_input
    | apply draws_get_action | apply draws_get_bet | apply draws_index
    | apply draws_hit_two | apply draws_dealer_play_one
    | apply draws_split_dealer_play_one
    | apply draws_show3 | apply draws_draw_card | apply draws_print
    | apply draws_show | apply draws_retW | apply draws_on_account
    | eapply draws_liftW
    | match goal with
      | |- forall _, IO_draws _ _ => intro
      | |- forall _, W_draws _ _ => intro
      | |- IO_draws _ (if _ then _ else _) => eapply draws_if
      | |- IO_draws _ (let (_, _) := ?r in _) => destruct r
      | |- IO_draws _ (match ?x with _ => _ end) => destruct x
      | |- IO_draws _ (bind _ _) => eapply draws_bind
      | |- W_draws _ (bindW _ _) => eapply draws_bindW
      end ].

Ltac draws_within :=
  eapply draws_weaken; [draws_IO | cbv; lia].

Lemma draws_play_split (c0 c : Card.t) (hand_num : Z) (dealer_hand : Hand.t) (bet : F) :
  IO_draws 20
    (play_split (Hand.add_card (Hand.add_card Hand.init c0) c) hand_num dealer_hand bet).
Proof. unfold play_split. draws_within. Qed.

Lemma draws_split_settle (h1 h2 d : Hand.t) (a1 a2 : option string) (bet : F) :
  IO_draws 0 (split_settle h1 h2 d a1 a2 bet).
Proof. unfold split_settle. draws_within. Qed.

Lemma draws_dealer_then_settle (player_hand : Hand.t) (c : Card.t) (bet : F) :
  IO_draws 16 (dealer_then_settle player_hand (Hand.add_card Hand.init c) bet).
Proof. unfold dealer_then_settle. draws_within. Qed.

Lemma draws_split (hand : Hand.t) (c : Card.t) (bet : F) :
  IO_draws 58 (split hand (Hand.add_card Hand.init c) bet).
Proof.
  unfold split.
  eapply draws_weaken;
    [repeat first [apply draws_play_split | apply draws_split_settle | progress draws_IO]
    | cbv; lia].
Qed.

Lemma draws_play_game : IO_draws 61 (play_game (F := F)).
Proof.
  unfold play_game.
  eapply draws_weaken;
    [repeat first [apply draws_split | apply draws_dealer_then_settle | progress draws_IO]
    | cbv; lia].
Qed.

(** X16: a round draws at most 61 cards, so a round played on a shoe
    [Deck()], as [main_menu] plays every round, never reshuffles: whatever
    is typed and however the round ends, the shoe is left with the cards
    under the [j <= 61] dealt and its shuffle point, and the generator is
    not read. *)
Theorem round_on_fresh_shoe_never_reshuffles (g : Rng.t) (a : Account.t F)
    (out : list (Out F)) (ins : list string) :
  let d := fst (Deck.init g) in
  let w' := snd (fst (play_game ins (mkWorld d (snd (Deck.init g)) a out))) in
  exists j : nat,
    (j <= 61)%nat /\
    Deck.cards (deck w') = firstn (311 - j) (Deck.cards d) /\
    Deck.shuffle_point (deck w') = Deck.shuffle_point d /\
    rng w' = snd (Deck.init g).
Proof.
  cbv zeta.
  destruct (draws_play_game ins (mkWorld (fst (Deck.init g)) (snd (Deck.init g)) a out))
    as (j & Lj & Ej).
  exists j. split; [exact Lj|].
  pose proof (init_length g) as L.
  pose proof (reset_deck_spec (Deck.mk [] 100) g) as [_ S]. fold (Deck.init g) in S.
  destruct (Deck.init g) as [[cards sp] g0].
  cbn [fst snd Deck.cards Deck.shuffle_point] in *.
  unfold shoe in Ej at 2. cbn [deck rng] in Ej.
  rewrite draws_without_shuffle in Ej; [|lia|lia].
  unfold shoe in Ej. injection Ej as Ed Eg.
  rewrite Ed, Eg, L. cbn [Deck.cards Deck.shuffle_point]. repeat split.
Qed.

End DrawProperties.

(** ** The ways a round can fail *)

Section FailureProperties.
Context {F : Type} {num : Number F}.

Lemma safeW_weaken {A : Type} (Q Q' : A -> Prop) (m : W F A) :
  W_safe Q m -> (forall a, Q a -> Q' a) -> W_safe Q' m.
Proof.
  intros H I w Hw. destruct (H w Hw) as (S1 & a & E & Qa).
  split; [exact S1|]. exists a. split; [exact E | apply I, Qa].
Qed.

Lemma safe_retW {A : Type} (Q : A -> Prop) (a : A) : Q a -> W_safe Q (retW (F := F) a).
Proof. intros Qa w Hw. split; [exact Hw|]. exists a. split; [reflexivity | exact Qa]. Qed.

Lemma safe_bindW {A B : Type} (Q1 : A -> Prop) (Q2 : B -> Prop) (m : W F A)
    (f : A -> W F B) :
  W_safe Q1 m -> (forall a, Q1 a -> W_safe Q2 (f a)) -> W_safe Q2 (bindW m f).
Proof.
  intros Hm Hf w Hw. unfold bindW. destruct (Hm w Hw) as (S1 & a & E & Qa).
  destruct (m w) as [w1 r]. cbn [fst snd] in *. subst r. apply (Hf a Qa w1 S1).
Qed.

Lemma safe_print (s : string) : W_safe any (print (F := F) s).
Proof. intros w Hw. split; [exact Hw|]. exists tt. split; [reflexivity | exact I]. Qed.

Lemma safe_show (s : string) (h : Hand.t) :
  holds_cards h -> W_safe any (show (F := F) s h).
Proof.
  intros Hh w Hw. rewrite show_returns by exact Hh.
  split; [exact Hw|]. exists tt. split; [reflexivity | exact I].
Qed.

Lemma safe_draw_card : W_safe any (draw_card (F := F)).
Proof.
  intros w Hw. destruct (draw_card_returns w Hw) as (c & w1 & E & S1 & _).
  rewrite E. split; [exact S1|]. exists c. split; [reflexivity | exact I].
Qed.

Lemma safe_on_account {A : Type} (f : Account.t F -> Account.t F * A) :
  W_safe any (on_account f).
Proof.
  intros w Hw. unfold on_account. destruct (f (account w)) as [a x].
  split; [exact Hw|]. exists x. split; [reflexivity | exact I].
Qed.

Lemma safe_weaken {A : Type} (Q Q' : A -> Prop) (m : IO F A) :
  IO_safe Q m -> (forall a, Q a -> Q' a) -> IO_safe Q' m.
Proof.
  intros H I ins w Hw. destruct (H ins w Hw) as (S1 & P). split; [exact S1|].
  destruct (snd (m ins w)); [apply I, P | exact P].
Qed.

Lemma safe_ret {A : Type} (Q : A -> Prop) (a : A) : Q a -> IO_safe Q (ret (F := F) a).
Proof. intros Qa ins w Hw. split; [exact Hw | exact Qa]. Qed.

Lemma safe_unbound {A : Type} (Q : A -> Prop) :
  IO_safe Q (raise (F := F) (A := A) UnboundLocalError).
Proof. intros ins w Hw. split; [exact Hw | right; reflexivity]. Qed.

Lemma safe_bind {A B : Type} (Q1 : A -> Prop) (Q2 : B -> Prop) (m : IO F A)
    (f : A -> IO F B) :
  IO_safe Q1 m -> (forall a, Q1 a -> IO_safe Q2 (f a)) -> IO_safe Q2 (bind m f).
Proof.
  intros Hm Hf ins w Hw. unfold bind. specialize (Hm ins w Hw).
  destruct (m ins w) as [[ins1 w1] [a|e]]; cbn [fst snd] in *; destruct Hm as (S1 & P).
  - apply (Hf a P ins1 w1 S1).
  - split; assumption.
Qed.

Lemma safe_liftW {A : Type} (Q : A -> Prop) (m : W F A) : W_safe Q m -> IO_safe Q (liftW m).
Proof.
  intros Hm ins w Hw. unfold liftW. destruct (Hm w Hw) as (S1 & a & E & Qa).
  destruct (m w) as [w1 r]. cbn [fst snd] in *. subst r. split; assumption.
Qed.

Lemma safe_input (prompt : string) : IO_safe any (input (F := F) prompt).
Proof.
  intros ins w Hw. unfold input. destruct ins; cbn [fst snd].
  - split; [exact Hw | left; split; reflexivity].
  - split; [exact Hw | exact I].
Qed.

Lemma safe_get_bet : IO_safe any (get_bet (F := F)).
Proof.
  intros ins. induction ins as [|line rest IH]; intros w Hw; cbn [get_bet].
  - split; [exact Hw | left; split; reflexivity].
  - destruct (parse_float line) as [x|]; [|apply IH; exact Hw].
    destruct (flt (fround2 x) (fint 2)); [apply IH; exact Hw|].
    cbn [account emit].
    destruct (Account.place_bet (account w) (fround2 x)) as [a ok].
    destruct ok; [split; [exact Hw | exact I] | apply IH; exact Hw].
Qed.

Lemma safe_get_action (actions : string) (bet : F) :
  IO_safe any (get_action actions bet).
Proof.
  intros ins. induction ins as [|line rest IH]; intros w Hw; cbn [get_action].
  - split; [exact Hw | left; split; reflexivity].
  - destruct (negb (contains "split" actions) && (upper line =? "L")%string);
      [apply IH; exact Hw|].
    destruct (in_list (upper line) _); [|apply IH; exact Hw].
    cbn [account emit].
    destruct (action_allowed bet (upper line) (account w)) as [a ok].
    destruct ok; [split; [exact Hw | exact I] | apply IH; exact Hw].
Qed.

Lemma holds_add_card (h : Hand.t) (c : Card.t) : holds_cards (Hand.add_card h c).
Proof. apply add_card_cards. Qed.

Ltac safe_W :=
  repeat first
    [ apply safe_draw_card | apply safe_print | apply safe_on_account
    | apply safe_show; first [assumption | apply holds_add_card]
    | apply safe_retW; first [exact I | assumption | apply holds_add_card]
    | match goal with
      | |- forall _, any _ -> W_safe _ _ => intros ? _
      | |- W_safe _ (bindW _ _) => eapply (@safe_bindW _ _ any)
      end ].

Lemma safe_hit_card (hand d_hand : Hand.t) :
  holds_cards d_hand -> W_safe holds_cards (hit_card (F := F) hand d_hand).
Proof. intros Hd. unfold hit_card. safe_W. Qed.

Lemma safe_dealer_card (hand d_hand : Hand.t) :
  holds_cards hand -> W_safe any (dealer_card (F := F) hand d_hand).
Proof. intros Hh. unfold dealer_card. safe_W. Qed.

Lemma safe_split_dealer_card (hand1 hand2 d_hand : Hand.t) :
  holds_cards hand1 -> holds_cards hand2 ->
  W_safe any (split_dealer_card (F := F) hand1 hand2 d_hand).
Proof. intros H1 H2. unfold split_dealer_card. safe_W. Qed.

Lemma safe_show3 (d h1 h2 : Hand.t) :
  holds_cards d -> holds_cards h1 -> holds_cards h2 -> W_safe any (show3 (F := F) d h1 h2).
Proof. intros Hd H1 H2. unfold show3. safe_W. Qed.

Lemma two_cards (c1 c2 : Card.t) :
  Hand.cards (Hand.add_card (Hand.add_card Hand.init c1) c2) = [c1; c2].
Proof. exact (proj1 (hand_of_inv [c1; c2])). Qed.

Lemma safe_hit_aux (n : nat) :
  forall (ins : list string) (hand d_hand : Hand.t) (w : World F),
    (length ins < n)%nat -> holds_cards d_hand -> shuffle_point_ok w ->
    shuffle_point_ok (snd (fst (hit hand d_hand ins w))) /\
    match snd (hit hand d_hand ins w) with
    | Ok r => holds_cards (snd r)
    | Raise e => expected_failure (fst (fst (hit hand d_hand ins w))) e
    end.
Proof.
  induction n as [|n IH]; intros ins hand d_hand w Len Hd Hw; [lia|].
  rewrite hit_eq.
  destruct (safe_hit_card hand Hd Hw) as (S1 & h1 & E & Q1).
  destruct (hit_card hand d_hand w) as [w1 r]. cbn [fst snd] in S1, E. subst r.
  destruct (Hand.is_bust h1); [split; [exact S1 | exact Q1]|].
  clear Hw. revert w1 S1.
  induction ins as [|line rest IHins]; intros w1 S1; cbn [hit_ask].
  - split; [exact S1 | left; split; reflexivity].
  - cbn [length] in Len.
    destruct (in_list (upper line) ["H"; "S"]).
    + destruct (upper line =? "S")%string; [split; [exact S1 | exact Q1]|].
      apply IH; [lia | exact Hd | exact S1].
    + apply (IHins ltac:(lia)). exact S1.
Qed.

Lemma safe_hit (hand d_hand : Hand.t) :
  holds_cards d_hand ->
  IO_safe (fun r => holds_cards (snd r)) (hit (F := F) hand d_hand).
Proof.
  intros Hd ins w Hw. apply (@safe_hit_aux (S (length ins))); [lia | exact Hd | exact Hw].
Qed.

Lemma safe_dealer_play (hand d_hand : Hand.t) :
  holds_cards hand -> IO_safe any (dealer_play (F := F) hand d_hand).
Proof.
  intros Hh ins. revert d_hand.
  induction ins as [|line rest IH]; intros d_hand w Hw; rewrite dealer_play_eq;
    (destruct (Hand.value d_hand <? 17); [|split; [exact Hw | exact I]]);
    destruct (safe_dealer_card d_hand Hh Hw) as (S1 & d1 & E & _);
    destruct (dealer_card hand d_hand w) as [w1 r]; cbn [fst snd] in S1, E; subst r;
    (destruct (Hand.is_bust d1); [split; [exact S1 | exact I]|]);
    (destruct (Hand.value d1 <? 17); [|split; [exact S1 | exact I]]); cbv zeta.
  - split; [exact S1 | left; split; reflexivity].
  - apply IH. exact S1.
Qed.

Lemma safe_split_dealer_play (hand1 hand2 d_hand : Hand.t) :
  holds_cards hand1 -> holds_cards hand2 ->
  IO_safe any (split_dealer_play (F := F) hand1 hand2 d_hand).
Proof.
  intros H1 H2 ins. revert d_hand.
  induction ins as [|line rest IH]; intros d_hand w Hw; rewrite split_dealer_play_eq;
    (destruct (Hand.value d_hand <? 17); [|split; [exact Hw | exact I]]);
    destruct (safe_split_dealer_card d_hand H1 H2 Hw) as (S1 & d1 & E & _);
    destruct (split_dealer_card hand1 hand2 d_hand w) as [w1 r];
    cbn [fst snd] in S1, E; subst r;
    (destruct (Hand.is_bust d1); [split; [exact S1 | exact I]|]);
    (destruct (Hand.value d1 <? 17); [|split; [exact S1 | exact I]]); cbv zeta.
  - split; [exact S1 | left; split; reflexivity].
  - apply IH. exact S1.
Qed.

Ltac safe_side := first [exact I | assumption | apply holds_add_card].

Ltac safe_IO_with special :=
  repeat first
    [ special
    | apply safe_input | apply safe_get_bet | apply safe_get_action
    | apply safe_unbound
    | apply safe_dealer_play; safe_side
    | apply safe_split_dealer_play; safe_side
    | match goal with
      | |- forall _, any _ -> IO_safe _ _ => intros ? _
      | |- forall _, _ -> IO_safe _ _ => intros ? ?
      | |- IO_safe _ (ret _) => apply safe_ret; safe_side
      | |- IO_safe _ (liftW (show3 _ _ _)) =>
          apply safe_liftW; apply safe_show3; safe_side
      | |- IO_safe _ (liftW _) => apply safe_liftW; safe_W
      | |- IO_safe _ (bind (hit _ _) _) =>
          eapply safe_bind; [apply safe_hit; safe_side|]
      | |- IO_safe _ (bind _ _) => eapply (@safe_bind _ _ any)
      | |- IO_safe _ (if ?b then _ else _) => destruct b
      | |- IO_safe _ (let (_, _) := ?r in _) => destruct r
      | |- IO_safe _ (match ?x with _ => _ end) => destruct x
      end ].

Ltac safe_IO := safe_IO_with fail.

Lemma safe_play_split (player_hand : Hand.t) (hand_num : Z) (dealer_hand : Hand.t)
    (bet : F) :
  holds_cards player_hand -> holds_cards dealer_hand ->
  IO_safe (fun r => holds_cards (snd r))
    (play_split player_hand hand_num dealer_hand bet).
Proof. intros Hp Hd. unfold play_split. safe_IO. Qed.

Lemma safe_split_settle (h1 h2 d : Hand.t) (a1 a2 : option string) (bet : F) :
  IO_safe any (split_settle h1 h2 d a1 a2 bet).
Proof. unfold split_settle. cbv zeta. safe_IO. Qed.

Lemma safe_dealer_then_settle (player_hand dealer_hand : Hand.t) (bet : F) :
  holds_cards player_hand ->
  IO_safe any (dealer_then_settle player_hand dealer_hand bet).
Proof. intros Hp. unfold dealer_then_settle. safe_IO. Qed.

Ltac safe_special :=
  first
    [ apply safe_split_settle
    | apply safe_dealer_then_settle; safe_side
    | match goal with
      | |- IO_safe _ (bind (play_split _ _ _ _) _) =>
          eapply safe_bind; [apply safe_play_split; safe_side|]
      end ].

Ltac safe_round := safe_IO_with safe_special.

Lemma safe_split (c1 c2 : Card.t) (dealer_hand : Hand.t) (bet : F) :
  holds_cards dealer_hand ->
  IO_safe any
    (split (Hand.add_card (Hand.add_card Hand.init c1) c2) dealer_hand bet).
Proof.
  intros Hd. unfold split. rewrite two_cards. cbn [index nth_error]. safe_round.
Qed.

Lemma safe_split_allowed (c1 c2 : Card.t) :
  IO_safe any
    (match split_allowed (Hand.add_card (Hand.add_card Hand.init c1) c2) with
     | Ok s => ret (F := F) s
     | Raise e => raise e
     end).
Proof.
  unfold split_allowed. rewrite two_cards. cbn [nth_error].
  destruct (Card.value c1 =? Card.value c2); apply safe_ret; exact I.
Qed.

Ltac safe_game :=
  first
    [ apply safe_split_allowed
    | apply safe_split; safe_side
    | apply safe_dealer_then_settle; safe_side ].

Lemma safe_play_game : IO_safe any (play_game (F := F)).
Proof. unfold play_game. safe_IO_with safe_game. Qed.

(** X17: with a shuffle point that is a fraction of the shoe, as every
    [reset_deck] draws it, a round ends in one of three ways, whatever is
    typed: it returns, or [input] finds the input at its end, or an unbound
    local is read.  No draw finds the shoe empty, no hand is shown without
    cards and no card of a hand to split is missing. *)
Theorem round_fails_on_end_of_input_or_unbound_local (ins : list string) (w : World F) :
  Deck.shuffle_point (deck w) <= 100 ->
  snd (play_game ins w) = Ok tt \/
  (snd (play_game ins w) = Raise EOFError /\ fst (fst (play_game ins w)) = []) \/
  snd (play_game ins w) = Raise UnboundLocalError.
Proof.
  intros Hw. destruct (safe_play_game ins Hw) as (_ & P).
  destruct (snd (play_game ins w)) as [[]|e].
  - left. reflexivity.
  - right. destruct P as [[E1 E2]|E1]; subst e;
      [left; split; [reflexivity | exact E2] | right; reflexivity].
Qed.

End FailureProperties.

Lemma round_fails_on_end_of_input_or_unbound_local_witness :
  Deck.shuffle_point (deck world_split) <= 100 /\
  (snd (play_game inputs_split world_split) = Ok tt \/
   (snd (play_game inputs_split world_split) = Raise EOFError /\
    fst (fst (play_game inputs_split world_split)) = []) \/
   snd (play_game inputs_split world_split) = Raise UnboundLocalError).
Proof.
  assert (Deck.shuffle_point (deck world_split) <= 100) as H by (vm_compute; discriminate).
  split; [exact H|].
  apply (round_fails_on_end_of_input_or_unbound_local inputs_split world_split H).
Defined.

(** ** What a round leaves alone *)

(** X18: a round changes neither the user of the account nor the amount
    deposited, and lowers neither the count of hands played nor the count
    of hands won, whatever is typed and however the round ends. *)
Theorem round_keeps_user_and_deposit {F : Type} {num : Number F}
    (ins : list string) (w : World F) :
  let a := account w in
  let a' := account (snd (fst (play_game ins w))) in
  Account.user a' = Account.user a /\
  Account.deposited a' = Account.deposited a /\
  Account.games_played a <= Account.games_played a' /\
  Account.games_won a <= Account.games_won a'.
Proof.
  apply (@rel_play_game F num
           (fun a a' =>
              Account.user a' = Account.user a /\
              Account.deposited a' = Account.deposited a /\
              Account.games_played a <= Account.games_played a' /\
              Account.games_won a <= Account.games_won a')
           (fun _ => True)).
  - intros a. repeat split; lia.
  - intros a b c (U1 & D1 & P1 & W1) (U2 & D2 & P2 & W2).
    repeat split; try congruence; lia.
  - intros amount a. unfold Account.place_bet.
    destruct (fge (Account.balance a) amount); cbn; repeat split; lia.
  - intros a. cbn. repeat split; lia.
  - intros bet _ outcome hand split a. unfold calculate_payoff, Account.game_won.
    destruct (outcome =? "push")%string; [cbn; repeat split; lia|].
    destruct (outcome =? "win")%string; [|repeat split; lia].
    destruct (Hand.is_blackjack hand && not_ split); cbn; repeat split; lia.
  - intros bet _. exact I.
  - intros bet _. exact I.
Qed.

